(** * Dcinside-Crawler: traversal and persistence engine

    A shallow embedding of [DCArticleProcessor.py] and [DCArticleCrawler.py].
    Python integers are [Z], text is [string] (ASCII range), the set of
    collected post numbers is a [gset Z], and the crawler's side effects
    (requests, sleeps, log lines, the JSONL store, the in-memory batch, the
    Selenium driver) are threaded through a state-and-exception monad. *)

From Stdlib Require Import ZArith Ascii String List Bool Lia.
From stdpp Require Import base numbers option list strings gmap.

Open Scope string_scope.
Open Scope list_scope.
Open Scope Z_scope.

(** ** Python text helpers *)

Module PyStr.

(** ASCII part of the characters [str.split()], [str.strip()] and [int()]
    treat as whitespace. *)
Definition is_space (c : ascii) : bool :=
  let n := nat_of_ascii c in
  ((9 <=? n)%nat && (n <=? 13)%nat) || ((28 <=? n)%nat && (n <=? 32)%nat).

Definition is_digit (c : ascii) : bool :=
  let n := nat_of_ascii c in (48 <=? n)%nat && (n <=? 57)%nat.

Definition digit_val (c : ascii) : Z := Z.of_nat (nat_of_ascii c) - 48.

(** [s.split()] : the maximal runs of non-whitespace characters. *)
Fixpoint split_ws_go (cur : string) (s : string) : list string :=
  match s with
  | EmptyString => if decide (cur = "") then [] else [cur]
  | String c r =>
      if is_space c
      then (if decide (cur = "") then split_ws_go "" r
            else cur :: split_ws_go "" r)
      else split_ws_go (cur +:+ String c "") r
  end.

Definition split_ws (s : string) : list string := split_ws_go "" s.

(** [s.split(sep)] for a one-character separator: every separator cuts, so
    the result always has at least one (possibly empty) piece. *)
Fixpoint split_on_go (sep : ascii) (cur : string) (s : string) : list string :=
  match s with
  | EmptyString => [cur]
  | String c r =>
      if decide (c = sep) then cur :: split_on_go sep "" r
      else split_on_go sep (cur +:+ String c "") r
  end.

Definition split_on (sep : ascii) (s : string) : list string :=
  split_on_go sep "" s.

Fixpoint lstrip (s : string) : string :=
  match s with
  | EmptyString => ""
  | String c r => if is_space c then lstrip r else s
  end.

Fixpoint rstrip (s : string) : string :=
  match s with
  | EmptyString => ""
  | String c r =>
      let r' := rstrip r in
      if is_space c && bool_decide (r' = "") then "" else String c r'
  end.

Definition strip (s : string) : string := lstrip (rstrip s).

(** [s.replace(old, new)] for a non-empty [old]: leftmost, non-overlapping
    occurrences.  [skip] counts the characters of a matched occurrence that
    still have to be dropped. *)
Fixpoint replace_go (old new : string) (skip : nat) (s : string) : string :=
  match s with
  | EmptyString => ""
  | String c r =>
      match skip with
      | S k => replace_go old new k r
      | O =>
          if String.prefix old s
          then new +:+ replace_go old new (Nat.pred (String.length old)) r
          else String c (replace_go old new O r)
      end
  end.

Definition replace (old new : string) (s : string) : string :=
  replace_go old new O s.

(** [s.isdigit()] *)
Fixpoint all_digits (s : string) : bool :=
  match s with
  | EmptyString => true
  | String c r => is_digit c && all_digits r
  end.

Definition isdigit (s : string) : bool :=
  negb (bool_decide (s = "")) && all_digits s.

(** The digits of an [int()] literal: decimal digits, single underscores
    allowed between two digits. *)
Fixpoint digits_go (acc : Z) (prev_digit : bool) (s : string) : option Z :=
  match s with
  | EmptyString => if prev_digit then Some acc else None
  | String c r =>
      if is_digit c then digits_go (10 * acc + digit_val c) true r
      else if decide (c = "_"%char)
           then (if prev_digit then digits_go acc false r else None)
           else None
  end.

(** [int(s)] on text; [None] stands for [ValueError]. *)
Definition py_int (s : string) : option Z :=
  match strip s with
  | String "+" r => digits_go 0 false r
  | String "-" r => Z.opp <$> digits_go 0 false r
  | t => digits_go 0 false t
  end.

End PyStr.

(** ** Dates: [datetime.datetime] values at midnight *)

Record datetime := mk_datetime { dt_year : Z; dt_month : Z; dt_day : Z }.

Definition is_leap (y : Z) : bool :=
  ((y mod 4 =? 0) && negb (y mod 100 =? 0)) || (y mod 400 =? 0).

Definition days_in_month (y m : Z) : Z :=
  if m =? 2 then (if is_leap y then 29 else 28)
  else if (m =? 4) || (m =? 6) || (m =? 9) || (m =? 11) then 30
  else 31.

(** [a < b], [a <= b] on datetimes: lexicographic on (year, month, day). *)
Definition dt_ltb (a b : datetime) : bool :=
  (dt_year a <? dt_year b)
  || ((dt_year a =? dt_year b)
      && ((dt_month a <? dt_month b)
          || ((dt_month a =? dt_month b) && (dt_day a <? dt_day b)))).

Definition dt_leb (a b : datetime) : bool := negb (dt_ltb b a).

(** [datetime.datetime.strptime(s, "%Y.%m.%d")]; [None] is [ValueError].
    The directives are the regular expressions of [_strptime]:
    %Y four digits, %m [1[0-2]|0[1-9]|[1-9]],
    %d [3[0-1]|[1-2]\d|0[1-9]|[1-9]| [1-9]]; the whole text must be
    consumed and the date must exist. *)
Definition strptime_year (s : string) : option (Z * string) :=
  match s with
  | String a (String b (String c (String d r))) =>
      if PyStr.is_digit a && PyStr.is_digit b && PyStr.is_digit c
         && PyStr.is_digit d
      then Some (1000 * PyStr.digit_val a + 100 * PyStr.digit_val b
                 + 10 * PyStr.digit_val c + PyStr.digit_val d, r)
      else None
  | _ => None
  end.

Definition strptime_month (s : string) : option (Z * string) :=
  match s with
  | String a r =>
      let one := if PyStr.is_digit a && negb (PyStr.digit_val a =? 0)
                 then Some (PyStr.digit_val a, r) else None in
      match r with
      | String b r' =>
          if (PyStr.digit_val a =? 1) && PyStr.is_digit b
             && (PyStr.digit_val b <=? 2)
          then Some (10 + PyStr.digit_val b, r')
          else if (PyStr.digit_val a =? 0) && PyStr.is_digit b
                  && negb (PyStr.digit_val b =? 0)
          then Some (PyStr.digit_val b, r')
          else one
      | EmptyString => one
      end
  | EmptyString => None
  end.

Definition strptime_day (s : string) : option (Z * string) :=
  match s with
  | String a r =>
      let one := if PyStr.is_digit a && negb (PyStr.digit_val a =? 0)
                 then Some (PyStr.digit_val a, r) else None in
      match r with
      | String b r' =>
          if (PyStr.digit_val a =? 3) && PyStr.is_digit b
             && (PyStr.digit_val b <=? 1)
          then Some (30 + PyStr.digit_val b, r')
          else if PyStr.is_digit a && (1 <=? PyStr.digit_val a)
                  && (PyStr.digit_val a <=? 2) && PyStr.is_digit b
          then Some (10 * PyStr.digit_val a + PyStr.digit_val b, r')
          else if (PyStr.digit_val a =? 0) && PyStr.is_digit b
                  && negb (PyStr.digit_val b =? 0)
          then Some (PyStr.digit_val b, r')
          else if PyStr.is_digit a && negb (PyStr.digit_val a =? 0)
          then one
          else if bool_decide (a = " "%char) && PyStr.is_digit b
                  && negb (PyStr.digit_val b =? 0)
          then Some (PyStr.digit_val b, r')
          else None
      | EmptyString => one
      end
  | EmptyString => None
  end.

Definition expect_dot (s : string) : option string :=
  match s with
  | String "." r => Some r
  | _ => None
  end.

Definition strptime (s : string) : option datetime :=
  '(y, r1) ← strptime_year s;
  r2 ← expect_dot r1;
  '(m, r3) ← strptime_month r2;
  r4 ← expect_dot r3;
  '(d, r5) ← strptime_day r4;
  if bool_decide (r5 = "") && (1 <=? y) && (d <=? days_in_month y m)
  then Some (mk_datetime y m d) else None.

(** [parse_date] (DCArticleProcessor.py): the first whitespace-separated
    token is parsed with [DATE_FORMAT]; a [ValueError] of [strptime] becomes
    [None], the [IndexError] of [text.split()[0]] on blank text is not
    caught. *)
Inductive parse_date_result :=
| ParsedDate (d : option datetime)
| ParseIndexError.

Definition parse_date (text : string) : parse_date_result :=
  match PyStr.split_ws text with
  | [] => ParseIndexError
  | dt :: _ => ParsedDate (strptime dt)
  end.

(** ** Exceptions, results and the crawler monad *)

(** The messages of the [ValueError]s the two modules raise. *)
Inductive vmsg :=
| InvalidGalleryType      (* make_url_for_article *)
| GalleryDoesNotExist     (* check_gallery_conditions *)
| NoRecentPost            (* select_recent_gall_no *)
| GallNoTogether          (* start_gall_no / end_gall_no must come together *)
| DateTogether            (* start_date / end_date must come together *)
| NoConditions            (* neither range given *)
| BothRanges              (* both ranges given *)
| GallNoOrder             (* start_gall_no > end_gall_no *)
| InvalidDateFormat       (* strptime failed on a bound *)
| DateOrder               (* start_date > end_date *)
| InvalidLiteral.         (* int() on non-numeric text *)

Inductive exn :=
| KeyboardInterrupt
| ValueError (m : vmsg)
| AttributeError
| TypeError
| IndexError
| RequestException
| WebDriverException.

(** [NoFuel]: the loop was still running when the iteration budget of the
    model ran out. *)
Inductive result (A : Type) :=
| Ok (a : A)
| Raise (e : exn)
| NoFuel.
Arguments Ok {A} a.
Arguments Raise {A} e.
Arguments NoFuel {A}.

Inductive level := Info | Warning | Error.

Inductive msg :=
| MsgLoadFailed
| MsgInitialized
| MsgGallNoBounds
| MsgDateBounds
| MsgCrawlByGallNo
| MsgCrawlByDate
| MsgAlreadyCollected (n : Z)
| MsgProcessing (n : Z)
| MsgCollected (n : Z)
| MsgSaved (k : nat)
| MsgAfterEndDate (n : Z)
| MsgNoArticleBetween
| MsgFetchFailed (n : Z)
| MsgDeleted (n : Z)
| MsgNoComments (n : Z)
| MsgCommentParseError.

(** A board URL: the path of the gallery type, the page ([view] for a post,
    [lists] for the listing), the gallery id and the [no] parameter. *)
Record url := mk_url {
  u_board : string;
  u_page : string;
  u_id : string;
  u_no : option Z }.

(** What the process does to the outside, in order. *)
Inductive event :=
| EvGet (u : url)           (* requests.get(u, headers=...) *)
| EvDriverGet (u : url)     (* driver.get(u) *)
| EvSleep                   (* time.sleep(sleep_between_requests) *)
| EvLog (l : level) (m : msg)
| EvQuit.                   (* driver.quit() *)

#[global] Instance level_eq_dec : EqDecision level.
Proof. solve_decision. Defined.
#[global] Instance msg_eq_dec : EqDecision msg.
Proof. solve_decision. Defined.
#[global] Instance url_eq_dec : EqDecision url.
Proof. solve_decision. Defined.
#[global] Instance event_eq_dec : EqDecision event.
Proof. solve_decision. Defined.

(** ** Records *)

Record Comment := mk_comment { c_text : string; c_replies : list string }.

Record ArticleExceptComment := mk_article_except_comment {
  gall_no : Z;
  date : option datetime;
  header : string;
  title : string;
  view_count : string;
  content : string;
  recommend_count : string;
  nonrecommend_count : string }.

Record ArticleData := mk_article_data {
  base :> ArticleExceptComment;
  comments : list Comment }.

(** One JSON object of the store as [save_data_in_batch] writes it: the
    counters are integers, the date is the [DATE_FORMAT] rendering of
    [s_date] (null for [None]), the header is dropped. *)
Record StoredArticle := mk_stored {
  s_gall_no : Z;
  s_date : option datetime;
  s_title : string;
  s_view_count : Z;
  s_content : string;
  s_recommend_count : Z;
  s_nonrecommend_count : Z;
  s_comments : list Comment }.

(** A line of the JSONL file, by what [load_collected_gall_no] does on it:
    [LRecord] parses and has an integer [gall_no]; [LMalformed] makes
    [json.loads] raise [JSONDecodeError]; [LUnusable] parses but
    [int(article['gall_no'])] raises. *)
Inductive line :=
| LRecord (a : StoredArticle)
| LMalformed
| LUnusable.

(** ** The remote side *)

Record page := mk_page {
  pg_date : option string;           (* span.gall_date *)
  pg_header : option string;         (* span.title_headtext *)
  pg_title : option string;          (* span.title_subject *)
  pg_content : option string;        (* div.write_div *)
  pg_recommend : option string;      (* #recommend_view_up_<no> *)
  pg_nonrecommend : option string;   (* #recommend_view_down_<no> *)
  pg_count : option string }.        (* span.gall_count *)

Inductive post_reply :=
| PostNetError                       (* requests.RequestException *)
| PostPage (p : page).

(** A top-level comment item of the rendered page: the stripped text of its
    [p.usertxt] (empty when absent) and those of its replies. *)
Record raw_comment := mk_raw { rc_text : string; rc_replies : list string }.

Inductive comments_reply :=
| CmtDriverError                     (* driver.get raises *)
| CmtTimeout                         (* both waits time out *)
| CmtDom (items : list raw_comment)  (* the comment list rendered *)
| CmtParseError.                     (* walking the list raises *)

Record row := mk_row { data_type : option string; data_no : option string }.

Inductive list_reply :=
| ListNetError
| ListResp (status : Z) (rows : list row).

(** The world answers the n-th blocking operation of the process; a signal
    at that instant interrupts it ([KeyboardInterrupt]). *)
Record world := mk_world {
  w_listing : nat -> list_reply;
  w_post : nat -> Z -> post_reply;
  w_comments : nat -> Z -> comments_reply;
  w_signal : nat -> bool }.

(** ** Configuration: the constructor's parameters *)

Record config := mk_config {
  gallery_id : string;
  gall_type : string;
  start_gall_no : option Z;
  end_gall_no : option Z;
  start_date : option string;
  end_date : option string;
  is_crawl_comments : bool;
  maximum_batch_size : Z }.

(** ** Process state *)

Record state := mk_state {
  st_gall_no : Z;                          (* self.gall_no *)
  st_batch : list (option ArticleData);    (* the local list [batch] *)
  st_store : option (list line);           (* the file at jsonl_path *)
  st_trace : list event;
  st_clock : nat }.

Definition store_lines (s : state) : list line := default [] (st_store s).

Definition M (A : Type) : Type := state -> result A * state.

Definition ret {A} (a : A) : M A := fun s => (Ok a, s).

Definition bind {A B} (m : M A) (k : A -> M B) : M B :=
  fun s =>
    match m s with
    | (Ok a, s') => k a s'
    | (Raise e, s') => (Raise e, s')
    | (NoFuel, s') => (NoFuel, s')
    end.

Definition raise {A} (e : exn) : M A := fun s => (Raise e, s).
Definition out_of_fuel {A} : M A := fun s => (NoFuel, s).

Declare Scope crawl_scope.
Delimit Scope crawl_scope with crawl.
Notation "x <- m ;; k" := (bind m (fun x => k))
  (at level 100, m at next level, right associativity) : crawl_scope.
Notation "m ;; k" := (bind m (fun _ => k))
  (at level 100, right associativity) : crawl_scope.
Open Scope crawl_scope.

Definition get : M state := fun s => (Ok s, s).

Definition emit (e : event) : M unit :=
  fun s => (Ok tt, mk_state (st_gall_no s) (st_batch s) (st_store s)
                            (st_trace s ++ [e]) (st_clock s)).

Definition log (l : level) (m : msg) : M unit := emit (EvLog l m).

Definition set_gall_no (g : Z) : M unit :=
  fun s => (Ok tt, mk_state g (st_batch s) (st_store s) (st_trace s)
                            (st_clock s)).

Definition set_batch (b : list (option ArticleData)) : M unit :=
  fun s => (Ok tt, mk_state (st_gall_no s) b (st_store s) (st_trace s)
                            (st_clock s)).

Definition append_line (l : line) : M unit :=
  fun s => (Ok tt, mk_state (st_gall_no s) (st_batch s)
                            (Some (store_lines s ++ [l])) (st_trace s)
                            (st_clock s)).

(** [open(jsonl_path, 'a')] creates the file when it is absent. *)
Definition open_append : M unit :=
  fun s => (Ok tt, mk_state (st_gall_no s) (st_batch s)
                            (Some (store_lines s)) (st_trace s) (st_clock s)).

(** [try: m except KeyboardInterrupt: h] *)
Definition try_except_interrupt {A} (m h : M A) : M A :=
  fun s =>
    match m s with
    | (Raise KeyboardInterrupt, s') => h s'
    | r => r
    end.

(** [try: m finally: f] *)
Definition try_finally {A} (m : M A) (f : M unit) : M A :=
  fun s =>
    match m s with
    | (NoFuel, s') => (NoFuel, s')
    | (r, s') =>
        match f s' with
        | (Ok _, s'') => (r, s'')
        | (Raise e, s'') => (Raise e, s'')
        | (NoFuel, s'') => (NoFuel, s'')
        end
    end.

Definition of_option {A} (e : exn) (o : option A) : M A :=
  match o with
  | Some a => ret a
  | None => raise e
  end.

(** ** DCArticleProcessor.py *)

(** [make_url_for_article]; [None] is the [ValueError] for a gallery type
    other than 'main', 'minor' or 'mini'. *)
Definition make_url_for_article (gallery_type gallery_id : string) (no : Z)
  : option url :=
  if bool_decide (gallery_type = "main")
  then Some (mk_url "board" "view" gallery_id (Some no))
  else if bool_decide (gallery_type = "minor")
  then Some (mk_url "mgallery/board" "view" gallery_id (Some no))
  else if bool_decide (gallery_type = "mini")
  then Some (mk_url "mini/board" "view" gallery_id (Some no))
  else None.

(** [url.replace('&no=1', '').replace('view', 'lists')] on the URL of post 1. *)
Definition listing_url (u : url) : url :=
  mk_url (u_board u) "lists" (u_id u) None.

Definition app_marker : string := "- dc official App".

(** The comment filtering of [crawl_comments]: items and replies without
    text are skipped, the app marker is removed. *)
Definition clean_replies (rs : list string) : list string :=
  map (PyStr.replace app_marker "")
      (filter (fun r => r ≠ "") rs).

Definition clean_comments (items : list raw_comment) : list Comment :=
  map (fun c => mk_comment (PyStr.replace app_marker "" (rc_text c))
                           (clean_replies (rc_replies c)))
      (filter (fun c => rc_text c ≠ "") items).

(** Python truthiness of text, of an optional integer and of optional
    text. *)
Definition truthy_text (s : string) : bool := negb (bool_decide (s = "")).

Definition truthy_int (o : option Z) : bool :=
  match o with Some n => negb (n =? 0) | None => false end.

Definition truthy_str (o : option string) : bool :=
  match o with Some s => truthy_text s | None => false end.

Section Crawler.

Variable w : world.
Variable cfg : config.

(** A blocking call (a request, a page load, a sleep): the clock advances,
    and a signal pending at that instant raises [KeyboardInterrupt]. *)
Definition blocking : M nat :=
  fun s =>
    let s' := mk_state (st_gall_no s) (st_batch s) (st_store s) (st_trace s)
                       (S (st_clock s)) in
    if w_signal w (st_clock s) then (Raise KeyboardInterrupt, s')
    else (Ok (st_clock s), s').

Definition sleep : M unit := emit EvSleep;; _ <- blocking;; ret tt.

(** [DCArticleProcessor.crawl_except_comment] *)
Definition crawl_except_comment (no : Z) : M (option ArticleExceptComment) :=
  u <- of_option (ValueError InvalidGalleryType)
         (make_url_for_article (gall_type cfg) (gallery_id cfg) no);;
  emit (EvGet u);;
  t <- blocking;;
  match w_post w t no with
  | PostNetError => log Error (MsgFetchFailed no);; ret None
  | PostPage p =>
      match pg_date p with
      | None => log Info (MsgDeleted no);; ret None
      | Some date_text =>
          d <- match parse_date date_text with
               | ParsedDate d => ret d
               | ParseIndexError => raise IndexError
               end;;
          let article_header :=
            match pg_header p with
            | Some h => PyStr.replace "]" "" (PyStr.replace "[" "" h)
            | None => ""
            end in
          ttl <- of_option AttributeError (pg_title p);;
          let cont :=
            match pg_content p with
            | Some c =>
                PyStr.replace app_marker ""
                  (PyStr.lstrip (PyStr.rstrip c))
            | None => ""
            end in
          recommend <- of_option AttributeError (pg_recommend p);;
          nonrecommend <- of_option AttributeError (pg_nonrecommend p);;
          count_text <- of_option AttributeError (pg_count p);;
          views <- of_option IndexError
                     (PyStr.split_on " " count_text !! 1%nat);;
          ret (Some (mk_article_except_comment no d article_header ttl views
                       cont recommend nonrecommend))
      end
  end.

(** [DCArticleProcessor.crawl_comments] *)
Definition crawl_comments (no : Z) : M (option (list Comment)) :=
  u <- of_option (ValueError InvalidGalleryType)
         (make_url_for_article (gall_type cfg) (gallery_id cfg) no);;
  emit (EvDriverGet u);;
  t <- blocking;;
  match w_comments w t no with
  | CmtDriverError => raise WebDriverException
  | CmtTimeout => log Info (MsgNoComments no);; ret (Some [])
  | CmtDom items => ret (Some (clean_comments items))
  | CmtParseError => log Error MsgCommentParseError;; ret None
  end.

(** [DCArticleProcessor.process_article], for a processor built with
    [gall_no = no] and [is_crawl_comments = with_comments]. *)
Definition process_article (no : Z) (with_comments : bool)
  : M (option ArticleData) :=
  article_data <- crawl_except_comment no;;
  match article_data with
  | None => ret None
  | Some a =>
      if with_comments
      then
        cs <- crawl_comments no;;
        match cs with
        | None => ret None
        | Some cs => ret (Some (mk_article_data a cs))
        end
      else ret (Some (mk_article_data a []))
  end.

(** ** DCArticleCrawler.py *)

(** The loop of [load_collected_gall_no] over the lines; [None] when a line
    raises something other than [JSONDecodeError]. *)
Fixpoint load_lines (ls : list line) (acc : gset Z) : option (gset Z) :=
  match ls with
  | [] => Some acc
  | LRecord a :: r => load_lines r ({[ s_gall_no a ]} ∪ acc)
  | LMalformed :: r => load_lines r acc
  | LUnusable :: r => None
  end.

Definition load_collected_gall_no : M (gset Z) :=
  s <- get;;
  match st_store s with
  | None => log Warning MsgLoadFailed;; ret ∅
  | Some ls =>
      match load_lines ls ∅ with
      | Some c => ret c
      | None => log Warning MsgLoadFailed;; ret ∅
      end
  end.

(** The body of the [for article in batch] loop of [save_data_in_batch]:
    [article.date] on [None] raises [AttributeError], [int()] on
    non-numeric text raises [ValueError]; the header is dropped. *)
Definition to_stored (a : ArticleData) : option StoredArticle :=
  v ← PyStr.py_int (view_count a);
  r ← PyStr.py_int (recommend_count a);
  n ← PyStr.py_int (nonrecommend_count a);
  Some (mk_stored (gall_no a) (date a) (title a) v (content a) r n
          (comments a)).

Fixpoint save_articles (b : list (option ArticleData)) : M unit :=
  match b with
  | [] => ret tt
  | None :: _ => raise AttributeError
  | Some a :: rest =>
      sa <- of_option (ValueError InvalidLiteral) (to_stored a);;
      append_line (LRecord sa);;
      save_articles rest
  end.

(** [save_data_in_batch]; [jsonl_path] is taken to name a file in a
    directory that exists or can be created, so that [os.makedirs] and
    [open] succeed. *)
Definition save_data_in_batch (b : list (option ArticleData)) : M unit :=
  open_append;; save_articles b.

(** [save_data_in_batch(self.jsonl_path, batch)], the "Saved ..." log line
    and [batch.clear()], as they follow each other at every flush. *)
Definition flush : M unit :=
  s <- get;;
  save_data_in_batch (st_batch s);;
  log Info (MsgSaved (length (st_batch s)));;
  set_batch [].

Definition flush_if_full : M unit :=
  s <- get;;
  if maximum_batch_size cfg <=? Z.of_nat (length (st_batch s))
  then flush else ret tt.

Definition push (a : option ArticleData) : M unit :=
  s <- get;; set_batch (st_batch s ++ [a]).

(** The request both checks send to the board's listing page, and the
    status and post rows of the answer. *)
Definition http_get_listing : M (Z * list row) :=
  u <- of_option (ValueError InvalidGalleryType)
         (make_url_for_article (gall_type cfg) (gallery_id cfg) 1);;
  emit (EvGet (listing_url u));;
  t <- blocking;;
  match w_listing w t with
  | ListNetError => raise RequestException
  | ListResp status rows => ret (status, rows)
  end.

(** [DCArticleCrawler.check_gallery_conditions] *)
Definition check_gallery_conditions : M unit :=
  response <- http_get_listing;;
  if fst response =? 404 then raise (ValueError GalleryDoesNotExist)
  else ret tt.

(** [DCArticleCrawler.select_recent_gall_no]; [None] is its [ValueError]. *)
Fixpoint select_recent_gall_no (post_rows : list row) : option Z :=
  match post_rows with
  | [] => None
  | r :: rest =>
      if bool_decide (data_type r = Some "icon_notice")
      then select_recent_gall_no rest
      else
        match data_no r with
        | Some recent_gall_no =>
            if truthy_text recent_gall_no && PyStr.isdigit recent_gall_no
            then PyStr.py_int recent_gall_no
            else select_recent_gall_no rest
        | None => select_recent_gall_no rest
        end
  end.

(** What [check_scrapping_conditions] leaves in [self]: the mode flag
    [crawl_article_based_on_gall_no] with, in id mode, the end of the range
    and, in date mode, the two parsed dates. *)
Inductive resolved :=
| ByGallNo (end_no : Z)
| ByDate (start_d end_d : datetime).

Definition has_gall_no_range : bool :=
  bool_decide (start_gall_no cfg ≠ None) && bool_decide (end_gall_no cfg ≠ None).

Definition has_date_range : bool :=
  bool_decide (start_date cfg ≠ None) && bool_decide (end_date cfg ≠ None).

(** [DCArticleCrawler.check_scrapping_conditions].  The two [TypeError]
    branches are what Python does on a [None] bound there; the range flags
    tested just before exclude them. *)
Definition check_scrapping_conditions : M resolved :=
  if xorb (truthy_int (start_gall_no cfg)) (truthy_int (end_gall_no cfg))
  then raise (ValueError GallNoTogether)
  else if xorb (truthy_str (start_date cfg)) (truthy_str (end_date cfg))
  then raise (ValueError DateTogether)
  else if negb (has_gall_no_range || has_date_range)
  then raise (ValueError NoConditions)
  else if has_gall_no_range && has_date_range
  then raise (ValueError BothRanges)
  else if has_gall_no_range
  then
    match start_gall_no cfg, end_gall_no cfg with
    | Some s_no, Some e_no =>
        if e_no <? s_no then raise (ValueError GallNoOrder)
        else set_gall_no s_no;; ret (ByGallNo e_no)
    | _, _ => raise TypeError
    end
  else
    match start_date cfg, end_date cfg with
    | Some s_txt, Some e_txt =>
        match strptime s_txt, strptime e_txt with
        | Some sd, Some ed =>
            if dt_ltb ed sd then raise (ValueError DateOrder)
            else
              temp_data <- http_get_listing;;
              recent_gall_no <- of_option (ValueError NoRecentPost)
                                  (select_recent_gall_no (snd temp_data));;
              set_gall_no recent_gall_no;;
              ret (ByDate sd ed)
        | _, _ => raise (ValueError InvalidDateFormat)
        end
    | _, _ => raise TypeError
    end.

(** One iteration of the [while self.gall_no <= self.end_gall_no] loop. *)
Definition id_body (collected : gset Z) : M unit :=
  s <- get;;
  let g := st_gall_no s in
  if bool_decide (g ∈ collected)
  then log Info (MsgAlreadyCollected g);; set_gall_no (g + 1)
  else
    log Info (MsgProcessing g);;
    article_data <- process_article g (is_crawl_comments cfg);;
    match article_data with
    | Some a => push (Some a);; log Info (MsgCollected g)
    | None => ret tt
    end;;
    flush_if_full;;
    set_gall_no (g + 1);;
    sleep.

Fixpoint id_loop (fuel : nat) (end_no : Z) (collected : gset Z) : M unit :=
  s <- get;;
  if st_gall_no s <=? end_no
  then
    match fuel with
    | O => out_of_fuel
    | S f => id_body collected;; id_loop f end_no collected
    end
  else ret tt.

(** How an iteration of [while True] ends: at the bottom or at a
    [continue] ([Next]), or at the [break]. *)
Inductive ctl := Next | Break.

(** One iteration of the date-mode loop. *)
Definition date_body (start_d end_d : datetime) (collected : gset Z) : M ctl :=
  s <- get;;
  let g := st_gall_no s in
  article_data <- process_article g false;;
  match article_data with
  | None => set_gall_no (g - 1);; ret Next
  | Some a =>
      d <- of_option TypeError (date a);;
      c <- (if dt_leb start_d d && dt_leb d end_d
            then
              (if bool_decide (g ∈ collected)
               then log Info (MsgAlreadyCollected g)
               else
                 log Info (MsgProcessing g);;
                 (if is_crawl_comments cfg
                  then
                    article_data <- process_article g true;;
                    push article_data
                  else push (Some a));;
                 log Info (MsgCollected g);;
                 flush_if_full);;
              ret Next
            else if dt_ltb end_d d
            then log Info (MsgAfterEndDate g);; ret Next
            else if dt_ltb d start_d
            then log Error MsgNoArticleBetween;; ret Break
            else ret Next);;
      match c with
      | Break => ret Break
      | Next => set_gall_no (g - 1);; sleep;; ret Next
      end
  end.

Fixpoint date_loop (fuel : nat) (start_d end_d : datetime)
    (collected : gset Z) : M unit :=
  match fuel with
  | O => out_of_fuel
  | S f =>
      c <- date_body start_d end_d collected;;
      match c with
      | Break => ret tt
      | Next => date_loop f start_d end_d collected
      end
  end.

(** The [try] block of [run]. *)
Definition traverse (fuel : nat) (mode : resolved) (collected : gset Z)
  : M unit :=
  match mode with
  | ByGallNo end_no =>
      log Info MsgCrawlByGallNo;;
      id_loop fuel end_no collected;;
      flush
  | ByDate start_d end_d =>
      log Info MsgCrawlByDate;;
      date_loop fuel start_d end_d collected;;
      flush
  end.

Definition driver_quit : M unit := emit EvQuit.

(** [DCArticleCrawler.run] *)
Definition run (fuel : nat) : M unit :=
  check_gallery_conditions;;
  mode <- check_scrapping_conditions;;
  collected_gall_no <- load_collected_gall_no;;
  log Info MsgInitialized;;
  (if bool_decide (start_gall_no cfg ≠ None)
   then log Info MsgGallNoBounds else log Info MsgDateBounds);;
  set_batch [];;
  try_finally
    (try_except_interrupt (traverse fuel mode collected_gall_no) flush)
    driver_quit.

End Crawler.

(** The process when [run] is called on a freshly constructed crawler: the
    driver is open, nothing has happened yet, and the file at [jsonl_path]
    is [file] ([self.gall_no] is assigned by [check_scrapping_conditions]
    before it is read). *)
Definition init_state (file : option (list line)) : state :=
  mk_state 0 [] file [] 0.

(** * Vocabulary of the properties *)

(** ** States related by a fetch, a log line, a request *)

(** A fetch leaves the cursor, the batch and the store alone; it adds
    events to the trace, none of them a sleep. *)
Record fetch_frame (s s' : state) : Prop := mk_fetch_frame {
  ff_gall_no : st_gall_no s' = st_gall_no s;
  ff_batch : st_batch s' = st_batch s;
  ff_store : st_store s' = st_store s;
  ff_trace : exists evs,
      st_trace s' = st_trace s ++ evs /\ Forall (fun e => e <> EvSleep) evs }.

(** The state with one more log line. *)
Definition logged (s : state) (l : level) (m : msg) : state :=
  mk_state (st_gall_no s) (st_batch s) (st_store s)
    (st_trace s ++ [EvLog l m]) (st_clock s).

(** The state after an iteration that found no post at the cursor. *)
Definition after_null (s s1 : state) : state :=
  mk_state (st_gall_no s - 1) (st_batch s) (st_store s) (st_trace s1)
    (st_clock s1).

(** The replies that make the fetch yield no record. *)
Definition null_reply (r : post_reply) : Prop :=
  r = PostNetError \/ exists p, r = PostPage p /\ pg_date p = None.

(** The [ValueError]s that reject the scrape bounds. *)
Definition is_bounds_error (m : vmsg) : bool :=
  match m with
  | GallNoTogether | DateTogether | NoConditions | BothRanges
  | GallNoOrder | InvalidDateFormat | DateOrder => true
  | _ => false
  end.

(** The state after the request of the existence check. *)
Definition after_listing_get (s : state) (u : url) : state :=
  mk_state (st_gall_no s) (st_batch s) (st_store s)
    (st_trace s ++ [EvGet (listing_url u)]) (S (st_clock s)).

(** ** What a flush writes *)

(** The lines a flush of [b] writes before it returns or raises, and how it
    ends. *)
Fixpoint written_lines (b : list (option ArticleData)) : list line :=
  match b with
  | Some a :: rest =>
      match to_stored a with
      | Some sa => LRecord sa :: written_lines rest
      | None => []
      end
  | _ => []
  end.

Fixpoint save_outcome (b : list (option ArticleData)) : result unit :=
  match b with
  | [] => Ok tt
  | None :: _ => Raise AttributeError
  | Some a :: rest =>
      match to_stored a with
      | Some _ => save_outcome rest
      | None => Raise (ValueError InvalidLiteral)
      end
  end.

Definition with_store (s : state) (ls : list line) : state :=
  mk_state (st_gall_no s) (st_batch s) (Some ls) (st_trace s) (st_clock s).

(** An entry is kept by a state when it is in the batch or its record is
    in the store. *)
Definition kept (x : option ArticleData) (s : state) : Prop :=
  x ∈ st_batch s
  \/ exists a sa, x = Some a /\ to_stored a = Some sa
                  /\ LRecord sa ∈ store_lines s.

(** ** Post numbers in the store *)

Definition line_id (l : line) : option Z :=
  match l with
  | LRecord a => Some (s_gall_no a)
  | _ => None
  end.

(** The [gall_no] values of the records of a store, in file order. *)
Definition line_ids (ls : list line) : list Z := omap line_id ls.

(** A store the loader reads to the end and in which no post number
    occurs twice. *)
Definition store_ok (ls : list line) : Prop :=
  (LUnusable ∉ ls) /\ NoDup (line_ids ls).

Section StoreInvariant.

(** The lines of the store when the run started. *)
Variable S0 : list line.

(** The store is the initial one followed by lines [W] of this run, the
    batch holds records [B], no post number occurs twice among them all,
    and those of this run are below [k]. *)
Definition inv_at (k : Z) (s : state) : Prop :=
  exists (W : list line) (B : list ArticleData),
    store_lines s = S0 ++ W
    /\ (LUnusable ∉ W)
    /\ st_batch s = map Some B
    /\ NoDup (line_ids S0 ++ line_ids W
              ++ map (fun a : ArticleData => gall_no a) B)
    /\ Forall (fun i => i < k)
         (line_ids W ++ map (fun a : ArticleData => gall_no a) B).

Definition inv (s : state) : Prop := inv_at (st_gall_no s) s.

(** The part of the invariant that survives a flush that raised. *)
Definition inv_store (s : state) : Prop :=
  exists W : list line,
    store_lines s = S0 ++ W /\ (LUnusable ∉ W)
    /\ NoDup (line_ids S0 ++ line_ids W).

(** After [KeyboardInterrupt] the batch is intact; after any other
    exception only the store matters. *)
Definition post {A} (r : result A) (s : state) : Prop :=
  match r with
  | Raise KeyboardInterrupt => inv s
  | Raise _ => inv_store s
  | _ => inv s
  end.

End StoreInvariant.

(** ** Relations and invariants of monadic code *)

(** [m] relates the state it starts in to the state it ends in by [R],
    however it ends. *)
Definition always {A} (R : state -> state -> Prop) (m : M A) : Prop :=
  forall s r s', m s = (r, s') -> R s s'.

(** [m] keeps [I] whenever it ends in a state the run goes on from: when
    it returns, when the fuel runs out, and when it is interrupted (the
    handler of [run] continues from there). *)
Definition keeps {A} (I : state -> Prop) (m : M A) : Prop :=
  forall s r s', I s -> m s = (r, s') ->
    match r with
    | Raise KeyboardInterrupt => I s'
    | Raise _ => True
    | _ => I s'
    end.

Definition is_record (l : line) : Prop := exists a, l = LRecord a.

(** From [s] to [s']: the trace grew by events that satisfy [P], the
    store grew by records, the clock did not go back. *)
Definition steps (P : event -> Prop) (s s' : state) : Prop :=
  (exists evs, st_trace s' = st_trace s ++ evs /\ Forall P evs)
  /\ (exists added,
        store_lines s' = store_lines s ++ added /\ Forall is_record added)
  /\ (st_clock s <= st_clock s')%nat.

(** The state [s'] is [s] after events other than the quit, possibly
    followed by the quit as the very last event. *)
Definition quit_last (s s' : state) : Prop :=
  exists evs,
    Forall (fun e => e <> EvQuit) evs
    /\ (st_trace s' = st_trace s ++ evs
        \/ st_trace s' = st_trace s ++ evs ++ [EvQuit]).

(** The state in which the [try] block of [run] starts, from the state
    [s] the loader left: the two "Initialized" log lines are written and
    the batch is the empty list. *)
Definition ready (cfg : config) (s : state) : state :=
  mk_state (st_gall_no s) [] (st_store s)
    (st_trace s
     ++ [EvLog Info MsgInitialized;
         EvLog Info (if bool_decide (start_gall_no cfg ≠ None)
                     then MsgGallNoBounds else MsgDateBounds)])
    (st_clock s).

(** The log lines other than "Collected article ..." and "Saved ...". *)
Definition plain_msg (m : msg) : Prop :=
  match m with
  | MsgCollected _ | MsgSaved _ => False
  | _ => True
  end.

(** Every post the trace logs as collected is accounted for: its number
    is in the store, or a record with its number is in the batch, or the
    batch holds a [None] (which no flush gets past). *)
Definition accounted (s : state) : Prop :=
  forall g, EvLog Info (MsgCollected g) ∈ st_trace s ->
    g ∈ line_ids (store_lines s)
    \/ (exists a : ArticleData, Some a ∈ st_batch s /\ gall_no a = g)
    \/ None ∈ st_batch s.

(** An event other than a "Collected article ..." log line. *)
Definition not_collected_log (e : event) : Prop :=
  forall g, e <> EvLog Info (MsgCollected g).

(** ** The posts a trace asked the board for *)

(** The post number of a request for a post page ([None] for the request
    of the listing page and for every other event). *)
Definition post_request (e : event) : option Z :=
  match e with
  | EvGet u => u_no u
  | _ => None
  end.

Definition post_requests (tr : list event) : list Z := omap post_request tr.

Definition no_post_request (e : event) : Prop := post_request e = None.

(** The numbers from [first] to [last] that are not in [collected], in
    ascending order. *)
Definition uncollected (collected : gset Z) (first last : Z) : list Z :=
  filter (fun g => g ∉ collected) (seqZ first (last - first + 1)).

(** What [load_collected_gall_no] returns for the file [file]. *)
Definition loaded (file : option (list line)) : gset Z :=
  match file with
  | Some ls => default ∅ (load_lines ls ∅)
  | None => ∅
  end.

(** [m] never raises [KeyboardInterrupt]. *)
Definition quiet {A} (m : M A) : Prop :=
  forall s, (m s).1 <> Raise KeyboardInterrupt.

(** The two states have asked for the same posts. *)
Definition same_requests (s s' : state) : Prop :=
  post_requests (st_trace s') = post_requests (st_trace s).

(** A row of the listing that [select_recent_gall_no] passes over: a
    notice, or a row whose [data-no] is missing or not all digits. *)
Definition skipped_row (r : row) : Prop :=
  data_type r = Some "icon_notice"
  \/ match data_no r with
     | Some t => PyStr.isdigit t = false
     | None => True
     end.

(** ** Text without tokens, and tokens *)

(** Text made of whitespace only: [text.split()] is empty. *)
Fixpoint blank (s : string) : bool :=
  match s with
  | EmptyString => true
  | String c r => PyStr.is_space c && blank r
  end.

(** Text without whitespace. *)
Fixpoint solid (s : string) : bool :=
  match s with
  | EmptyString => true
  | String c r => negb (PyStr.is_space c) && solid r
  end.

(** An event other than a page load of the browser. *)
Definition not_driver_get (e : event) : Prop := forall u, e <> EvDriverGet u.

(** ** Pre- and postconditions *)

(** From a state that satisfies [Pre], [m] ends in a state that satisfies
    [Q] when it returns, [Stop] when it is interrupted or out of fuel, and
    [Exc] when it raises anything else. *)
Definition ensures {A} (Pre Q Stop Exc : state -> Prop) (m : M A) : Prop :=
  forall s r s', Pre s -> m s = (r, s') ->
    match r with
    | Ok _ => Q s'
    | Raise KeyboardInterrupt | NoFuel => Stop s'
    | Raise _ => Exc s'
    end.

(** ** The sizes of the saves *)

(** The number a "Saved ..." log line reports. *)
Definition saved_count (e : event) : option nat :=
  match e with
  | EvLog Info (MsgSaved k) => Some k
  | _ => None
  end.

Definition saved_counts (tr : list event) : list nat := omap saved_count tr.

Definition no_saved_log (e : event) : Prop := saved_count e = None.

(** Every save so far wrote [maximum_batch_size] entries. *)
Definition full_saves (cfg : config) (s : state) : Prop :=
  exists j,
    saved_counts (st_trace s)
    = replicate j (Z.to_nat (maximum_batch_size cfg)).

(** The batch is not above the threshold, or strictly below it. *)
Definition at_most_threshold (cfg : config) (s : state) : Prop :=
  Z.of_nat (length (st_batch s)) <= maximum_batch_size cfg
  /\ full_saves cfg s.

Definition below_threshold (cfg : config) (s : state) : Prop :=
  Z.of_nat (length (st_batch s)) < maximum_batch_size cfg
  /\ full_saves cfg s.

(** Every save wrote [maximum_batch_size] entries, the last one apart,
    which wrote fewer. *)
Definition last_save_short (cfg : config) (s : state) : Prop :=
  exists j k,
    saved_counts (st_trace s)
    = replicate j (Z.to_nat (maximum_batch_size cfg)) ++ [k]
    /\ Z.of_nat k < maximum_batch_size cfg.

(** ** The requests of a date-mode run *)

(** Each number is the one before it, or one less. *)
Definition descends (l : list Z) : Prop :=
  forall i g h, l !! i = Some g -> l !! S i = Some h -> h = g \/ h = g - 1.

(** The posts asked for so far descend, and the last of them is the post
    at the cursor or the one above it. *)
Definition walking_down (s : state) : Prop :=
  descends (post_requests (st_trace s))
  /\ forall g, last (post_requests (st_trace s)) = Some g ->
               g = st_gall_no s \/ g = st_gall_no s + 1.

(** The cursor is on [g], and the last post asked for, if any, is [g] or
    the one above it. *)
Definition about_to_fetch (g : Z) (s : state) : Prop :=
  st_gall_no s = g /\ walking_down s.

(** The cursor is on [g], which is the last post asked for. *)
Definition just_fetched (g : Z) (s : state) : Prop :=
  st_gall_no s = g
  /\ descends (post_requests (st_trace s))
  /\ last (post_requests (st_trace s)) = Some g.

(** [ensures] with a postcondition that depends on the value returned. *)
Definition ensures_with {A} (Pre : state -> Prop) (Q : A -> state -> Prop)
    (Stop Exc : state -> Prop) (m : M A) : Prop :=
  forall s r s', Pre s -> m s = (r, s') ->
    match r with
    | Ok a => Q a s'
    | Raise KeyboardInterrupt | NoFuel => Stop s'
    | Raise _ => Exc s'
    end.

(** ** The store during a date-mode run *)

(** The post numbers of the records of a batch. *)
Definition batch_ids (b : list (option ArticleData)) : list Z :=
  omap (fun x : option ArticleData =>
          match x with
          | Some a => Some (gall_no a)
          | None => None
          end) b.

(** The store is [S0] followed by lines of this run, no post number
    occurs twice among the store and the batch, and the numbers of this
    run are above [k]. *)
Definition above (S0 : list line) (k : Z) (s : state) : Prop :=
  exists W : list line,
    store_lines s = S0 ++ W
    /\ (LUnusable ∉ W)
    /\ NoDup (line_ids S0 ++ line_ids W ++ batch_ids (st_batch s))
    /\ Forall (fun i => k < i) (line_ids W ++ batch_ids (st_batch s)).

(** At the top of an iteration; with the cursor on [g] before anything is
    appended for it; with the cursor on [g] once something may have been;
    at any point. *)
Definition above_cursor (S0 : list line) (s : state) : Prop :=
  above S0 (st_gall_no s) s.

Definition before_push (S0 : list line) (g : Z) (s : state) : Prop :=
  st_gall_no s = g /\ above S0 g s.

Definition after_push (S0 : list line) (g : Z) (s : state) : Prop :=
  st_gall_no s = g /\ above S0 (g - 1) s.

Definition above_some (S0 : list line) (s : state) : Prop :=
  exists k, above S0 k s.

(** ** Records dated inside the window *)

Definition in_window (start_d end_d d : datetime) : Prop :=
  dt_leb start_d d = true /\ dt_leb d end_d = true.

(** An entry of the batch, and a line of the store, that hold a record
    dated inside the window. *)
Definition window_entry (start_d end_d : datetime)
    (x : option ArticleData) : Prop :=
  exists (a : ArticleData) d,
    x = Some a /\ date a = Some d /\ in_window start_d end_d d.

Definition window_line (start_d end_d : datetime) (l : line) : Prop :=
  exists sa d,
    l = LRecord sa /\ s_date sa = Some d /\ in_window start_d end_d d.

(** The store is [S0] followed by records dated inside the window, and
    the batch holds such records only. *)
Definition window_only (S0 : list line) (start_d end_d : datetime)
    (s : state) : Prop :=
  exists W : list line,
    store_lines s = S0 ++ W
    /\ Forall (window_line start_d end_d) W
    /\ Forall (window_entry start_d end_d) (st_batch s).

Definition keeps_window (S0 : list line) (start_d end_d : datetime)
    (s s' : state) : Prop :=
  window_only S0 start_d end_d s -> window_only S0 start_d end_d s'.

(** ** Requests and rests *)

(** A trace reduced to its requests for post pages and its sleeps. *)
Inductive mark := Req | Rest.

Definition mark_of (e : event) : option mark :=
  match e with
  | EvGet u => match u_no u with Some _ => Some Req | None => None end
  | EvSleep => Some Rest
  | _ => None
  end.

Definition marks (tr : list event) : list mark := omap mark_of tr.

Definition unmarked (e : event) : Prop := mark_of e = None.

(** No two requests follow each other without a rest in between. *)
Definition rests_between (l : list mark) : Prop :=
  forall i, l !! i = Some Req -> l !! S i = Some Req -> False.

Definition asked (s : state) : Prop := rests_between (marks (st_trace s)).

(** As [asked], and the last thing was not a request. *)
Definition rested (s : state) : Prop :=
  rests_between (marks (st_trace s))
  /\ last (marks (st_trace s)) <> Some Req.

(** ** Example boards *)

Module Scenario.

(** A post page with every field present and [d] as its date text. *)
Definition page_dated (d : string) : page :=
  mk_page (Some d) (Some "[normal]") (Some "title") (Some " body ")
    (Some "3") (Some "0") (Some "hits 12").

(** A page whose date element is missing: the post was deleted. *)
Definition page_deleted : page :=
  mk_page None None None None None None None.

Definition listing : list row :=
  [mk_row (Some "icon_notice") (Some "99"); mk_row (Some "icon_txt") (Some "5")].

(** A board with five posts: 5 is dated after the window of [by_date], 4
    and 3 inside it (3 on its first day), 2 on the day before it, 1 long
    before. *)
Definition board_post (n : Z) : post_reply :=
  if n =? 5 then PostPage (page_dated "2025.06.10 09:00:00")
  else if n =? 4 then PostPage (page_dated "2025.06.01 12:30:00")
  else if n =? 3 then PostPage (page_dated "2025.05.26 08:00:00")
  else if n =? 2 then PostPage (page_dated "2025.05.25 23:59:59")
  else if n =? 1 then PostPage (page_dated "2025.05.01 10:00:00")
  else PostPage page_deleted.

Definition board_comments : comments_reply :=
  CmtDom [mk_raw "first" ["reply"; ""]; mk_raw "" []].

Definition board : world :=
  mk_world (fun _ => ListResp 200 listing) (fun _ => board_post)
    (fun _ _ => board_comments) (fun _ => false).

(** The same board on a bad connection: the request for post 4 sent as
    the sixth blocking call of the process fails with a network error.
    In a date-mode run with comments that call is the re-fetch of post 4.
    A cancellation signal arrives during the blocking call [signal_at],
    if any. *)
Definition flaky_board (signal_at : option nat) : world :=
  mk_world (fun _ => ListResp 200 listing)
    (fun t n =>
       if (n =? 4) && bool_decide (t = 5%nat) then PostNetError
       else board_post n)
    (fun _ _ => board_comments)
    (fun t => bool_decide (signal_at = Some t)).

(** The record of a post of [board] as the comment-less fetch returns
    it. *)
Definition fetched (n : Z) (d : datetime) : ArticleData :=
  mk_article_data
    (mk_article_except_comment n (Some d) "normal" "title" "12" "body" "3" "0")
    [].

(** A board on which every post is gone. *)
Definition empty_board : world :=
  mk_world (fun _ => ListResp 200 listing) (fun _ _ => PostPage page_deleted)
    (fun _ _ => CmtTimeout) (fun _ => false).

Definition by_date (with_comments : bool) : config :=
  mk_config "forthegifted" "minor" None None (Some "2025.05.26")
    (Some "2025.06.06") with_comments 10.

Definition by_id (first last : option Z) : config :=
  mk_config "forthegifted" "minor" first last None None false 10.

(** Post 1 has lost its title element; post 2 is complete. *)
Definition untitled_board : world :=
  mk_world (fun _ => ListResp 200 listing)
    (fun _ n =>
       if n =? 1
       then PostPage (mk_page (Some "2025.05.26 08:00:00") None None
                        (Some "body") (Some "3") (Some "0") (Some "hits 12"))
       else PostPage (page_dated "2025.05.27 08:00:00"))
    (fun _ _ => board_comments) (fun _ => false).

(** The listing page of the gallery answers 404. *)
Definition missing_board : world :=
  mk_world (fun _ => ListResp 404 []) (fun _ _ => PostPage page_deleted)
    (fun _ _ => CmtTimeout) (fun _ => false).

(** Every post shows its date in another format. *)
Definition undated_board : world :=
  mk_world (fun _ => ListResp 200 listing)
    (fun _ _ => PostPage (page_dated "2025-05-26 08:00:00"))
    (fun _ _ => board_comments) (fun _ => false).

Definition may_26 : datetime := mk_datetime 2025 5 26.
Definition jun_06 : datetime := mk_datetime 2025 6 6.

Definition at_cursor (g : Z) : state := mk_state g [] None [] 0.

End Scenario.

(** * Properties *)

(** ** Sanity checks of the text and date helpers *)

Example parse_date_post_page :
  parse_date "2025.05.26 12:34:56"
  = ParsedDate (Some (mk_datetime 2025 5 26)).
Proof. reflexivity. Qed.

Example parse_date_other_format : parse_date "2025-05-26 12:34:56" = ParsedDate None.
Proof. reflexivity. Qed.

Example parse_date_blank : parse_date "  " = ParseIndexError.
Proof. reflexivity. Qed.

Example strptime_rejects_feb_30 : strptime "2025.02.30" = None.
Proof. reflexivity. Qed.

Example view_count_of_count_text :
  PyStr.split_on " " "hits 12" !! 1%nat = Some "12".
Proof. reflexivity. Qed.

Example py_int_examples :
  PyStr.py_int "12" = Some 12 /\ PyStr.py_int " -7 " = Some (-7)
  /\ PyStr.py_int "1,234" = None /\ PyStr.py_int "" = None.
Proof. repeat split; reflexivity. Qed.

(** ** The order on dates *)

Lemma dt_ltb_lt a b :
  dt_ltb a b = true <->
  dt_year a < dt_year b
  \/ (dt_year a = dt_year b
      /\ (dt_month a < dt_month b
          \/ (dt_month a = dt_month b /\ dt_day a < dt_day b))).
Proof.
  unfold dt_ltb.
  rewrite !orb_true_iff, !andb_true_iff, !orb_true_iff, !andb_true_iff,
    !Z.ltb_lt, !Z.eqb_eq.
  tauto.
Qed.

Lemma dt_ltb_irrefl a : dt_ltb a a = false.
Proof.
  destruct (dt_ltb a a) eqn:E; [|done].
  apply dt_ltb_lt in E. lia.
Qed.

Lemma dt_leb_refl a : dt_leb a a = true.
Proof. unfold dt_leb. by rewrite dt_ltb_irrefl. Qed.

Lemma dt_ltb_leb_trans a b c :
  dt_ltb a b = true -> dt_leb b c = true -> dt_ltb a c = true.
Proof.
  unfold dt_leb. rewrite negb_true_iff.
  intros Hab Hbc. apply dt_ltb_lt in Hab. apply dt_ltb_lt.
  destruct (dt_ltb c b) eqn:E; [done|].
  assert (~ (dt_year c < dt_year b
             \/ (dt_year c = dt_year b
                 /\ (dt_month c < dt_month b
                     \/ (dt_month c = dt_month b /\ dt_day c < dt_day b)))))
    as Hn by (rewrite <- dt_ltb_lt; congruence).
  lia.
Qed.

Lemma dt_ltb_asym a b : dt_ltb a b = true -> dt_ltb b a = false.
Proof.
  intros Hab. destruct (dt_ltb b a) eqn:E; [|done].
  apply dt_ltb_lt in Hab. apply dt_ltb_lt in E. lia.
Qed.

(** A date before the start of a non-empty window is not after its end. *)
Lemma before_start_not_after_end d start_d end_d :
  dt_ltb d start_d = true -> dt_leb start_d end_d = true ->
  dt_ltb end_d d = false.
Proof.
  intros H1 H2. apply dt_ltb_asym. eapply dt_ltb_leb_trans; eauto.
Qed.

(** ** What a fetch can change *)

(** Unfolds the monad's plumbing in the goal and in the hypotheses. *)
Ltac unfold_monad :=
  unfold bind, ret, raise, out_of_fuel, of_option, log, emit, get,
    set_gall_no, set_batch, append_line, open_append, push in *.

Lemma fetch_frame_refl s : fetch_frame s s.
Proof.
  split; try done. exists []. by rewrite app_nil_r.
Qed.

Lemma fetch_frame_trans s1 s2 s3 :
  fetch_frame s1 s2 -> fetch_frame s2 s3 -> fetch_frame s1 s3.
Proof.
  intros [g1 b1 f1 (e1 & t1 & n1)] [g2 b2 f2 (e2 & t2 & n2)].
  split; try congruence.
  exists (e1 ++ e2). split.
  - rewrite t2, t1. by rewrite app_assoc.
  - by apply Forall_app.
Qed.

(** Case analysis along the branches of a monadic definition. *)
Ltac branches :=
  repeat (first [ progress unfold_monad
                | progress simplify_eq/=
                | case_match ]).

Ltac solve_fetch_frame :=
  first
    [ apply fetch_frame_refl
    | split; cbn [st_gall_no st_batch st_store st_trace]; try done;
      rewrite <- ?app_assoc; eexists; split; [reflexivity|];
      repeat constructor; done ].

Section FetchFacts.

Variable w : world.
Variable cfg : config.

Lemma crawl_except_comment_frame no s r s' :
  crawl_except_comment w cfg no s = (r, s') -> fetch_frame s s'.
Proof.
  unfold crawl_except_comment, blocking.
  intros H. branches; solve_fetch_frame.
Qed.

Lemma crawl_comments_frame no s r s' :
  crawl_comments w cfg no s = (r, s') -> fetch_frame s s'.
Proof.
  unfold crawl_comments, blocking.
  intros H. branches; solve_fetch_frame.
Qed.

Lemma process_article_frame no c s r s' :
  process_article w cfg no c s = (r, s') -> fetch_frame s s'.
Proof.
  unfold process_article, bind at 1.
  destruct (crawl_except_comment w cfg no s) as [[[a|]|e|] s1] eqn:E1;
    intros H; apply crawl_except_comment_frame in E1.
  2-4: by branches.
  destruct c.
  - unfold bind in H.
    destruct (crawl_comments w cfg no s1) as [[[cs|]|e|] s2] eqn:E2;
      apply crawl_comments_frame in E2; unfold ret in H; simplify_eq/=;
      by eapply fetch_frame_trans.
  - unfold ret in H. by simplify_eq/=.
Qed.

(** The record a fetch returns carries the number it was asked for. *)
Lemma crawl_except_comment_gall_no no s a s' :
  crawl_except_comment w cfg no s = (Ok (Some a), s') -> gall_no a = no.
Proof.
  unfold crawl_except_comment, blocking.
  intros H. branches; done.
Qed.

Lemma process_article_gall_no no c s a s' :
  process_article w cfg no c s = (Ok (Some a), s') -> gall_no a = no.
Proof.
  unfold process_article, bind at 1.
  destruct (crawl_except_comment w cfg no s) as [[[a0|]|e|] s1] eqn:E1;
    intros H; try (unfold ret in H; simplify_eq/=; fail).
  apply crawl_except_comment_gall_no in E1.
  destruct c.
  - unfold bind in H.
    destruct (crawl_comments w cfg no s1) as [[[cs|]|e|] s2] eqn:E2;
      unfold ret in H; by simplify_eq/=.
  - unfold ret in H. by simplify_eq/=.
Qed.

(** A fetch raises [KeyboardInterrupt] only out of a blocking call; the
    other exceptions leave through it unchanged.  Without comments,
    [process_article] is [crawl_except_comment] with an empty comment
    list. *)
Lemma process_article_no_comments no s :
  process_article w cfg no false s =
  match crawl_except_comment w cfg no s with
  | (Ok (Some a), s') => (Ok (Some (mk_article_data a [])), s')
  | (Ok None, s') => (Ok None, s')
  | (Raise e, s') => (Raise e, s')
  | (NoFuel, s') => (NoFuel, s')
  end.
Proof.
  unfold process_article, bind.
  by destruct (crawl_except_comment w cfg no s) as [[[a|]|e|] s1].
Qed.

(** The two null outcomes of the comment-less fetch: the request failed,
    or the page has no date element (a deleted post). *)
Lemma process_article_null no s u :
  make_url_for_article (gall_type cfg) (gallery_id cfg) no = Some u ->
  w_signal w (st_clock s) = false ->
  (w_post w (st_clock s) no = PostNetError
   \/ exists p, w_post w (st_clock s) no = PostPage p /\ pg_date p = None) ->
  exists m : bool,
    process_article w cfg no false s =
    (Ok None,
     mk_state (st_gall_no s) (st_batch s) (st_store s)
       (st_trace s ++ [EvGet u; EvLog (if m then Error else Info)
                                  (if m then MsgFetchFailed no
                                   else MsgDeleted no)])
       (S (st_clock s))).
Proof.
  intros Hu Hsig Hnull.
  rewrite process_article_no_comments.
  unfold crawl_except_comment, blocking. unfold_monad.
  rewrite Hu. cbn. rewrite Hsig. cbn.
  destruct Hnull as [-> | (p & -> & Hd)].
  - exists true. cbn. by rewrite <- app_assoc.
  - exists false. rewrite Hd. cbn. by rewrite <- app_assoc.
Qed.

End FetchFacts.

(** ** Inversion of the monad's bind *)

Lemma bind_ok_inv {A B} (m : M A) (k : A -> M B) s b s' :
  bind m k s = (Ok b, s') ->
  exists a s1, m s = (Ok a, s1) /\ k a s1 = (Ok b, s').
Proof.
  unfold bind. destruct (m s) as [[a|e|] s1]; intros H; simplify_eq.
  by exists a, s1.
Qed.

Lemma bind_ok {A B} (m : M A) (k : A -> M B) s a s1 :
  m s = (Ok a, s1) -> bind m k s = k a s1.
Proof. unfold bind. by intros ->. Qed.

Lemma bind_raise {A B} (m : M A) (k : A -> M B) s e s1 :
  m s = (Raise e, s1) -> bind m k s = (Raise e, s1).
Proof. unfold bind. by intros ->. Qed.

Lemma bind_no_fuel {A B} (m : M A) (k : A -> M B) s s1 :
  m s = (NoFuel, s1) -> bind m k s = (NoFuel, s1).
Proof. unfold bind. by intros ->. Qed.

Lemma sleep_spec w s :
  sleep w s
  = (if w_signal w (st_clock s) then Raise KeyboardInterrupt else Ok tt,
     mk_state (st_gall_no s) (st_batch s) (st_store s)
       (st_trace s ++ [EvSleep]) (S (st_clock s))).
Proof.
  unfold sleep, blocking, bind, emit, ret. cbn.
  by destruct (w_signal w (st_clock s)).
Qed.

(** The validity of the gallery type does not depend on the post number. *)
Lemma make_url_for_article_some ty id n m u :
  make_url_for_article ty id n = Some u ->
  exists u', make_url_for_article ty id m = Some u'.
Proof.
  unfold make_url_for_article. intros H.
  repeat case_match; simplify_eq; eauto.
Qed.

(** ** The date-mode loop *)

Section DateLoop.

Variable w : world.
Variable cfg : config.
Variables start_d end_d : datetime.
Variable collected : gset Z.

Lemma date_body_null s s1 :
  process_article w cfg (st_gall_no s) false s = (Ok None, s1) ->
  date_body w cfg start_d end_d collected s = (Ok Next, after_null s s1).
Proof.
  intros H. pose proof (process_article_frame _ _ _ _ _ _ _ H) as [_ Hb Hs _].
  unfold date_body.
  rewrite (bind_ok get _ s s s) by done. cbv beta zeta.
  rewrite (bind_ok _ _ _ _ _ H).
  unfold after_null. rewrite <- Hb, <- Hs. reflexivity.
Qed.

(** The loop body reaches its [break] only from a fetched record whose
    date is strictly before the start of the window. *)
Lemma date_body_break s s' :
  date_body w cfg start_d end_d collected s = (Ok Break, s') ->
  exists a s1 d,
    process_article w cfg (st_gall_no s) false s = (Ok (Some a), s1)
    /\ date a = Some d /\ dt_ltb d start_d = true.
Proof.
  unfold date_body. intros H.
  apply bind_ok_inv in H as (s0 & ? & [= <- <-] & H).
  apply bind_ok_inv in H as ([a|] & s1 & Hf & H).
  2: { apply bind_ok_inv in H as (? & ? & _ & H). by unfold ret in H. }
  apply bind_ok_inv in H as (d & s2 & Hd & H).
  apply bind_ok_inv in H as (c & s3 & Hc & H).
  destruct c.
  { repeat (apply bind_ok_inv in H as (? & ? & _ & H)).
    by unfold ret in H. }
  exists a, s1, d. split; [done|].
  unfold of_option in Hd. destruct (date a) as [d'|] eqn:Ed; [|done].
  unfold ret in Hd. simplify_eq. split; [done|].
  destruct (dt_leb start_d d && dt_leb d end_d).
  { apply bind_ok_inv in Hc as (? & ? & _ & Hc). by unfold ret in Hc. }
  destruct (dt_ltb end_d d).
  { apply bind_ok_inv in Hc as (? & ? & _ & Hc). by unfold ret in Hc. }
  destruct (dt_ltb d start_d); [done|]. by unfold ret in Hc.
Qed.

(** An iteration that goes on leaves the cursor one lower. *)
Lemma date_body_next s s' :
  date_body w cfg start_d end_d collected s = (Ok Next, s') ->
  st_gall_no s' = st_gall_no s - 1.
Proof.
  unfold date_body. intros H.
  apply bind_ok_inv in H as (s0 & ? & [= <- <-] & H).
  apply bind_ok_inv in H as ([a|] & s1 & Hf & H).
  2: { apply bind_ok_inv in H as (? & ? & Hs & H).
       unfold ret in H. unfold set_gall_no in Hs. by simplify_eq. }
  apply bind_ok_inv in H as (d & s2 & Hd & H).
  apply bind_ok_inv in H as (c & s3 & Hc & H).
  destruct c; [|by unfold ret in H].
  apply bind_ok_inv in H as (? & s4 & Hs & H).
  apply bind_ok_inv in H as (? & s5 & Hsl & H).
  unfold ret in H. unfold set_gall_no in Hs. simplify_eq.
  rewrite sleep_spec in Hsl. by simplify_eq.
Qed.

Lemma date_loop_ok_break fuel : forall s s',
  date_loop w cfg fuel start_d end_d collected s = (Ok tt, s') ->
  exists s0 a s1 d,
    st_gall_no s0 <= st_gall_no s
    /\ process_article w cfg (st_gall_no s0) false s0 = (Ok (Some a), s1)
    /\ date a = Some d /\ dt_ltb d start_d = true
    /\ date_body w cfg start_d end_d collected s0 = (Ok Break, s').
Proof.
  induction fuel as [|fuel IH]; intros s s' H; [done|].
  cbn in H. apply bind_ok_inv in H as (c & s1 & Hb & H).
  destruct c.
  - apply IH in H as (s0 & a & s2 & d & Hle & ?).
    apply date_body_next in Hb.
    exists s0, a, s2, d. split; [lia|done].
  - unfold ret in H. simplify_eq.
    destruct (date_body_break _ _ Hb) as (a & s2 & d & ? & ? & ?).
    exists s, a, s2, d. split; [lia|done].
Qed.

Lemma date_loop_all_null fuel : forall s,
  is_Some (make_url_for_article (gall_type cfg) (gallery_id cfg) 1) ->
  (forall t, w_signal w t = false) ->
  (forall t n, n <= st_gall_no s -> null_reply (w_post w t n)) ->
  exists s',
    date_loop w cfg fuel start_d end_d collected s = (NoFuel, s')
    /\ st_gall_no s' = st_gall_no s - Z.of_nat fuel
    /\ st_batch s' = st_batch s /\ st_store s' = st_store s
    /\ Forall (fun e => e <> EvSleep /\ e <> EvQuit)
         (drop (length (st_trace s)) (st_trace s'))
    /\ firstn (length (st_trace s)) (st_trace s') = st_trace s.
Proof.
  induction fuel as [|fuel IH]; intros s [u0 Hu0] Hsig Hnull.
  { exists s. cbn. unfold out_of_fuel.
    rewrite drop_all, firstn_all. repeat split; try done. lia. }
  destruct (make_url_for_article_some _ _ _ (st_gall_no s) _ Hu0) as [u Hu].
  destruct (process_article_null w cfg (st_gall_no s) s u Hu (Hsig _))
    as [m Hp].
  { apply Hnull. lia. }
  pose proof (date_body_null _ _ Hp) as Hb.
  cbn [date_loop]. rewrite (bind_ok _ _ _ _ _ Hb).
  destruct (IH (after_null s
                  (mk_state (st_gall_no s) (st_batch s) (st_store s)
                     (st_trace s ++
                      [EvGet u; EvLog (if m then Error else Info)
                         (if m then MsgFetchFailed (st_gall_no s)
                          else MsgDeleted (st_gall_no s))])
                     (S (st_clock s)))))
    as (s' & Hl & Hg & Hbt & Hst & Htr & Hpre); [by eexists|done|..].
  { intros t n Hn. apply Hnull. cbn in Hn. lia. }
  exists s'. cbn in *. split; [done|]. split; [lia|]. split; [done|].
  split; [done|].
  rewrite length_app in Htr, Hpre. cbn in Htr, Hpre.
  assert (st_trace s' =
          (st_trace s ++
           [EvGet u; EvLog (if m then Error else Info)
              (if m then MsgFetchFailed (st_gall_no s)
               else MsgDeleted (st_gall_no s))])
          ++ drop (length (st_trace s) + 2) (st_trace s')) as Heq.
  { rewrite <- Hpre at 1. by rewrite take_drop. }
  split.
  - rewrite Heq at 1. rewrite <- app_assoc, drop_app_length.
    apply Forall_app. split; [|done].
    repeat constructor; done.
  - rewrite Heq. rewrite <- app_assoc. by rewrite take_app_length.
Qed.

End DateLoop.

(** ** Deleted posts in date mode *)



(** ** Termination of the date-mode loop *)

(** C10. The date-mode loop returns only from an iteration, at the
    starting cursor or below it, that fetched a record whose date is
    strictly before the start date; and when every cursor value
    from the current one downwards yields a null fetch, the loop is still
    running after any number of iterations, with the cursor lowered by
    one per iteration, so that it passes below zero and below every other
    bound, while nothing is batched or stored. *)
Theorem date_loop_has_no_floor
    (w : world) (cfg : config) (start_d end_d : datetime)
    (collected : gset Z) :
  (forall fuel s s',
      date_loop w cfg fuel start_d end_d collected s = (Ok tt, s') ->
      exists s0 a s1 d,
        st_gall_no s0 <= st_gall_no s
        /\ process_article w cfg (st_gall_no s0) false s0 = (Ok (Some a), s1)
        /\ date a = Some d /\ dt_ltb d start_d = true
        /\ date_body w cfg start_d end_d collected s0 = (Ok Break, s'))
  /\ (forall s,
        is_Some (make_url_for_article (gall_type cfg) (gallery_id cfg) 1) ->
        (forall t, w_signal w t = false) ->
        (forall t n, n <= st_gall_no s -> null_reply (w_post w t n)) ->
        (forall fuel, exists s',
            date_loop w cfg fuel start_d end_d collected s = (NoFuel, s')
            /\ st_gall_no s' = st_gall_no s - Z.of_nat fuel
            /\ st_batch s' = st_batch s /\ st_store s' = st_store s)
        /\ (forall bound, exists fuel s',
               date_loop w cfg fuel start_d end_d collected s = (NoFuel, s')
               /\ st_gall_no s' < bound)).
Proof.
  split.
  - intros fuel s s'. apply date_loop_ok_break.
  - intros s Hu Hsig Hnull. split.
    + intros fuel.
      destruct (date_loop_all_null w cfg start_d end_d collected fuel s
                  Hu Hsig Hnull) as (s' & ? & ? & ? & ? & _).
      by exists s'.
    + intros bound.
      destruct (date_loop_all_null w cfg start_d end_d collected
                  (Z.to_nat (st_gall_no s - bound + 1)) s Hu Hsig Hnull)
        as (s' & ? & Hg & _).
      exists (Z.to_nat (st_gall_no s - bound + 1)), s'.
      split; [done|]. lia.
Qed.

Lemma date_loop_has_no_floor_witness :
  exists s',
    date_loop Scenario.empty_board (Scenario.by_date true) 5
      Scenario.may_26 Scenario.jun_06 ∅ (Scenario.at_cursor 3) = (NoFuel, s')
    /\ st_gall_no s' = -2.
Proof.
  destruct (proj2 (date_loop_has_no_floor Scenario.empty_board
                     (Scenario.by_date true) Scenario.may_26 Scenario.jun_06
                     ∅)
              (Scenario.at_cursor 3)) as [H _].
  - by eexists.
  - reflexivity.
  - intros t n _. right. by exists Scenario.page_deleted.
  - destruct (H 5%nat) as (s' & Hl & Hg & _). exists s'. split; [exact Hl|].
    exact Hg.
Defined.

(** ** Flushing the batch *)

Lemma save_articles_spec b : forall s ls,
  st_store s = Some ls ->
  save_articles b s = (save_outcome b, with_store s (ls ++ written_lines b)).
Proof.
  induction b as [|[a|] b IH]; intros s ls Hs; cbn.
  - unfold ret, with_store. rewrite app_nil_r, <- Hs. by destruct s.
  - unfold bind, of_option. destruct (to_stored a) as [sa|]; cbn.
    + unfold with_store.
      rewrite (IH _ (ls ++ [LRecord sa])).
      * unfold with_store. cbn. by rewrite <- app_assoc.
      * cbn. unfold store_lines. by rewrite Hs.
    + unfold with_store. rewrite app_nil_r, <- Hs. by destruct s.
  - unfold raise, with_store. rewrite app_nil_r, <- Hs. by destruct s.
Qed.

Lemma save_data_in_batch_spec b s :
  save_data_in_batch b s
  = (save_outcome b, with_store s (store_lines s ++ written_lines b)).
Proof.
  unfold save_data_in_batch, bind, open_append.
  by rewrite (save_articles_spec b _ (store_lines s)).
Qed.

(** A flush never raises [KeyboardInterrupt] and never runs out of fuel. *)
Lemma save_outcome_cases b :
  save_outcome b = Ok tt \/ save_outcome b = Raise AttributeError
  \/ save_outcome b = Raise (ValueError InvalidLiteral).
Proof.
  induction b as [|[a|] b IH]; cbn; auto.
  destruct (to_stored a); auto.
Qed.

(** When the flush returns, every entry of the batch was written. *)
Lemma save_outcome_ok_written b x :
  save_outcome b = Ok tt -> x ∈ b ->
  exists a sa, x = Some a /\ to_stored a = Some sa
               /\ LRecord sa ∈ written_lines b.
Proof.
  induction b as [|[a|] b IH]; cbn; intros Hok Hx.
  - by apply elem_of_nil in Hx.
  - destruct (to_stored a) as [sa|] eqn:Ea; [|done].
    apply elem_of_cons in Hx as [->|Hx].
    + exists a, sa. repeat split; try done. left.
    + destruct (IH Hok Hx) as (a' & sa' & ? & ? & ?).
      exists a', sa'. repeat split; try done. by right.
  - done.
Qed.

Lemma flush_spec s :
  flush s
  = match save_outcome (st_batch s) with
    | Ok _ =>
        (Ok tt,
         mk_state (st_gall_no s) []
           (Some (store_lines s ++ written_lines (st_batch s)))
           (st_trace s ++ [EvLog Info (MsgSaved (length (st_batch s)))])
           (st_clock s))
    | Raise e =>
        (Raise e, with_store s (store_lines s ++ written_lines (st_batch s)))
    | NoFuel =>
        (NoFuel, with_store s (store_lines s ++ written_lines (st_batch s)))
    end.
Proof.
  unfold flush. rewrite (bind_ok get _ s s s) by done.
  unfold bind at 1. rewrite save_data_in_batch_spec.
  by destruct (save_outcome (st_batch s)).
Qed.

Lemma flush_kept s r s' x :
  flush s = (r, s') -> kept x s -> kept x s'.
Proof.
  rewrite flush_spec.
  intros H [Hx | (a & sa & ? & ? & Hin)].
  - destruct (save_outcome (st_batch s)) as [[]|e|] eqn:Eo; simplify_eq.
    + destruct (save_outcome_ok_written _ _ Eo Hx) as (a & sa & ? & ? & ?).
      right. exists a, sa. repeat split; try done.
      cbn. apply elem_of_app. by right.
    + by left.
    + by left.
  - right. exists a, sa. repeat split; try done.
    destruct (save_outcome (st_batch s)) as [[]|e|]; simplify_eq; cbn;
      apply elem_of_app; by left.
Qed.

Lemma flush_if_full_kept cfg s r s' x :
  flush_if_full cfg s = (r, s') -> kept x s -> kept x s'.
Proof.
  unfold flush_if_full. rewrite (bind_ok get _ s s s) by done.
  destruct (maximum_batch_size cfg <=? Z.of_nat (length (st_batch s))).
  - apply flush_kept.
  - unfold ret. by intros [= <- <-].
Qed.

Lemma flush_if_full_gall_no cfg s r s' :
  flush_if_full cfg s = (r, s') -> st_gall_no s' = st_gall_no s.
Proof.
  unfold flush_if_full. rewrite (bind_ok get _ s s s) by done.
  destruct (maximum_batch_size cfg <=? Z.of_nat (length (st_batch s))).
  - rewrite flush_spec.
    destruct (save_outcome (st_batch s)); by intros [= <- <-].
  - unfold ret. by intros [= <- <-].
Qed.

(** ** The date window *)

(** The window that [check_scrapping_conditions] resolves is never empty. *)
Lemma check_scrapping_conditions_window w cfg s start_d end_d s' :
  check_scrapping_conditions w cfg s = (Ok (ByDate start_d end_d), s') ->
  dt_leb start_d end_d = true.
Proof.
  unfold check_scrapping_conditions, dt_leb. intros H.
  repeat (case_match; try done).
  all: try (apply bind_ok_inv in H as (? & ? & _ & H);
            unfold ret in H; done).
  apply bind_ok_inv in H as (? & ? & _ & H).
  apply bind_ok_inv in H as (? & ? & _ & H).
  apply bind_ok_inv in H as (? & ? & _ & H).
  unfold ret in H. simplify_eq. by apply negb_true_iff.
Qed.

Section DateWindow.

Variable w : world.
Variable cfg : config.
Variables start_d end_d : datetime.
Variable collected : gset Z.

(** The first steps of an iteration that fetched a dated record. *)
Lemma date_body_fetched s a s1 d :
  process_article w cfg (st_gall_no s) false s = (Ok (Some a), s1) ->
  date a = Some d ->
  date_body w cfg start_d end_d collected s
  = bind
      (if dt_leb start_d d && dt_leb d end_d
       then
         (if bool_decide (st_gall_no s ∈ collected)
          then log Info (MsgAlreadyCollected (st_gall_no s))
          else
            log Info (MsgProcessing (st_gall_no s));;
            (if is_crawl_comments cfg
             then
               article_data <- process_article w cfg (st_gall_no s) true;;
               push article_data
             else push (Some a));;
            log Info (MsgCollected (st_gall_no s));;
            flush_if_full cfg);;
         ret Next
       else if dt_ltb end_d d
       then log Info (MsgAfterEndDate (st_gall_no s));; ret Next
       else if dt_ltb d start_d
       then log Error MsgNoArticleBetween;; ret Break
       else ret Next)
      (fun c =>
         match c with
         | Break => ret Break
         | Next => set_gall_no (st_gall_no s - 1);; sleep w;; ret Next
         end) s1.
Proof.
  intros H Hd. unfold date_body.
  rewrite (bind_ok get _ s s s) by done. cbv beta zeta.
  rewrite (bind_ok _ _ _ _ _ H). cbv beta iota.
  rewrite Hd. by rewrite (bind_ok (of_option TypeError (Some d)) _ s1 d s1).
Qed.

Lemma date_body_in_window s a s1 d x s2 r s' :
  process_article w cfg (st_gall_no s) false s = (Ok (Some a), s1) ->
  date a = Some d ->
  dt_leb start_d d = true -> dt_leb d end_d = true ->
  st_gall_no s ∉ collected ->
  (if is_crawl_comments cfg
   then process_article w cfg (st_gall_no s) true
          (logged s1 Info (MsgProcessing (st_gall_no s)))
        = (Ok (Some x), s2)
   else x = a /\ s2 = logged s1 Info (MsgProcessing (st_gall_no s))) ->
  date_body w cfg start_d end_d collected s = (r, s') ->
  r <> Ok Break /\ kept (Some x) s'.
Proof.
  intros H Hd Hlo Hhi Hnc Hx.
  rewrite (date_body_fetched _ _ _ _ H Hd), Hlo, Hhi.
  rewrite bool_decide_eq_false_2 by done. cbn [andb].
  set (g := st_gall_no s) in *.
  (* the state once the record is in the batch *)
  set (s3 := mk_state (st_gall_no s2) (st_batch s2 ++ [Some x]) (st_store s2)
               (st_trace s2 ++ [EvLog Info (MsgCollected g)]) (st_clock s2)).
  assert (Hpush :
    (log Info (MsgProcessing g);;
     (if is_crawl_comments cfg
      then article_data <- process_article w cfg g true;; push article_data
      else push (Some a));;
     log Info (MsgCollected g);; flush_if_full cfg) s1
    = flush_if_full cfg s3).
  { rewrite (bind_ok (log Info (MsgProcessing g)) _ s1 tt
               (logged s1 Info (MsgProcessing g))) by done.
    destruct (is_crawl_comments cfg); cbv iota.
    - rewrite (bind_ok _ _ _ tt
                 (mk_state (st_gall_no s2) (st_batch s2 ++ [Some x])
                    (st_store s2) (st_trace s2) (st_clock s2))); [done|].
      by rewrite (bind_ok _ _ _ _ _ Hx).
    - destruct Hx as [-> ->]. done. }
  assert (Hk : kept (Some x) s3).
  { left. cbn. apply elem_of_app. right. left. }
  destruct (flush_if_full cfg s3) as [[[]|e|] s4] eqn:Ef.
  - pose proof (flush_if_full_kept _ _ _ _ _ Ef Hk) as Hk4.
    unfold bind at 1. unfold bind at 1. rewrite Hpush. cbv beta iota.
    unfold ret at 1. cbv beta iota.
    rewrite (bind_ok (set_gall_no (g - 1)) _ s4 tt
               (mk_state (g - 1) (st_batch s4) (st_store s4) (st_trace s4)
                  (st_clock s4))) by done.
    unfold bind. rewrite sleep_spec. cbn.
    destruct (w_signal w (st_clock s4)); unfold ret; intros [= <- <-];
      (split; [done|]); destruct Hk4 as [?|?]; [by left|by right|by left|by right].
  - pose proof (flush_if_full_kept _ _ _ _ _ Ef Hk) as Hk4.
    unfold bind at 1. unfold bind at 1. rewrite Hpush.
    by intros [= <- <-].
  - pose proof (flush_if_full_kept _ _ _ _ _ Ef Hk) as Hk4.
    unfold bind at 1. unfold bind at 1. rewrite Hpush.
    by intros [= <- <-].
Qed.

(** An in-window post that was collected before is only logged. *)
Lemma date_body_collected s a s1 d :
  process_article w cfg (st_gall_no s) false s = (Ok (Some a), s1) ->
  date a = Some d ->
  dt_leb start_d d = true -> dt_leb d end_d = true ->
  st_gall_no s ∈ collected ->
  date_body w cfg start_d end_d collected s
  = (if w_signal w (st_clock s1) then Raise KeyboardInterrupt else Ok Next,
     mk_state (st_gall_no s - 1) (st_batch s1) (st_store s1)
       (st_trace s1
        ++ [EvLog Info (MsgAlreadyCollected (st_gall_no s)); EvSleep])
       (S (st_clock s1))).
Proof.
  intros H Hd Hlo Hhi Hc.
  rewrite (date_body_fetched _ _ _ _ H Hd), Hlo, Hhi.
  rewrite bool_decide_eq_true_2 by done. cbn [andb].
  unfold bind at 1. unfold bind at 1. cbn.
  unfold bind. rewrite sleep_spec. cbn.
  rewrite <- app_assoc. by destruct (w_signal w (st_clock s1)).
Qed.

End DateWindow.

Section DateWindowEdges.

Variable w : world.
Variable cfg : config.
Variables start_d end_d : datetime.
Variable collected : gset Z.

Lemma date_body_after_end s a s1 d :
  process_article w cfg (st_gall_no s) false s = (Ok (Some a), s1) ->
  date a = Some d ->
  dt_ltb end_d d = true ->
  date_body w cfg start_d end_d collected s
  = (if w_signal w (st_clock s1) then Raise KeyboardInterrupt else Ok Next,
     mk_state (st_gall_no s - 1) (st_batch s1) (st_store s1)
       (st_trace s1 ++ [EvLog Info (MsgAfterEndDate (st_gall_no s)); EvSleep])
       (S (st_clock s1))).
Proof.
  intros H Hd Hafter.
  rewrite (date_body_fetched _ _ _ _ _ _ _ _ _ H Hd).
  unfold dt_leb at 2. rewrite Hafter, andb_false_r. cbn [negb].
  unfold bind at 1. unfold bind at 1. cbn.
  unfold bind. rewrite sleep_spec. cbn.
  rewrite <- app_assoc. by destruct (w_signal w (st_clock s1)).
Qed.

Lemma date_body_before_start s a s1 d :
  dt_leb start_d end_d = true ->
  process_article w cfg (st_gall_no s) false s = (Ok (Some a), s1) ->
  date a = Some d ->
  dt_ltb d start_d = true ->
  date_body w cfg start_d end_d collected s
  = (Ok Break, logged s1 Error MsgNoArticleBetween).
Proof.
  intros Hwin H Hd Hbefore.
  rewrite (date_body_fetched _ _ _ _ _ _ _ _ _ H Hd).
  unfold dt_leb at 1. rewrite Hbefore. cbn [negb andb].
  rewrite (before_start_not_after_end _ _ _ Hbefore Hwin).
  reflexivity.
Qed.

End DateWindowEdges.




(** ** The pair check of the bounds *)

(** The pair check rejects a pair with exactly one bound when that bound
    is truthy. *)
Lemma partial_pair_rejected w cfg s n :
  n <> 0 ->
  (start_gall_no cfg = Some n /\ end_gall_no cfg = None)
  \/ (start_gall_no cfg = None /\ end_gall_no cfg = Some n) ->
  check_scrapping_conditions w cfg s = (Raise (ValueError GallNoTogether), s).
Proof.
  intros Hn H. unfold check_scrapping_conditions.
  destruct H as [[-> ->] | [-> ->]]; cbn;
    by rewrite (proj2 (Z.eqb_neq n 0) Hn).
Qed.

(** C8. The pair check tests truthiness, not presence.  With both id
    bounds set and the first one 0, range resolution fails with the
    "must be provided together" error; with only the bound 0 set, the
    pair check passes and the run fails later for want of any range; an
    empty start date behaves the same way. *)
Theorem zero_bound_fails_pair_check
    (w : world) (s : state) (gid gtype : string) (cc : bool) (mb : Z) :
  check_scrapping_conditions w
    (mk_config gid gtype (Some 0) (Some 5) None None cc mb) s
  = (Raise (ValueError GallNoTogether), s)
  /\ check_scrapping_conditions w
       (mk_config gid gtype (Some 0) None None None cc mb) s
     = (Raise (ValueError NoConditions), s)
  /\ check_scrapping_conditions w
       (mk_config gid gtype None None (Some "") (Some "2025.06.06") cc mb) s
     = (Raise (ValueError DateTogether), s).
Proof. repeat split. Qed.

(** ** Records without a date *)

(** C5. A page whose date text does not parse still yields a record, with
    no date: the fetch returns it, an id-mode run writes it to the store
    with a null date, and a date-mode run dies on the comparison. *)
Theorem unparsable_date_yields_record :
  parse_date "2025-05-26 08:00:00" = ParsedDate None
  /\ (crawl_except_comment Scenario.undated_board
        (Scenario.by_id (Some 1) (Some 1)) 1 (Scenario.at_cursor 1)).1
     = Ok (Some (mk_article_except_comment 1 None "normal" "title" "12"
                   "body" "3" "0"))
  /\ (let out := run Scenario.undated_board
                   (Scenario.by_id (Some 1) (Some 1)) 5 (init_state None) in
      out.1 = Ok tt
      /\ st_store out.2
         = Some [LRecord (mk_stored 1 None "title" 12 "body" 3 0 [])])
  /\ (run Scenario.undated_board (Scenario.by_date false) 5
        (init_state None)).1
     = Raise TypeError.
Proof. repeat split; vm_compute; reflexivity. Qed.

(** ** Fetch failures that end the run *)

(** C1. Two fetch failures on a single post end the run with an
    exception.  In date mode with comments, the re-fetch of post 4 fails
    with a network error and puts [None] into the batch; the final flush
    raises on it and nothing is stored, the record of post 3 included.
    In id mode, the page of post 1 without a title element raises out of
    the loop; post 2 is never requested. *)
Theorem fetch_failure_ends_run :
  (let out := run (Scenario.flaky_board None) (Scenario.by_date true) 10
                (init_state None) in
   out.1 = Raise AttributeError
   /\ st_batch out.2
      = [None;
         Some (mk_article_data (Scenario.fetched 3 Scenario.may_26)
                 [mk_comment "first" ["reply"]])]
   /\ st_store out.2 = Some [])
  /\ (let out := run Scenario.untitled_board
                   (Scenario.by_id (Some 1) (Some 2)) 10
                   (init_state None) in
      out.1 = Raise AttributeError
      /\ st_gall_no out.2 = 1
      /\ st_store out.2 = None
      /\ EvGet (mk_url "mgallery/board" "view" "forthegifted" (Some 2))
         ∉ st_trace out.2).
Proof.
  split.
  - vm_compute. repeat split.
  - repeat split; try (vm_compute; reflexivity).
    apply (bool_decide_unpack _). vm_compute. exact I.
Qed.

(** ** Flushing on interruption *)

(** When every entry of the batch is a record with numeric counters, the
    flush writes all of them, in order, and empties the batch. *)
Lemma flush_writes_all s (records : list ArticleData)
    (stored : list StoredArticle) :
  st_batch s = map Some records ->
  Forall2 (fun a sa => to_stored a = Some sa) records stored ->
  flush s
  = (Ok tt,
     mk_state (st_gall_no s) [] (Some (store_lines s ++ map LRecord stored))
       (st_trace s ++ [EvLog Info (MsgSaved (length records))])
       (st_clock s)).
Proof.
  intros Hb Hall. rewrite flush_spec, Hb.
  assert (save_outcome (map Some records) = Ok tt
          /\ written_lines (map Some records) = map LRecord stored)
    as [-> ->].
  { clear Hb.
    induction Hall as [|a sa records stored Ha Hall IH]; [done|].
    destruct IH as [IH1 IH2]. cbn. rewrite Ha. by rewrite IH1, IH2. }
  by rewrite length_map.
Qed.

(** C4. The interrupt handler flushes the batch, but the flush stops at
    the first entry it cannot serialise.  On the example board in date
    mode with comments, where the re-fetch of post 4 failed, the batch is
    [None; record of post 3] when the signal arrives during the sleep
    after post 3: the handler's flush raises on [None], the record of
    post 3 is never written, and the driver is quit. *)
Theorem interrupt_flush_loses_record :
  let out := run (Scenario.flaky_board (Some 10%nat)) (Scenario.by_date true)
               10 (init_state None) in
  out.1 = Raise AttributeError
  /\ st_batch out.2
     = [None;
        Some (mk_article_data (Scenario.fetched 3 Scenario.may_26)
                [mk_comment "first" ["reply"]])]
  /\ st_store out.2 = Some []
  /\ last (st_trace out.2) = Some EvQuit.
Proof. vm_compute. repeat split. Qed.

(** ** Bound validation and the existence check *)

Lemma http_get_listing_cases w cfg s r s' :
  http_get_listing w cfg s = (r, s') ->
  (make_url_for_article (gall_type cfg) (gallery_id cfg) 1 = None
   /\ r = Raise (ValueError InvalidGalleryType) /\ s' = s)
  \/ exists u,
       make_url_for_article (gall_type cfg) (gallery_id cfg) 1 = Some u
       /\ s' = after_listing_get s u
       /\ (if w_signal w (st_clock s) then r = Raise KeyboardInterrupt
           else match w_listing w (st_clock s) with
                | ListNetError => r = Raise RequestException
                | ListResp status rows => r = Ok (status, rows)
                end).
Proof.
  unfold http_get_listing, blocking. intros H.
  destruct (make_url_for_article (gall_type cfg) (gallery_id cfg) 1)
    as [u|] eqn:Eu.
  - right. exists u. split; [done|]. unfold_monad. cbn in H.
    destruct (w_signal w (st_clock s)) eqn:Esig.
    { cbn in H. inversion H. by split. }
    cbn in H. destruct (w_listing w (st_clock s)); inversion H; by split.
  - left. unfold_monad. cbn in H. inversion H. by repeat split.
Qed.

(** A rejection of the bounds depends on the configuration alone and
    happens before [check_scrapping_conditions] does anything else. *)
Lemma bounds_error_pure w cfg s s' m :
  is_bounds_error m = true ->
  check_scrapping_conditions w cfg s = (Raise (ValueError m), s') ->
  forall w2 s2,
    check_scrapping_conditions w2 cfg s2 = (Raise (ValueError m), s2).
Proof.
  intros Hm H w2 s2. unfold check_scrapping_conditions in *.
  repeat (case_match; try (unfold raise in *; by simplify_eq)).
  exfalso. unfold bind at 1 in H.
  destruct (http_get_listing w cfg s) as [r1 st1] eqn:E.
  apply http_get_listing_cases in E as [(_ & -> & ->) | (u & _ & -> & E)].
  { by simplify_eq. }
  destruct (w_signal w (st_clock s)); [by simplify_eq|].
  destruct (w_listing w (st_clock s)); [by simplify_eq|].
  subst r1. unfold bind at 1 in H. unfold of_option in H.
  destruct (select_recent_gall_no (snd (status, rows)));
    cbn in H; inversion H; by subst.
Qed.

(** What a run does when validation rejects the bounds. *)
Lemma run_with_rejected_bounds
    (w : world) (cfg : config) (fuel : nat) (file : option (list line))
    (m : vmsg) (s0 s0' : state) :
  is_bounds_error m = true ->
  check_scrapping_conditions w cfg s0 = (Raise (ValueError m), s0') ->
  forall r s',
    run w cfg fuel (init_state file) = (r, s') ->
    st_batch s' = [] /\ st_store s' = file
    /\ (r = Raise (ValueError m) ->
        exists u,
          make_url_for_article (gall_type cfg) (gallery_id cfg) 1 = Some u
          /\ st_trace s' = [EvGet (listing_url u)])
    /\ (st_trace s' = []
        \/ exists u, st_trace s' = [EvGet (listing_url u)])
    /\ (forall u status rows,
          make_url_for_article (gall_type cfg) (gallery_id cfg) 1 = Some u ->
          w_signal w 0 = false ->
          w_listing w 0 = ListResp status rows -> status <> 404 ->
          r = Raise (ValueError m))
    /\ exists e, r = Raise e.
Proof.
  intros Hm Hb r s' Hrun.
  pose proof (bounds_error_pure _ _ _ _ _ Hm Hb) as Hpure.
  assert (Hne : forall m', is_bounds_error m' = false ->
                           Raise (A:=unit) (ValueError m') <> Raise (ValueError m)).
  { intros m' Hm' [= ->]. congruence. }
  unfold run, check_gallery_conditions in Hrun.
  unfold bind at 1 in Hrun. unfold bind at 1 in Hrun.
  destruct (http_get_listing w cfg (init_state file)) as [r1 st1] eqn:E.
  apply http_get_listing_cases in E as [(Hu & -> & ->) | (u & Hu & -> & E)].
  { inversion Hrun; subst.
    split; [done|]. split; [done|]. split; [|split; [|split; [|by eexists]]].
    - intros Hr. by apply Hne in Hr.
    - by left.
    - intros u status rows Hu'. congruence. }
  cbn [init_state st_clock] in E.
  destruct (w_signal w 0) eqn:Esig.
  { subst r1. inversion Hrun; subst.
    split; [done|]. split; [done|]. split; [|split; [|split; [|by eexists]]]; try done.
    right. by exists u. }
  destruct (w_listing w 0) as [|status rows] eqn:El.
  { subst r1. inversion Hrun; subst.
    split; [done|]. split; [done|]. split; [|split; [|split; [|by eexists]]]; try done.
    right. by exists u. }
  subst r1. cbn [fst] in Hrun.
  destruct (status =? 404) eqn:E404.
  { cbn in Hrun. inversion Hrun; subst.
    split; [done|]. split; [done|]. split; [|split; [|split; [|by eexists]]].
    - intros Hr. by apply Hne in Hr.
    - right. by exists u.
    - intros u' status' rows' _ _ [= -> ->] Hs.
      apply Z.eqb_eq in E404. done. }
  unfold ret at 1 in Hrun. unfold bind at 1 in Hrun.
  rewrite Hpure in Hrun. inversion Hrun; subst.
  split; [done|]. split; [done|]. split; [|split; [|split; [|by eexists]]]; try done.
  - intros _. by exists u.
  - right. by exists u.
Qed.




(** ** Releasing the driver *)

Lemma load_collected_gall_no_ok s :
  exists c l,
    load_collected_gall_no s
    = (Ok c, mk_state (st_gall_no s) (st_batch s) (st_store s)
               (st_trace s ++ l) (st_clock s)).
Proof.
  unfold load_collected_gall_no.
  rewrite (bind_ok get _ s s s) by done.
  destruct (st_store s) as [ls|] eqn:Es.
  - destruct (load_lines ls ∅) as [c|].
    + exists c, []. unfold ret. rewrite app_nil_r, <- Es. by destruct s.
    + exists ∅, [EvLog Warning MsgLoadFailed]. by rewrite <- Es.
  - exists ∅, [EvLog Warning MsgLoadFailed]. by rewrite <- Es.
Qed.

(** Once validation has passed, every way out of [run] goes through
    [driver.quit()]. *)
Lemma run_quits_once_traversing w cfg fuel s mode s1 r s' :
  (check_gallery_conditions w cfg;; check_scrapping_conditions w cfg) s
  = (Ok mode, s1) ->
  run w cfg fuel s = (r, s') ->
  r <> NoFuel ->
  last (st_trace s') = Some EvQuit.
Proof.
  intros Hv Hrun Hr.
  apply bind_ok_inv in Hv as ([] & sa & Hg & Hc).
  unfold run in Hrun.
  rewrite (bind_ok _ _ _ _ _ Hg), (bind_ok _ _ _ _ _ Hc) in Hrun.
  destruct (load_collected_gall_no_ok s1) as (c & l & Hl).
  rewrite (bind_ok _ _ _ _ _ Hl) in Hrun.
  match type of Hrun with
  | bind _ _ ?st = _ =>
      rewrite (bind_ok (log Info MsgInitialized) _ st tt
                 (logged st Info MsgInitialized)) in Hrun by done
  end.
  destruct (bool_decide (start_gall_no cfg ≠ None)).
  all: match type of Hrun with
       | bind (log ?l ?m) _ ?st = _ =>
           rewrite (bind_ok (log l m) _ st tt (logged st l m)) in Hrun by done
       end.
  all: match type of Hrun with
       | bind (set_batch []) _ ?st = _ =>
           rewrite (bind_ok (set_batch []) _ st tt
                      (mk_state (st_gall_no st) [] (st_store st) (st_trace st)
                         (st_clock st))) in Hrun by done
       end.
  all: unfold try_finally, driver_quit, emit in Hrun.
  all: match type of Hrun with
       | context [try_except_interrupt ?m ?h ?st] =>
           destruct (try_except_interrupt m h st) as [[[]|e|] sb]
       end; inversion Hrun; subst; try done; cbn; by rewrite last_snoc.
Qed.

(** C2. The two checks run before the [try] whose [finally] quits the
    driver.  With only [start_gall_no] set, whatever the remote side
    does, the run ends in an exception and the driver is never quit; the
    same happens, with valid bounds, when the gallery does not exist. *)
Theorem validation_error_leaves_driver_open
    (w : world) (fuel : nat) (file : option (list line)) :
  (let out := run w (Scenario.by_id (Some 5) None) fuel (init_state file) in
   (exists e, out.1 = Raise e) /\ EvQuit ∉ st_trace out.2)
  /\ (let out := run Scenario.missing_board
                   (Scenario.by_id (Some 1) (Some 5)) fuel
                   (init_state file) in
      out.1 = Raise (ValueError GalleryDoesNotExist)
      /\ EvQuit ∉ st_trace out.2).
Proof.
  split.
  - cbn zeta.
    destruct (run w (Scenario.by_id (Some 5) None) fuel (init_state file))
      as [r s'] eqn:E.
    destruct (run_with_rejected_bounds w (Scenario.by_id (Some 5) None) fuel
                file GallNoTogether (init_state None) (init_state None)
                eq_refl eq_refl r s' E)
      as (_ & _ & _ & Ht & _ & He).
    split; [done|]. cbn.
    destruct Ht as [-> | [u ->]].
    + apply not_elem_of_nil.
    + intros Hin. apply list_elem_of_singleton in Hin. done.
  - cbn. split; [done|].
    intros Hin. apply list_elem_of_singleton in Hin. done.
Qed.

(** ** Reading and extending the store *)

Lemma line_ids_app a b : line_ids (a ++ b) = line_ids a ++ line_ids b.
Proof. apply omap_app. Qed.

Lemma to_stored_gall_no a sa : to_stored a = Some sa -> s_gall_no sa = gall_no a.
Proof.
  unfold to_stored. intros H.
  destruct (PyStr.py_int (view_count a)); [|done].
  destruct (PyStr.py_int (recommend_count a)); [|done].
  destruct (PyStr.py_int (nonrecommend_count a)); [|done].
  cbn in H. by simplify_eq.
Qed.

(** What the loader returns on a store without unusable lines. *)
Lemma load_lines_elements ls : forall acc,
  LUnusable ∉ ls ->
  exists c, load_lines ls acc = Some c
            /\ forall g, g ∈ c <-> g ∈ acc \/ g ∈ line_ids ls.
Proof.
  induction ls as [|[a| |] ls IH]; intros acc Hok.
  - exists acc. split; [done|]. intros g. cbn.
    rewrite elem_of_nil. tauto.
  - destruct (IH ({[ s_gall_no a ]} ∪ acc)) as (c & Hc & Hel).
    { intros Hin. apply Hok. by right. }
    exists c. split; [done|]. intros g. rewrite Hel. cbn.
    rewrite elem_of_union, elem_of_singleton, elem_of_cons. tauto.
  - destruct (IH acc) as (c & Hc & Hel).
    { intros Hin. apply Hok. by right. }
    exists c. split; [done|]. intros g. rewrite Hel. cbn. tauto.
  - exfalso. apply Hok. left.
Qed.

(** A flush of a batch of records writes the records of a prefix of it,
    all of it when it returns. *)
Lemma written_lines_prefix (B : list ArticleData) :
  exists B1 B2,
    B = B1 ++ B2
    /\ line_ids (written_lines (map Some B)) = map (fun a : ArticleData => gall_no a) B1
    /\ (LUnusable ∉ written_lines (map Some B))
    /\ (save_outcome (map Some B) = Ok tt -> B2 = []).
Proof.
  induction B as [|a B (B1 & B2 & HB & Hids & Hun & Hok)]; cbn.
  - exists [], []. repeat split; try done. apply not_elem_of_nil.
  - destruct (to_stored a) as [sa|] eqn:Ea.
    + exists (a :: B1), B2. cbn. rewrite HB at 1.
      split; [done|]. split.
      { unfold line_ids in *. cbn. rewrite Hids.
        by rewrite (to_stored_gall_no _ _ Ea). }
      split; [|done].
      intros Hin. apply elem_of_cons in Hin as [?|?]; [done|by apply Hun].
    + exists [], (a :: B). repeat split; try done. apply not_elem_of_nil.
Qed.

Lemma load_collected_gall_no_spec s :
  LUnusable ∉ store_lines s ->
  exists c l,
    load_collected_gall_no s
    = (Ok c, mk_state (st_gall_no s) (st_batch s) (st_store s)
               (st_trace s ++ l) (st_clock s))
    /\ forall g, g ∈ c <-> g ∈ line_ids (store_lines s).
Proof.
  intros Hok. unfold load_collected_gall_no, store_lines in *.
  rewrite (bind_ok get _ s s s) by done.
  destruct (st_store s) as [ls|] eqn:Es; cbn in *.
  - destruct (load_lines_elements ls ∅ Hok) as (c & -> & Hc).
    exists c, []. split.
    + unfold ret. rewrite app_nil_r, <- Es. by destruct s.
    + intros g. rewrite Hc, elem_of_empty. tauto.
  - exists ∅, [EvLog Warning MsgLoadFailed]. split; [by rewrite <- Es|].
    intros g. by rewrite elem_of_empty, elem_of_nil.
Qed.

(** ** Id mode never writes a post number twice *)

Section IdModeStore.

Variable w : world.
Variable cfg : config.

(** The lines of the store when the run started, and the set the loader
    built from them. *)
Variable S0 : list line.
Variable collected : gset Z.
Hypothesis collected_spec : forall g, g ∈ collected <-> g ∈ line_ids S0.

Lemma inv_at_store k s : inv_at S0 k s -> inv_store S0 s.
Proof.
  intros (W & B & Hs & Hun & _ & Hnd & _). exists W.
  repeat split; try done.
  rewrite app_assoc in Hnd. by apply NoDup_app in Hnd as [? _].
Qed.

Lemma post_store {A} (r : result A) s : post S0 r s -> inv_store S0 s.
Proof.
  destruct r as [a|[]|]; cbn; try done; apply inv_at_store.
Qed.

Lemma inv_at_mono k k' s : k <= k' -> inv_at S0 k s -> inv_at S0 k' s.
Proof.
  intros Hk (W & B & ? & ? & ? & ? & Hlt). exists W, B.
  repeat split; try done.
  eapply Forall_impl; [exact Hlt|]. cbn. lia.
Qed.

Lemma inv_at_same k s s' :
  store_lines s' = store_lines s -> st_batch s' = st_batch s ->
  inv_at S0 k s -> inv_at S0 k s'.
Proof.
  intros Hs Hb (W & B & ? & ? & ? & ? & ?). exists W, B.
  rewrite Hs, Hb. by repeat split.
Qed.

Lemma inv_at_fetch k s s' : fetch_frame s s' -> inv_at S0 k s -> inv_at S0 k s'.
Proof.
  intros [_ Hb Hs _]. apply inv_at_same; [|done].
  unfold store_lines. by rewrite Hs.
Qed.

(** Appending the record of the cursor, which was not collected. *)
Lemma inv_at_push g s (a : ArticleData) :
  gall_no a = g -> g ∉ collected -> inv_at S0 g s ->
  inv_at S0 (g + 1)
    (mk_state (st_gall_no s) (st_batch s ++ [Some a]) (st_store s)
       (st_trace s) (st_clock s)).
Proof.
  intros Ha Hnc (W & B & Hs & Hun & Hb & Hnd & Hlt).
  exists W, (B ++ [a]). cbn.
  split; [done|]. split; [done|]. split.
  { by rewrite Hb, map_app. }
  rewrite map_app. cbn. rewrite Ha. split.
  - rewrite !app_assoc. apply NoDup_app. split; [by rewrite <- app_assoc|].
    split; [|apply NoDup_singleton].
    intros i Hi Hg. apply list_elem_of_singleton in Hg as ->.
    rewrite <- app_assoc in Hi. apply elem_of_app in Hi as [Hi|Hi].
    + by apply Hnc, collected_spec.
    + rewrite Forall_forall in Hlt. apply Hlt in Hi. lia.
  - rewrite app_assoc. apply Forall_app. split.
    + eapply Forall_impl; [exact Hlt|]. cbn. lia.
    + repeat constructor. lia.
Qed.

Lemma flush_post k s r s' :
  inv_at S0 k s -> flush s = (r, s') ->
  st_gall_no s' = st_gall_no s
  /\ match r with
     | Ok _ => inv_at S0 k s'
     | Raise e => e <> KeyboardInterrupt /\ inv_store S0 s'
     | NoFuel => False
     end.
Proof.
  intros (W & B & Hs & Hun & Hb & Hnd & Hlt). rewrite flush_spec, Hb.
  destruct (written_lines_prefix B) as (B1 & B2 & HB & Hids & Hwun & Hall).
  assert (Hun' : LUnusable ∉ W ++ written_lines (map Some B)).
  { intros Hin. apply elem_of_app in Hin as [?|?]; [by apply Hun|by apply Hwun]. }
  destruct (save_outcome (map Some B)) as [[]|e|] eqn:Eo; intros [= <- <-].
  - split; [done|]. exists (W ++ written_lines (map Some B)), []. cbn.
    rewrite Hs, <- app_assoc. split; [done|]. split; [done|]. split; [done|].
    rewrite (Hall eq_refl), app_nil_r in HB. subst B1.
    rewrite line_ids_app, Hids, !app_nil_r. by split.
  - split; [done|]. split.
    { destruct (save_outcome_cases (map Some B)) as [?|[?|?]]; congruence. }
    exists (W ++ written_lines (map Some B)). cbn.
    rewrite Hs, <- app_assoc. split; [done|]. split; [done|].
    rewrite line_ids_app, Hids. rewrite HB, map_app in Hnd.
    rewrite !app_assoc in Hnd. apply NoDup_app in Hnd as [Hnd _].
    by rewrite <- app_assoc in Hnd.
  - destruct (save_outcome_cases (map Some B)) as [?|[?|?]]; congruence.
Qed.

Lemma flush_if_full_post k s r s' :
  inv_at S0 k s -> flush_if_full cfg s = (r, s') ->
  st_gall_no s' = st_gall_no s
  /\ match r with
     | Ok _ => inv_at S0 k s'
     | Raise e => e <> KeyboardInterrupt /\ inv_store S0 s'
     | NoFuel => False
     end.
Proof.
  intros Hinv. unfold flush_if_full. rewrite (bind_ok get _ s s s) by done.
  destruct (maximum_batch_size cfg <=? Z.of_nat (length (st_batch s))).
  - by apply flush_post.
  - unfold ret. by intros [= <- <-].
Qed.

(** The end of an iteration: threshold flush, cursor up, sleep. *)
Lemma id_body_tail g s r s' :
  inv_at S0 (g + 1) s ->
  (flush_if_full cfg;; set_gall_no (g + 1);; sleep w) s = (r, s') ->
  post S0 r s' /\ (r = Ok tt -> st_gall_no s' = g + 1).
Proof.
  intros Hinv. unfold bind at 1.
  destruct (flush_if_full cfg s) as [[[]|e|] s1] eqn:Ef;
    destruct (flush_if_full_post _ _ _ _ Hinv Ef) as [Hg Hp].
  - rewrite (bind_ok (set_gall_no (g + 1)) _ s1 tt
               (mk_state (g + 1) (st_batch s1) (st_store s1) (st_trace s1)
                  (st_clock s1))) by done.
    rewrite sleep_spec. cbn.
    assert (inv S0 (mk_state (g + 1) (st_batch s1) (st_store s1)
                   (st_trace s1 ++ [EvSleep]) (S (st_clock s1)))) as Hi.
    { unfold inv. cbn. by eapply inv_at_same; [| |exact Hp]. }
    destruct (w_signal w (st_clock s1)); intros [= <- <-]; by split.
  - intros [= <- <-]. destruct Hp as [Hne Hp]. split; [|done].
    by destruct e.
  - done.
Qed.

Lemma id_body_post s r s' :
  inv S0 s -> id_body w cfg collected s = (r, s') ->
  post S0 r s' /\ (r = Ok tt -> st_gall_no s' = st_gall_no s + 1).
Proof.
  intros Hinv. unfold id_body. rewrite (bind_ok get _ s s s) by done.
  cbv zeta. set (g := st_gall_no s) in *.
  destruct (bool_decide (g ∈ collected)) eqn:Ec.
  { cbn. intros [= <- <-]. split; [|done]. unfold inv. cbn.
    apply (inv_at_mono g); [cbn; lia|].
    eapply inv_at_same; [| |exact Hinv]; done. }
  apply bool_decide_eq_false in Ec.
  rewrite (bind_ok (log Info (MsgProcessing g)) _ s tt
             (logged s Info (MsgProcessing g))) by done.
  assert (Hl : inv_at S0 g (logged s Info (MsgProcessing g))).
  { by eapply inv_at_same; [| |exact Hinv]. }
  unfold bind at 1.
  destruct (process_article w cfg g (is_crawl_comments cfg)
              (logged s Info (MsgProcessing g))) as [[[a|]|e|] s1] eqn:Ef;
    pose proof (process_article_frame _ _ _ _ _ _ _ Ef) as Hfr;
    pose proof (inv_at_fetch _ _ _ Hfr Hl) as H1.
  - apply process_article_gall_no in Ef.
    rewrite (bind_ok _ _ s1 tt
               (mk_state (st_gall_no s1) (st_batch s1 ++ [Some a])
                  (st_store s1)
                  (st_trace s1 ++ [EvLog Info (MsgCollected g)])
                  (st_clock s1))) by done.
    apply id_body_tail.
    eapply inv_at_same; [| |exact (inv_at_push _ _ _ Ef Ec H1)]; done.
  - rewrite (bind_ok (ret tt) _ s1 tt s1) by done.
    apply id_body_tail. apply (inv_at_mono g); [cbn; lia|exact H1].
  - intros [= <- <-]. split; [|done].
    destruct Hfr as [Hg _ _ _].
    destruct e; cbn; try (by eapply inv_at_store).
    unfold inv. by rewrite Hg.
  - intros [= <- <-]. split; [|done].
    destruct Hfr as [Hg _ _ _]. cbn. unfold inv. by rewrite Hg.
Qed.

Lemma id_loop_post fuel end_no : forall s r s',
  inv S0 s -> id_loop w cfg fuel end_no collected s = (r, s') -> post S0 r s'.
Proof.
  induction fuel as [|fuel IH]; intros s r s' Hinv; cbn [id_loop];
    rewrite (bind_ok get _ s s s) by done;
    destruct (st_gall_no s <=? end_no).
  - unfold out_of_fuel. by intros [= <- <-].
  - unfold ret. by intros [= <- <-].
  - unfold bind at 1.
    destruct (id_body w cfg collected s) as [[[]|e|] s1] eqn:Eb;
      destruct (id_body_post _ _ _ Hinv Eb) as [Hp _].
    + by apply IH.
    + by intros [= <- <-].
    + by intros [= <- <-].
  - unfold ret. by intros [= <- <-].
Qed.

(** The [try] block in id mode, with its handler. *)
Lemma traverse_by_gall_no_store fuel end_no s r s' :
  inv S0 s ->
  try_except_interrupt (traverse w cfg fuel (ByGallNo end_no) collected)
    flush s = (r, s') ->
  inv_store S0 s'.
Proof.
  intros Hinv. unfold try_except_interrupt, traverse.
  rewrite (bind_ok (log Info MsgCrawlByGallNo) _ s tt
             (logged s Info MsgCrawlByGallNo)) by done.
  assert (Hl : inv S0 (logged s Info MsgCrawlByGallNo)).
  { unfold inv. by eapply inv_at_same; [| |exact Hinv]. }
  unfold bind at 1.
  destruct (id_loop w cfg fuel end_no collected
              (logged s Info MsgCrawlByGallNo)) as [[[]|e|] s1] eqn:El;
    pose proof (id_loop_post _ _ _ _ _ Hl El) as Hp.
  - destruct (flush s1) as [[[]|e|] s2] eqn:Ef;
      destruct (flush_post _ _ _ _ Hp Ef) as [_ Hq].
    + intros [= <- <-]. by eapply inv_at_store.
    + destruct Hq as [Hne Hq]. destruct e; try done; by intros [= <- <-].
    + done.
  - destruct e; try (intros [= <- <-]; exact Hp).
    cbn in Hp. intros Hf.
    destruct r as [[]|e|]; destruct (flush_post _ _ _ _ Hp Hf) as [_ Hq].
    + by eapply inv_at_store.
    + by destruct Hq.
    + done.
  - intros [= <- <-]. by eapply inv_at_store.
Qed.

End IdModeStore.

(** Validation touches neither the batch nor the store. *)
Lemma http_get_listing_data w cfg s r s' :
  http_get_listing w cfg s = (r, s') ->
  st_batch s' = st_batch s /\ st_store s' = st_store s.
Proof.
  intros H.
  by apply http_get_listing_cases in H as [(_ & _ & ->) | (u & _ & -> & _)].
Qed.

Lemma check_gallery_conditions_data w cfg s r s' :
  check_gallery_conditions w cfg s = (r, s') ->
  st_batch s' = st_batch s /\ st_store s' = st_store s.
Proof.
  unfold check_gallery_conditions, bind.
  destruct (http_get_listing w cfg s) as [[[status rows]|e|] s1] eqn:E;
    apply http_get_listing_data in E; cbn.
  - destruct (status =? 404); by intros [= <- <-].
  - by intros [= <- <-].
  - by intros [= <- <-].
Qed.

Lemma check_scrapping_conditions_data w cfg s r s' :
  check_scrapping_conditions w cfg s = (r, s') ->
  st_batch s' = st_batch s /\ st_store s' = st_store s
  /\ forall start_d end_d,
       r = Ok (ByDate start_d end_d) -> has_date_range cfg = true.
Proof.
  unfold check_scrapping_conditions.
  repeat (case_match; try (unfold raise; intros [= <- <-]; by repeat split)).
  assert (Ed : has_date_range cfg = true).
  { destruct (has_gall_no_range cfg), (has_date_range cfg);
      by simplify_eq/=. }
  unfold bind at 1.
  destruct (http_get_listing w cfg s) as [[[status rows]|e|] st1] eqn:E;
    apply http_get_listing_data in E as [Hb Hs];
    try (intros [= <- <-]; by repeat split).
  cbn [snd]. unfold of_option, bind.
  destruct (select_recent_gall_no rows); cbn; intros [= <- <-];
    by repeat split.
Qed.

(** An id-mode run only appends to the store, and what it appends keeps
    the store free of repeated post numbers. *)
Lemma run_id_mode_store w cfg fuel file r s' :
  has_date_range cfg = false ->
  store_ok (default [] file) ->
  run w cfg fuel (init_state file) = (r, s') ->
  exists added,
    store_lines s' = default [] file ++ added
    /\ store_ok (store_lines s').
Proof.
  intros Hmode [Hun Hnd] Hrun.
  set (S0 := default [] file) in *.
  assert (Hstore : forall s, inv_store S0 s ->
            exists added, store_lines s = S0 ++ added
                          /\ store_ok (store_lines s)).
  { intros s (W & Hs & HW & HndW). exists W. split; [done|].
    rewrite Hs. split.
    - intros Hin. apply elem_of_app in Hin as [?|?]; [by apply Hun|by apply HW].
    - by rewrite line_ids_app. }
  assert (Hsame : forall s, st_store s = file -> inv_store S0 s).
  { intros s Hs. exists []. unfold store_lines. rewrite Hs, !app_nil_r.
    repeat split; try done. apply not_elem_of_nil. }
  unfold run in Hrun. unfold bind at 1 in Hrun.
  destruct (check_gallery_conditions w cfg (init_state file))
    as [[[]|e|] s1] eqn:Eg;
    apply check_gallery_conditions_data in Eg as [Hb1 Hs1];
    cbn [init_state st_store st_batch] in Hb1, Hs1.
  2,3: inversion Hrun; subst; by apply Hstore, Hsame.
  unfold bind at 1 in Hrun.
  destruct (check_scrapping_conditions w cfg s1) as [[mode|e|] s2] eqn:Ec;
    apply check_scrapping_conditions_data in Ec as (Hb2 & Hs2 & Hd).
  2,3: inversion Hrun; subst; apply Hstore, Hsame; congruence.
  destruct mode as [end_no|sd ed].
  2: { specialize (Hd sd ed eq_refl). congruence. }
  assert (Hst2 : store_lines s2 = S0).
  { unfold store_lines, S0. by rewrite Hs2, Hs1. }
  destruct (load_collected_gall_no_spec s2) as (c & l & Hl & Hc).
  { by rewrite Hst2. }
  rewrite (bind_ok _ _ _ _ _ Hl) in Hrun.
  rewrite Hst2 in Hc.
  match type of Hrun with
  | bind _ _ ?st = _ =>
      rewrite (bind_ok (log Info MsgInitialized) _ st tt
                 (logged st Info MsgInitialized)) in Hrun by done
  end.
  assert (Hfinal : forall s5,
            st_batch s5 = [] -> st_store s5 = st_store s2 ->
            try_finally
              (try_except_interrupt
                 (traverse w cfg fuel (ByGallNo end_no) c) flush)
              driver_quit s5 = (r, s') ->
            inv_store S0 s').
  { intros s5 Hb5 Hs5 Ht. unfold try_finally in Ht.
    destruct (try_except_interrupt
                (traverse w cfg fuel (ByGallNo end_no) c) flush s5)
      as [ri si] eqn:Et.
    assert (inv_store S0 si) as (W & HsW & HW & HndW).
    { eapply (traverse_by_gall_no_store w cfg S0 c Hc); [|exact Et].
      exists [], []. cbn [line_ids omap map]. rewrite !app_nil_r.
      split; [|split; [apply not_elem_of_nil|split; [done|split; [done|]]]].
      - unfold store_lines. rewrite Hs5. exact Hst2.
      - constructor. }
    exists W.
    destruct ri as [[]|e|]; unfold driver_quit, emit in Ht;
      inversion Ht; subst; by repeat split. }
  destruct (bool_decide (start_gall_no cfg ≠ None)).
  all: match type of Hrun with
       | bind (log ?lv ?m) _ ?st = _ =>
           rewrite (bind_ok (log lv m) _ st tt (logged st lv m)) in Hrun
             by done
       end.
  all: match type of Hrun with
       | bind (set_batch []) _ ?st = _ =>
           rewrite (bind_ok (set_batch []) _ st tt
                      (mk_state (st_gall_no st) [] (st_store st) (st_trace st)
                         (st_clock st))) in Hrun by done
       end.
  all: apply Hstore; eapply Hfinal; [| |exact Hrun]; reflexivity.
Qed.



(** On the example board the first run stores posts 1 to 5 and the second
    run, which finds them all collected, stores nothing more. *)
Example second_run_adds_nothing :
  let out1 := run Scenario.board (Scenario.by_id (Some 1) (Some 5)) 10
                (init_state None) in
  let out2 := run Scenario.board (Scenario.by_id (Some 1) (Some 5)) 10
                (init_state (st_store out1.2)) in
  out1.1 = Ok tt /\ out2.1 = Ok tt
  /\ line_ids (store_lines out1.2) = [1; 2; 3; 4; 5]
  /\ store_lines out2.2 = store_lines out1.2.
Proof. vm_compute. repeat split. Qed.

(** ** Termination of the id-mode loop *)

Section IdLoopTermination.

Variable w : world.
Variable cfg : config.
Variable collected : gset Z.

Lemma process_article_fuel no c s :
  (process_article w cfg no c s).1 <> NoFuel.
Proof.
  unfold process_article, crawl_except_comment, crawl_comments, blocking.
  branches; done.
Qed.

Lemma flush_if_full_fuel s : (flush_if_full cfg s).1 <> NoFuel.
Proof.
  unfold flush_if_full. rewrite (bind_ok get _ s s s) by done.
  destruct (maximum_batch_size cfg <=? Z.of_nat (length (st_batch s)));
    [|done].
  rewrite flush_spec.
  destruct (save_outcome_cases (st_batch s)) as [-> | [-> | ->]]; done.
Qed.

(** An iteration never runs out of fuel, and when it returns the cursor
    is one higher. *)
Lemma id_body_cursor s r s' :
  id_body w cfg collected s = (r, s') ->
  r <> NoFuel /\ (r = Ok tt -> st_gall_no s' = st_gall_no s + 1).
Proof.
  unfold id_body. rewrite (bind_ok get _ s s s) by done. cbv zeta.
  destruct (bool_decide (st_gall_no s ∈ collected)).
  { cbn. by intros [= <- <-]. }
  rewrite (bind_ok (log Info (MsgProcessing (st_gall_no s))) _ s tt
             (logged s Info (MsgProcessing (st_gall_no s)))) by done.
  unfold bind at 1.
  pose proof (process_article_fuel (st_gall_no s) (is_crawl_comments cfg)
                (logged s Info (MsgProcessing (st_gall_no s)))) as Hpf.
  destruct (process_article w cfg (st_gall_no s) (is_crawl_comments cfg)
              (logged s Info (MsgProcessing (st_gall_no s))))
    as [[a|e|] s1]; [|by intros [= <- <-]|done].
  assert (Htail : forall s2,
            (flush_if_full cfg;; set_gall_no (st_gall_no s + 1);; sleep w) s2
            = (r, s') ->
            r <> NoFuel /\ (r = Ok tt -> st_gall_no s' = st_gall_no s + 1)).
  { intros s2. unfold bind at 1.
    pose proof (flush_if_full_fuel s2) as Hff.
    destruct (flush_if_full cfg s2) as [[[]|e|] s3];
      [|by intros [= <- <-]|done].
    rewrite (bind_ok (set_gall_no (st_gall_no s + 1)) _ s3 tt
               (mk_state (st_gall_no s + 1) (st_batch s3) (st_store s3)
                  (st_trace s3) (st_clock s3))) by done.
    rewrite sleep_spec.
    destruct (w_signal w _); by intros [= <- <-]. }
  destruct a as [a|].
  - rewrite (bind_ok _ _ s1 tt
               (mk_state (st_gall_no s1) (st_batch s1 ++ [Some a])
                  (st_store s1)
                  (st_trace s1 ++ [EvLog Info (MsgCollected (st_gall_no s))])
                  (st_clock s1))) by done.
    apply Htail.
  - rewrite (bind_ok (ret tt) _ s1 tt s1) by done. apply Htail.
Qed.

(** With one unit of fuel per post number left in the range, the loop
    ends: it returns or it raises. *)
Lemma id_loop_terminates end_no fuel : forall s,
  (Z.to_nat (end_no - st_gall_no s + 1) <= fuel)%nat ->
  (id_loop w cfg fuel end_no collected s).1 <> NoFuel.
Proof.
  induction fuel as [|fuel IH]; intros s Hfuel; cbn [id_loop];
    rewrite (bind_ok get _ s s s) by done;
    destruct (st_gall_no s <=? end_no) eqn:Ele; try done.
  - apply Z.leb_le in Ele. lia.
  - apply Z.leb_le in Ele. unfold bind.
    destruct (id_body w cfg collected s) as [[[]|e|] s1] eqn:Eb;
      destruct (id_body_cursor _ _ _ Eb) as [Hnf Hg]; try done.
    apply IH. rewrite (Hg eq_refl). lia.
Qed.

End IdLoopTermination.

(** * Further properties *)

(** ** Rules for [always] and [keeps] *)

Section AlwaysRules.

Context {R : state -> state -> Prop}.
Hypothesis R_refl : forall s, R s s.
Hypothesis R_trans : forall s1 s2 s3, R s1 s2 -> R s2 s3 -> R s1 s3.

Lemma always_ret {A} (a : A) : always R (ret a).
Proof. intros s r s' [= <- <-]. apply R_refl. Qed.

Lemma always_raise {A} e : always R (raise (A:=A) e).
Proof. intros s r s' [= <- <-]. apply R_refl. Qed.

Lemma always_out_of_fuel {A} : always R (out_of_fuel (A:=A)).
Proof. intros s r s' [= <- <-]. apply R_refl. Qed.

Lemma always_get : always R get.
Proof. intros s r s' [= <- <-]. apply R_refl. Qed.

Lemma always_of_option {A} e (o : option A) : always R (of_option e o).
Proof. destruct o; [apply always_ret|apply always_raise]. Qed.

Lemma always_bind {A B} (m : M A) (k : A -> M B) :
  always R m -> (forall a, always R (k a)) -> always R (bind m k).
Proof.
  intros Hm Hk s r s'. unfold bind.
  destruct (m s) as [[a|e|] s1] eqn:E; specialize (Hm _ _ _ E).
  - intros H. eapply R_trans; [exact Hm|]. by eapply Hk.
  - by intros [= <- <-].
  - by intros [= <- <-].
Qed.

Lemma always_try_except_interrupt {A} (m h : M A) :
  always R m -> always R h -> always R (try_except_interrupt m h).
Proof.
  intros Hm Hh s r s'. unfold try_except_interrupt.
  destruct (m s) as [[a|e|] s1] eqn:E; specialize (Hm _ _ _ E).
  - by intros [= <- <-].
  - destruct e; try (by intros [= <- <-]).
    intros H. eapply R_trans; [exact Hm|]. by eapply Hh.
  - by intros [= <- <-].
Qed.

Lemma always_try_finally {A} (m : M A) (f : M unit) :
  always R m -> always R f -> always R (try_finally m f).
Proof.
  intros Hm Hf s r s'. unfold try_finally.
  destruct (m s) as [[a|e|] s1] eqn:E; specialize (Hm _ _ _ E).
  3: by intros [= <- <-].
  all: destruct (f s1) as [[[]|e'|] s2] eqn:E2; specialize (Hf _ _ _ E2);
    intros [= <- <-]; by eapply R_trans.
Qed.

(** A state-dependent continuation: [s <- get;; k s]. *)
Lemma always_get_bind {A} (k : state -> M A) :
  (forall s, always R (k s)) -> always R (bind get k).
Proof. intros Hk s r s'. unfold bind, get. apply Hk. Qed.

End AlwaysRules.

Section KeepsRules.

Context {I : state -> Prop}.

Lemma keeps_ret {A} (a : A) : keeps I (ret a).
Proof. by intros s r s' Hi [= <- <-]. Qed.

Lemma keeps_raise {A} e : e <> KeyboardInterrupt -> keeps I (raise (A:=A) e).
Proof. intros He s r s' Hi [= <- <-]. by destruct e. Qed.

Lemma keeps_out_of_fuel {A} : keeps I (out_of_fuel (A:=A)).
Proof. by intros s r s' Hi [= <- <-]. Qed.

Lemma keeps_get : keeps I get.
Proof. by intros s r s' Hi [= <- <-]. Qed.

Lemma keeps_of_option {A} e (o : option A) :
  e <> KeyboardInterrupt -> keeps I (of_option e o).
Proof. intros He. destruct o; [apply keeps_ret|by apply keeps_raise]. Qed.

Lemma keeps_bind {A B} (m : M A) (k : A -> M B) :
  keeps I m -> (forall a, keeps I (k a)) -> keeps I (bind m k).
Proof.
  intros Hm Hk s r s' Hi. unfold bind.
  destruct (m s) as [[a|e|] s1] eqn:E; specialize (Hm _ _ _ Hi E);
    cbn in Hm.
  - intros H. exact (Hk a s1 r s' Hm H).
  - intros [= <- <-]. exact Hm.
  - intros [= <- <-]. exact Hm.
Qed.

(** A state-dependent continuation: [s <- get;; k s]. *)
Lemma keeps_get_bind {A} (k : state -> M A) :
  (forall s r s', I s -> k s s = (r, s') ->
     match r with
     | Raise KeyboardInterrupt => I s'
     | Raise _ => True
     | _ => I s'
     end) ->
  keeps I (bind get k).
Proof.
  intros Hk s r s' Hi. unfold bind, get. by apply Hk.
Qed.

Lemma keeps_get_bind_all {A} (k : state -> M A) :
  (forall s0, keeps I (k s0)) -> keeps I (bind get k).
Proof. intros Hk s r s' Hi. unfold bind, get. by apply Hk. Qed.

(** A bind whose continuation may rely on a property [Q] of what the
    first half returns. *)
Lemma keeps_bind_result {A B} (Q : A -> Prop) (m : M A) (k : A -> M B) :
  keeps I m -> (forall s a s', m s = (Ok a, s') -> Q a) ->
  (forall a, Q a -> keeps I (k a)) -> keeps I (bind m k).
Proof.
  intros Hm HQ Hk s r s' Hi. unfold bind.
  destruct (m s) as [[a|e|] s1] eqn:E; specialize (Hm _ _ _ Hi E);
    cbn in Hm.
  - intros H. exact (Hk a (HQ _ _ _ E) s1 r s' Hm H).
  - intros [= <- <-]. exact Hm.
  - intros [= <- <-]. exact Hm.
Qed.

End KeepsRules.

(** ** What every step of a run does to the trace, the store and the clock *)

Section Steps.

Variable P : event -> Prop.

Lemma steps_refl s : steps P s s.
Proof.
  split; [|split]; [exists []|exists []|lia]; by rewrite app_nil_r.
Qed.

Lemma steps_trans s1 s2 s3 : steps P s1 s2 -> steps P s2 s3 -> steps P s1 s3.
Proof.
  intros ((e1 & t1 & p1) & (a1 & l1 & r1) & c1)
         ((e2 & t2 & p2) & (a2 & l2 & r2) & c2).
  split; [|split; [|lia]].
  - exists (e1 ++ e2). rewrite t2, t1, app_assoc. split; [done|].
    by apply Forall_app.
  - exists (a1 ++ a2). rewrite l2, l1, app_assoc. split; [done|].
    by apply Forall_app.
Qed.

Lemma steps_emit e : P e -> always (steps P) (emit e).
Proof.
  intros He s r s' [= <- <-]. split; [|split]; cbn.
  - exists [e]. split; [done|]. by constructor.
  - exists []. by rewrite app_nil_r.
  - lia.
Qed.

Lemma steps_same s s' :
  st_trace s' = st_trace s -> st_store s' = st_store s ->
  (st_clock s <= st_clock s')%nat -> steps P s s'.
Proof.
  intros Ht Hs Hc. unfold steps, store_lines. rewrite Ht, Hs.
  split; [|split]; [exists []|exists []|done]; by rewrite app_nil_r.
Qed.

Lemma steps_set_gall_no g : always (steps P) (set_gall_no g).
Proof. intros s r s' [= <- <-]. by apply steps_same. Qed.

Lemma steps_set_batch b : always (steps P) (set_batch b).
Proof. intros s r s' [= <- <-]. by apply steps_same. Qed.

Lemma steps_push x : always (steps P) (push x).
Proof. intros s r s' [= <- <-]. by apply steps_same. Qed.

Lemma steps_blocking w : always (steps P) (blocking w).
Proof.
  intros s r s'. unfold blocking.
  destruct (w_signal w (st_clock s)); intros [= <- <-];
    apply steps_same; cbn; (done || lia).
Qed.

Lemma steps_open_append : always (steps P) open_append.
Proof.
  intros s r s' [= <- <-]. split; [|split]; cbn.
  - exists []. by rewrite app_nil_r.
  - exists []. by rewrite app_nil_r.
  - lia.
Qed.

Lemma steps_append_line a : always (steps P) (append_line (LRecord a)).
Proof.
  intros s r s' [= <- <-]. split; [|split]; cbn.
  - exists []. by rewrite app_nil_r.
  - exists [LRecord a]. split; [done|]. constructor; [by exists a|done].
  - lia.
Qed.

End Steps.

(** Applies the rules of [always (steps P)] along a monadic definition;
    what is left are the events it emits and the calls it makes. *)
Ltac steps_auto :=
  repeat match goal with
    | |- always _ (bind get _) => apply always_get_bind; intros ?
    | |- always _ (bind _ _) =>
        apply (always_bind (steps_trans _)); [|intros ?]
    | |- always _ (ret _) => apply (always_ret (steps_refl _))
    | |- always _ (raise _) => apply (always_raise (steps_refl _))
    | |- always _ out_of_fuel => apply (always_out_of_fuel (steps_refl _))
    | |- always _ (of_option _ _) => apply (always_of_option (steps_refl _))
    | |- always _ (set_gall_no _) => apply steps_set_gall_no
    | |- always _ (set_batch _) => apply steps_set_batch
    | |- always _ (push _) => apply steps_push
    | |- always _ (blocking _) => apply steps_blocking
    | |- always _ open_append => apply steps_open_append
    | |- always _ (append_line (LRecord _)) => apply steps_append_line
    | |- always _ (emit _) => apply steps_emit
    | |- always _ (log _ _) => apply steps_emit
    | |- always _ (match ?x with _ => _ end) => destruct x
    | |- forall _, always _ _ => intros ?
    end.

Section StepsOfTheCrawler.

Variable P : event -> Prop.
Variable w : world.
Variable cfg : config.
Hypothesis P_get : forall u, P (EvGet u).
Hypothesis P_log : forall l m, plain_msg m -> P (EvLog l m).
Hypothesis P_collected : forall g, P (EvLog Info (MsgCollected g)).
Hypothesis P_saved : forall k, P (EvLog Info (MsgSaved k)).
Hypothesis P_driver_get :
  is_crawl_comments cfg = true -> forall u, P (EvDriverGet u).
Hypothesis P_sleep : P EvSleep.

(** The events of the crawler satisfy [P]. *)
Ltac solve_P :=
  first [ apply P_get | apply P_sleep
        | apply P_collected | apply P_saved | apply P_log; exact I ].

Lemma crawl_except_comment_steps no :
  always (steps P) (crawl_except_comment w cfg no).
Proof. unfold crawl_except_comment. steps_auto; solve_P. Qed.

Lemma crawl_comments_steps no :
  (forall u, P (EvDriverGet u)) ->
  always (steps P) (crawl_comments w cfg no).
Proof.
  intros Hd. unfold crawl_comments. steps_auto; first [apply Hd|solve_P].
Qed.

(** The browser is used only by a processor built with
    [is_crawl_comments=True]. *)
Lemma process_article_steps no c :
  (c = true -> forall u, P (EvDriverGet u)) ->
  always (steps P) (process_article w cfg no c).
Proof.
  intros Hd. unfold process_article.
  apply (always_bind (steps_trans _)); [apply crawl_except_comment_steps|].
  intros [a|]; [|steps_auto].
  destruct c; [|steps_auto].
  apply (always_bind (steps_trans _));
    [apply crawl_comments_steps; by apply Hd|].
  steps_auto.
Qed.

Lemma process_article_no_comments_steps no :
  always (steps P) (process_article w cfg no false).
Proof.
  unfold process_article.
  apply (always_bind (steps_trans _)); [apply crawl_except_comment_steps|].
  intros [a|]; steps_auto.
Qed.

Lemma sleep_steps : always (steps P) (sleep w).
Proof. unfold sleep. steps_auto; solve_P. Qed.

Lemma save_articles_steps b : always (steps P) (save_articles b).
Proof. induction b as [|[a|] b IH]; cbn [save_articles]; by steps_auto. Qed.

Lemma flush_steps : always (steps P) flush.
Proof.
  unfold flush, save_data_in_batch. steps_auto; try solve_P.
  apply save_articles_steps.
Qed.

Lemma flush_if_full_steps : always (steps P) (flush_if_full cfg).
Proof.
  unfold flush_if_full. apply always_get_bind. intros s.
  destruct (_ <=? _); [apply flush_steps|steps_auto].
Qed.

Lemma http_get_listing_steps : always (steps P) (http_get_listing w cfg).
Proof. unfold http_get_listing. steps_auto; solve_P. Qed.

Lemma check_gallery_conditions_steps :
  always (steps P) (check_gallery_conditions w cfg).
Proof.
  unfold check_gallery_conditions.
  apply (always_bind (steps_trans _)); [apply http_get_listing_steps|].
  intros response. destruct (_ =? _); steps_auto.
Qed.

Lemma check_scrapping_conditions_steps :
  always (steps P) (check_scrapping_conditions w cfg).
Proof.
  unfold check_scrapping_conditions.
  repeat match goal with
         | |- always _ (if ?b then _ else _) => destruct b
         | |- always _ (match ?x with _ => _ end) => destruct x
         end; steps_auto.
  apply http_get_listing_steps.
Qed.

Lemma load_collected_gall_no_steps : always (steps P) load_collected_gall_no.
Proof.
  unfold load_collected_gall_no, log. apply always_get_bind. intros s.
  steps_auto; solve_P.
Qed.

Lemma id_body_steps collected : always (steps P) (id_body w cfg collected).
Proof.
  unfold id_body, log. apply always_get_bind. intros s. cbv zeta.
  destruct (bool_decide _); [steps_auto; solve_P|].
  apply (always_bind (steps_trans _)); [apply steps_emit; solve_P|]. intros _.
  apply (always_bind (steps_trans _));
    [apply process_article_steps; exact P_driver_get|].
  intros a.
  apply (always_bind (steps_trans _)); [destruct a; steps_auto; auto|].
  intros _.
  apply (always_bind (steps_trans _)); [apply flush_if_full_steps|].
  intros _.
  apply (always_bind (steps_trans _)); [apply steps_set_gall_no|].
  intros _. apply sleep_steps.
Qed.

Lemma id_loop_steps fuel end_no collected :
  always (steps P) (id_loop w cfg fuel end_no collected).
Proof.
  induction fuel as [|fuel IH]; cbn [id_loop]; apply always_get_bind;
    intros s; destruct (_ <=? _); steps_auto.
  - apply id_body_steps.
  - apply IH.
Qed.

Lemma date_body_steps start_d end_d collected :
  always (steps P) (date_body w cfg start_d end_d collected).
Proof.
  unfold date_body, log. apply always_get_bind. intros s. cbv zeta.
  apply (always_bind (steps_trans _));
    [apply process_article_no_comments_steps|].
  intros [a|]; [|steps_auto].
  apply (always_bind (steps_trans _)); [steps_auto|]. intros d.
  apply (always_bind (steps_trans _)).
  - destruct (_ && _).
    + apply (always_bind (steps_trans _)); [|steps_auto].
      destruct (bool_decide _); [apply steps_emit; solve_P|].
      apply (always_bind (steps_trans _)); [apply steps_emit; solve_P|]. intros _.
      apply (always_bind (steps_trans _)).
      { destruct (is_crawl_comments cfg) eqn:Ec; [|apply steps_push].
        apply (always_bind (steps_trans _));
          [apply process_article_steps; intros _; by apply P_driver_get|].
        intros x. apply steps_push. }
      intros _.
      apply (always_bind (steps_trans _)); [apply steps_emit; solve_P|]. intros _.
      apply flush_if_full_steps.
    + destruct (dt_ltb end_d d); [steps_auto; solve_P|].
      destruct (dt_ltb d start_d); steps_auto; solve_P.
  - intros [|]; [|steps_auto].
    apply (always_bind (steps_trans _)); [apply steps_set_gall_no|].
    intros _.
    apply (always_bind (steps_trans _)); [apply sleep_steps|]. steps_auto.
Qed.

Lemma date_loop_steps fuel start_d end_d collected :
  always (steps P) (date_loop w cfg fuel start_d end_d collected).
Proof.
  induction fuel as [|fuel IH]; cbn [date_loop]; [steps_auto|].
  apply (always_bind (steps_trans _)); [apply date_body_steps|].
  intros [|]; [apply IH|steps_auto].
Qed.

Lemma traverse_steps fuel mode collected :
  always (steps P) (traverse w cfg fuel mode collected).
Proof.
  unfold traverse, log. destruct mode.
  - apply (always_bind (steps_trans _)); [apply steps_emit; solve_P|]. intros _.
    apply (always_bind (steps_trans _)); [apply id_loop_steps|]. intros _.
    apply flush_steps.
  - apply (always_bind (steps_trans _)); [apply steps_emit; solve_P|]. intros _.
    apply (always_bind (steps_trans _)); [apply date_loop_steps|]. intros _.
    apply flush_steps.
Qed.

(** Everything [run] does before [driver.quit()]. *)
Lemma run_steps_before_quit fuel mode collected :
  always (steps P)
    (try_except_interrupt (traverse w cfg fuel mode collected) flush).
Proof.
  apply (always_try_except_interrupt (steps_trans _));
    [apply traverse_steps|apply flush_steps].
Qed.

End StepsOfTheCrawler.

(** A bind whose two halves satisfy different relations. *)
Lemma always_bind_gen {A B} (R1 R2 R3 : state -> state -> Prop)
    (m : M A) (k : A -> M B) :
  always R1 m -> (forall a, always R2 (k a)) ->
  (forall s1 s2, R1 s1 s2 -> R3 s1 s2) ->
  (forall s1 s2 s3, R1 s1 s2 -> R2 s2 s3 -> R3 s1 s3) ->
  always R3 (bind m k).
Proof.
  intros Hm Hk H1 H12 s r s'. unfold bind.
  destruct (m s) as [[a|e|] s1] eqn:E; specialize (Hm _ _ _ E).
  - intros H. eapply H12; [exact Hm|]. by eapply Hk.
  - intros [= <- <-]. by apply H1.
  - intros [= <- <-]. by apply H1.
Qed.

Lemma steps_weaken (P Q : event -> Prop) s s' :
  (forall e, P e -> Q e) -> steps P s s' -> steps Q s s'.
Proof.
  intros HPQ ((evs & Ht & Hp) & Hs & Hc). split; [|done].
  exists evs. split; [done|]. eapply Forall_impl; eauto.
Qed.

(** ** The whole run: the store only grows, and nothing follows the quit *)

Lemma run_before_try_steps (P : event -> Prop) w cfg :
  (forall u, P (EvGet u)) -> (forall l m, plain_msg m -> P (EvLog l m)) ->
  forall {A} (k : resolved -> gset Z -> M A) (R : state -> state -> Prop),
    (forall mode c, always R (k mode c)) ->
    (forall s1 s2, steps P s1 s2 -> R s1 s2) ->
    (forall s1 s2 s3, steps P s1 s2 -> R s2 s3 -> R s1 s3) ->
    always R
      (check_gallery_conditions w cfg;;
       mode <- check_scrapping_conditions w cfg;;
       collected_gall_no <- load_collected_gall_no;;
       log Info MsgInitialized;;
       (if bool_decide (start_gall_no cfg ≠ None)
        then log Info MsgGallNoBounds else log Info MsgDateBounds);;
       set_batch [];;
       k mode collected_gall_no).
Proof.
  intros Pg Pl A k R Hk H1 H12.
  assert (Hpre : forall {B} (m : M B) (k' : B -> M A),
            always (steps P) m -> (forall b, always R (k' b)) ->
            always R (bind m k')).
  { intros B m k' Hm Hk'. by eapply always_bind_gen. }
  apply Hpre; [by apply check_gallery_conditions_steps|]. intros _.
  apply Hpre; [by apply check_scrapping_conditions_steps|]. intros mode.
  apply Hpre; [by apply load_collected_gall_no_steps|]. intros c.
  apply Hpre; [by apply steps_emit, Pl|]. intros _.
  apply Hpre; [destruct (bool_decide _); by apply steps_emit, Pl|]. intros _.
  apply Hpre; [apply steps_set_batch|]. intros _.
  apply Hk.
Qed.

(** X1. A run never removes or rewrites a line of the store, in either
    mode and however it ends: the final store is the initial one followed
    by records, and the clock of blocking calls never goes back. *)
Theorem run_only_appends_records
    (w : world) (cfg : config) (fuel : nat) (s : state)
    (r : result unit) (s' : state) :
  run w cfg fuel s = (r, s') ->
  exists added,
    store_lines s' = store_lines s ++ added /\ Forall is_record added.
Proof.
  intros Hrun.
  assert (always (steps (fun _ => True)) (run w cfg fuel)) as H.
  { unfold run.
    apply (run_before_try_steps (fun _ => True)); try done.
    - intros mode c.
      apply (always_try_finally (steps_trans _)).
      + by apply run_steps_before_quit.
      + by apply steps_emit.
    - intros s1 s2 s3. apply steps_trans. }
  by destruct (H _ _ _ Hrun) as (_ & ? & _).
Qed.

Lemma run_only_appends_records_witness :
  exists added,
    store_lines
      (run Scenario.board (Scenario.by_date true) 10 (init_state None)).2
    = store_lines (init_state None) ++ added
    /\ Forall is_record added.
Proof.
  exact (run_only_appends_records Scenario.board (Scenario.by_date true) 10
           (init_state None) _ _ (surjective_pairing _)).
Defined.


(** X2. [driver.quit()] is called at most once in a run and is the last
    thing the run does: no request, page load, sleep or log line follows
    it. *)
Theorem run_quits_last
    (w : world) (cfg : config) (fuel : nat) (s : state)
    (r : result unit) (s' : state) :
  run w cfg fuel s = (r, s') -> quit_last s s'.
Proof.
  revert s r s'. change (always quit_last (run w cfg fuel)).
  set (P := fun e : event => e <> EvQuit).
  assert (Hin : forall s1 s2, steps P s1 s2 -> quit_last s1 s2).
  { intros s1 s2 ((evs & Ht & Hp) & _). exists evs. split; [done|by left]. }
  unfold run. apply (run_before_try_steps P); try done.
  - intros mode c s r s'. unfold try_finally.
    assert (Hm : always (steps P)
                   (try_except_interrupt (traverse w cfg fuel mode c) flush))
      by (by apply run_steps_before_quit).
    destruct (try_except_interrupt _ _ s) as [ri si] eqn:E.
    destruct (Hm _ _ _ E) as ((evs & Ht & Hp) & _).
    destruct ri as [[]|e|]; unfold driver_quit, emit; intros [= <- <-];
      exists evs; (split; [done|]); cbn; rewrite Ht.
    + right. by rewrite app_assoc.
    + right. by rewrite app_assoc.
    + by left.
  - intros s1 s2 s3 ((e1 & t1 & p1) & _) (e2 & p2 & [t2|t2]);
      exists (e1 ++ e2); (split; [by apply Forall_app|]);
      rewrite t2, t1, <- ?app_assoc; [by left|by right].
Qed.

Lemma run_quits_last_witness :
  quit_last (init_state None)
    (run Scenario.board (Scenario.by_id (Some 1) (Some 5)) 10
       (init_state None)).2.
Proof.
  exact (run_quits_last Scenario.board (Scenario.by_id (Some 1) (Some 5)) 10
           (init_state None) _ _ (surjective_pairing _)).
Defined.

(** ** Interrupts *)

Lemma flush_never_interrupted s : (flush s).1 <> Raise KeyboardInterrupt.
Proof.
  rewrite flush_spec.
  destruct (save_outcome_cases (st_batch s)) as [-> | [-> | ->]]; done.
Qed.

Lemma try_block_absorbs_interrupt (m : M unit) s :
  (try_finally (try_except_interrupt m flush) driver_quit s).1
  <> Raise KeyboardInterrupt.
Proof.
  unfold try_finally, try_except_interrupt.
  destruct (m s) as [[[]|e|] s1]; try done.
  - destruct e; try done.
    pose proof (flush_never_interrupted s1) as Hf.
    by destruct (flush s1) as [[[]|e|] s2].
Qed.

(** [run] as its two checks followed, when both pass, by the loader and
    the [try] block. *)
Lemma run_unfold w cfg fuel s :
  run w cfg fuel s
  = match (check_gallery_conditions w cfg;;
           check_scrapping_conditions w cfg) s with
    | (Ok mode, s2) =>
        match load_collected_gall_no s2 with
        | (Ok c, s3) =>
            try_finally
              (try_except_interrupt (traverse w cfg fuel mode c) flush)
              driver_quit (ready cfg s3)
        | (Raise e, s3) => (Raise e, s3)
        | (NoFuel, s3) => (NoFuel, s3)
        end
    | (Raise e, s2) => (Raise e, s2)
    | (NoFuel, s2) => (NoFuel, s2)
    end.
Proof.
  unfold run. unfold bind at 1 7.
  destruct (check_gallery_conditions w cfg s) as [[[]|e|] s1]; try done.
  unfold bind at 1.
  destruct (check_scrapping_conditions w cfg s1) as [[mode|e|] s2]; try done.
  unfold bind at 1.
  destruct (load_collected_gall_no s2) as [[c|e|] s3]; try done.
  unfold ready. destruct (bool_decide (start_gall_no cfg ≠ None)); cbn;
    by rewrite <- app_assoc.
Qed.



(** ** A run that returns has stored what it logged as collected *)

Lemma line_ids_record sa ls : LRecord sa ∈ ls -> s_gall_no sa ∈ line_ids ls.
Proof.
  intros H. unfold line_ids. apply list_elem_of_omap.
  by exists (LRecord sa).
Qed.

Lemma accounted_step s s' :
  st_batch s' = st_batch s -> steps not_collected_log s s' ->
  accounted s -> accounted s'.
Proof.
  intros Hb ((evs & Ht & Hp) & (added & Hs & _) & _) Hacc g Hg.
  rewrite Ht in Hg. apply elem_of_app in Hg as [Hg|Hg].
  - rewrite Hb, Hs, line_ids_app.
    destruct (Hacc g Hg) as [?|[?|?]]; [left|by right; left|by right; right].
    apply elem_of_app. by left.
  - rewrite Forall_forall in Hp. by destruct (Hp _ Hg g).
Qed.

Lemma accounted_push_collected s x g :
  (x = None \/ exists a : ArticleData, x = Some a /\ gall_no a = g) ->
  accounted s ->
  accounted (mk_state (st_gall_no s) (st_batch s ++ [x]) (st_store s)
               (st_trace s ++ [EvLog Info (MsgCollected g)]) (st_clock s)).
Proof.
  intros Hx Hacc g' Hg. cbn in *.
  apply elem_of_app in Hg as [Hg|Hg].
  - destruct (Hacc g' Hg) as [?|[(a & ? & ?)|?]]; [by left| |].
    + right; left. exists a. split; [|done]. apply elem_of_app. by left.
    + right; right. apply elem_of_app. by left.
  - apply list_elem_of_singleton in Hg. simplify_eq.
    destruct Hx as [-> | (a & -> & Ha)].
    + right; right. apply elem_of_app. right. left.
    + right; left. exists a. split; [|done]. apply elem_of_app. right. left.
Qed.

(** A flush that returns has written the record of every post logged as
    collected so far. *)
Lemma accounted_flush s r s' :
  accounted s -> flush s = (r, s') ->
  match r with
  | Ok _ =>
      st_batch s' = []
      /\ forall g, EvLog Info (MsgCollected g) ∈ st_trace s' ->
                   g ∈ line_ids (store_lines s')
  | Raise e => e <> KeyboardInterrupt
  | NoFuel => False
  end.
Proof.
  intros Hacc. rewrite flush_spec.
  destruct (save_outcome (st_batch s)) as [[]|e|] eqn:Eo; intros [= <- <-].
  - split; [done|]. intros g Hg. cbn in *.
    apply elem_of_app in Hg as [Hg|Hg].
    2: { by apply list_elem_of_singleton in Hg. }
    rewrite line_ids_app. apply elem_of_app.
    destruct (Hacc g Hg) as [?|[(a & Ha & <-)|Hn]]; [by left| |].
    + right.
      destruct (save_outcome_ok_written _ _ Eo Ha) as (a' & sa & ? & Hst & ?).
      simplify_eq. rewrite <- (to_stored_gall_no _ _ Hst).
      by apply line_ids_record.
    + by destruct (save_outcome_ok_written _ _ Eo Hn) as (? & ? & ? & _).
  - destruct (save_outcome_cases (st_batch s)) as [?|[?|?]]; congruence.
  - destruct (save_outcome_cases (st_batch s)) as [?|[?|?]]; congruence.
Qed.

Lemma accounted_of_stored s :
  (forall g, EvLog Info (MsgCollected g) ∈ st_trace s ->
             g ∈ line_ids (store_lines s)) ->
  accounted s.
Proof. intros H g Hg. left. by apply H. Qed.

Section Accounted.

Variable w : world.
Variable cfg : config.

Lemma not_collected_log_plain l m : plain_msg m -> not_collected_log (EvLog l m).
Proof. intros Hm g [= -> ->]. done. Qed.

Lemma keeps_accounted_emit e :
  not_collected_log e -> keeps accounted (emit e).
Proof.
  intros He s r s' Hacc [= <- <-].
  eapply accounted_step; [| |exact Hacc]; [done|].
  by apply (steps_emit not_collected_log e He s (Ok tt)).
Qed.

Lemma keeps_accounted_always {A} (m : M A) :
  always (steps not_collected_log) m ->
  always (fun s s' => st_batch s' = st_batch s) m ->
  keeps accounted m.
Proof.
  intros Hs Hb s r s' Hacc E.
  assert (accounted s').
  { eapply accounted_step; [| |exact Hacc]; [by eapply Hb|by eapply Hs]. }
  by destruct r as [a|[]|].
Qed.

Lemma keeps_accounted_process_article no c :
  keeps accounted (process_article w cfg no c).
Proof.
  apply keeps_accounted_always.
  - apply process_article_steps; try done.
    apply not_collected_log_plain.
  - intros s r s' E. by destruct (process_article_frame _ _ _ _ _ _ _ E).
Qed.

Lemma keeps_accounted_sleep : keeps accounted (sleep w).
Proof.
  apply keeps_accounted_always.
  - by apply sleep_steps.
  - intros s r s'. rewrite sleep_spec. by intros [= <- <-].
Qed.

Lemma keeps_accounted_set_gall_no g : keeps accounted (set_gall_no g).
Proof. by intros s r s' Hacc [= <- <-]. Qed.

Lemma keeps_accounted_flush_if_full : keeps accounted (flush_if_full cfg).
Proof.
  intros s r s' Hacc. unfold flush_if_full.
  rewrite (bind_ok get _ s s s) by done.
  destruct (_ <=? _).
  - intros Hf. pose proof (accounted_flush _ _ _ Hacc Hf) as H.
    destruct r as [[]|e|]; [|by destruct e|done].
    apply accounted_of_stored. by destruct H.
  - by intros [= <- <-].
Qed.

(** Appending what was fetched for the cursor and logging it. *)
Lemma keeps_accounted_push_log x g :
  (x = None \/ exists a : ArticleData, x = Some a /\ gall_no a = g) ->
  keeps accounted (push x;; log Info (MsgCollected g)).
Proof.
  intros Hx s r s' Hacc [= <- <-]. by apply accounted_push_collected.
Qed.

Lemma keeps_accounted_id_body collected :
  keeps accounted (id_body w cfg collected).
Proof.
  unfold id_body. apply keeps_get_bind_all. intros s0. cbv zeta.
  destruct (bool_decide (st_gall_no s0 ∈ collected)).
  { apply keeps_bind;
      [by apply keeps_accounted_emit, not_collected_log_plain|].
    intros _. apply keeps_accounted_set_gall_no. }
  apply keeps_bind;
    [by apply keeps_accounted_emit, not_collected_log_plain|]. intros _.
  apply (keeps_bind_result
           (fun x => forall a : ArticleData,
                       x = Some a -> gall_no a = st_gall_no s0)).
  { apply keeps_accounted_process_article. }
  { intros s a s' E a0 ->. by eapply process_article_gall_no. }
  intros a Ha. apply keeps_bind.
  - destruct a as [a|]; [|apply keeps_ret].
    apply keeps_accounted_push_log. right. exists a. split; [done|].
    by apply Ha.
  - intros _. apply keeps_bind; [apply keeps_accounted_flush_if_full|].
    intros _. apply keeps_bind; [apply keeps_accounted_set_gall_no|].
    intros _. apply keeps_accounted_sleep.
Qed.

Lemma keeps_accounted_id_loop fuel end_no collected :
  keeps accounted (id_loop w cfg fuel end_no collected).
Proof.
  induction fuel as [|fuel IH]; cbn [id_loop]; apply keeps_get_bind_all;
    intros s0; destruct (_ <=? _);
    try apply keeps_out_of_fuel; try apply keeps_ret.
  apply keeps_bind; [apply keeps_accounted_id_body|]. intros _. apply IH.
Qed.

Lemma keeps_accounted_date_body start_d end_d collected :
  keeps accounted (date_body w cfg start_d end_d collected).
Proof.
  unfold date_body. apply keeps_get_bind_all. intros s0. cbv zeta.
  apply (keeps_bind_result
           (fun x => forall a : ArticleData,
                       x = Some a -> gall_no a = st_gall_no s0)).
  { apply keeps_accounted_process_article. }
  { intros s a s' E a0 ->. by eapply process_article_gall_no. }
  intros [a|] Ha.
  2: { apply keeps_bind; [apply keeps_accounted_set_gall_no|].
       intros _. apply keeps_ret. }
  apply keeps_bind; [by apply keeps_of_option|]. intros d.
  apply keeps_bind.
  - destruct (_ && _).
    + apply keeps_bind; [|intros _; apply keeps_ret].
      destruct (bool_decide _);
        [by apply keeps_accounted_emit, not_collected_log_plain|].
      apply keeps_bind;
        [by apply keeps_accounted_emit, not_collected_log_plain|]. intros _.
      assert (Hpl : keeps accounted
                ((if is_crawl_comments cfg
                  then article_data <- process_article w cfg (st_gall_no s0)
                                         true;;
                       push article_data
                  else push (Some a));;
                 log Info (MsgCollected (st_gall_no s0)))).
      { destruct (is_crawl_comments cfg).
        - intros s r s' Hacc. unfold bind at 1. unfold bind at 1.
          destruct (process_article w cfg (st_gall_no s0) true s)
            as [[x|e|] s1] eqn:Ef;
            pose proof (keeps_accounted_process_article _ _ _ _ _ Hacc Ef)
              as H1; cbn in H1; [|by intros [= <- <-]..].
          intros [= <- <-]. apply accounted_push_collected; [|done].
          destruct x as [x|]; [right|by left].
          exists x. split; [done|]. by eapply process_article_gall_no.
        - apply keeps_accounted_push_log. right. exists a.
          split; [done|]. by apply Ha. }
      intros s r s' Hacc. unfold bind at 1.
      destruct ((if is_crawl_comments cfg
                 then article_data <- process_article w cfg (st_gall_no s0)
                                        true;;
                      push article_data
                 else push (Some a)) s) as [[[]|e|] s1] eqn:E1.
      * unfold bind at 1.
        destruct (log Info (MsgCollected (st_gall_no s0)) s1)
          as [[[]|e|] s2] eqn:E2; try done.
        assert ((( if is_crawl_comments cfg
                   then article_data <- process_article w cfg
                                          (st_gall_no s0) true;;
                        push article_data
                   else push (Some a));;
                 log Info (MsgCollected (st_gall_no s0))) s = (Ok tt, s2))
          as E12 by (by rewrite (bind_ok _ _ _ _ _ E1)).
        pose proof (Hpl _ _ _ Hacc E12) as H2. cbn in H2.
        by apply keeps_accounted_flush_if_full.
      * intros [= <- <-].
        assert ((( if is_crawl_comments cfg
                   then article_data <- process_article w cfg
                                          (st_gall_no s0) true;;
                        push article_data
                   else push (Some a));;
                 log Info (MsgCollected (st_gall_no s0))) s = (Raise e, s1))
          as E12 by (by rewrite (bind_raise _ _ _ _ _ E1)).
        exact (Hpl _ _ _ Hacc E12).
      * intros [= <- <-].
        assert ((( if is_crawl_comments cfg
                   then article_data <- process_article w cfg
                                          (st_gall_no s0) true;;
                        push article_data
                   else push (Some a));;
                 log Info (MsgCollected (st_gall_no s0))) s = (NoFuel, s1))
          as E12 by (by rewrite (bind_no_fuel _ _ _ _ E1)).
        exact (Hpl _ _ _ Hacc E12).
    + destruct (dt_ltb end_d d).
      { apply keeps_bind;
          [by apply keeps_accounted_emit, not_collected_log_plain|].
        intros _. apply keeps_ret. }
      destruct (dt_ltb d start_d); [|apply keeps_ret].
      apply keeps_bind;
        [by apply keeps_accounted_emit, not_collected_log_plain|].
      intros _. apply keeps_ret.
  - intros [|]; [|apply keeps_ret].
    apply keeps_bind; [apply keeps_accounted_set_gall_no|]. intros _.
    apply keeps_bind; [apply keeps_accounted_sleep|]. intros _.
    apply keeps_ret.
Qed.

Lemma keeps_accounted_date_loop fuel start_d end_d collected :
  keeps accounted (date_loop w cfg fuel start_d end_d collected).
Proof.
  induction fuel as [|fuel IH]; cbn [date_loop]; [apply keeps_out_of_fuel|].
  apply keeps_bind; [apply keeps_accounted_date_body|].
  intros [|]; [apply IH|apply keeps_ret].
Qed.


Lemma traverse_stored fuel mode collected s r s' :
  accounted s -> traverse w cfg fuel mode collected s = (r, s') ->
  match r with
  | Ok _ => forall g, EvLog Info (MsgCollected g) ∈ st_trace s' ->
                      g ∈ line_ids (store_lines s')
  | Raise KeyboardInterrupt => accounted s'
  | _ => True
  end.
Proof.
  intros Hacc.
  assert (Hloop : keeps accounted
            (match mode with
             | ByGallNo end_no => id_loop w cfg fuel end_no collected
             | ByDate sd ed => date_loop w cfg fuel sd ed collected
             end)).
  { destruct mode;
      [apply keeps_accounted_id_loop|apply keeps_accounted_date_loop]. }
  assert (Hlog : keeps accounted
            (match mode with
             | ByGallNo _ => log Info MsgCrawlByGallNo
             | ByDate _ _ => log Info MsgCrawlByDate
             end)).
  { destruct mode; by apply keeps_accounted_emit, not_collected_log_plain. }
  assert (traverse w cfg fuel mode collected
          = (match mode with
             | ByGallNo _ => log Info MsgCrawlByGallNo
             | ByDate _ _ => log Info MsgCrawlByDate
             end;;
             match mode with
             | ByGallNo end_no => id_loop w cfg fuel end_no collected
             | ByDate sd ed => date_loop w cfg fuel sd ed collected
             end;;
             flush)) as -> by (by destruct mode).
  unfold bind at 1.
  destruct (match mode with
            | ByGallNo _ => log Info MsgCrawlByGallNo
            | ByDate _ _ => log Info MsgCrawlByDate
            end s) as [[[]|e|] s1] eqn:E1;
    pose proof (Hlog _ _ _ Hacc E1) as H1; cbn in H1.
  2: { intros [= <- <-]. by destruct e. }
  2: { by intros [= <- <-]. }
  unfold bind at 1.
  destruct (match mode with
            | ByGallNo end_no => id_loop w cfg fuel end_no collected
            | ByDate sd ed => date_loop w cfg fuel sd ed collected
            end s1) as [[[]|e|] s2] eqn:E2;
    pose proof (Hloop _ _ _ H1 E2) as H2; cbn in H2.
  2: { intros [= <- <-]. by destruct e. }
  2: { by intros [= <- <-]. }
  intros Hf. pose proof (accounted_flush _ _ _ H2 Hf) as H3.
  destruct r as [[]|e|]; [by destruct H3|by destruct e|done].
Qed.

End Accounted.

(** X4. A run that returns normally, interrupted or not, has written to
    the store the record of every post it logged as collected. *)
Theorem returned_run_stored_what_it_logged
    (w : world) (cfg : config) (fuel : nat) (file : option (list line))
    (s' : state) (g : Z) :
  run w cfg fuel (init_state file) = (Ok tt, s') ->
  EvLog Info (MsgCollected g) ∈ st_trace s' ->
  g ∈ line_ids (store_lines s').
Proof.
  rewrite run_unfold.
  destruct ((check_gallery_conditions w cfg;;
             check_scrapping_conditions w cfg) (init_state file))
    as [[mode|e|] s2] eqn:E1; [|done..].
  destruct (load_collected_gall_no s2) as [[c|e|] s3] eqn:E2; [|done..].
  assert (Hpre : steps not_collected_log (init_state file) s3).
  { eapply steps_trans.
    - eapply (always_bind (steps_trans _)); [| |exact E1].
      + apply check_gallery_conditions_steps; try done;
          apply not_collected_log_plain.
      + intros ?. apply check_scrapping_conditions_steps; try done;
          apply not_collected_log_plain.
    - eapply load_collected_gall_no_steps; [|exact E2].
      apply not_collected_log_plain. }
  assert (Hready : accounted (ready cfg s3)).
  { intros g' Hg. exfalso. cbn in Hg.
    destruct Hpre as ((evs & Ht & Hp) & _). cbn in Ht. rewrite Ht in Hg.
    apply elem_of_app in Hg as [Hg|Hg].
    - rewrite Forall_forall in Hp. by destruct (Hp _ Hg g').
    - destruct (bool_decide _);
        repeat (apply elem_of_cons in Hg as [Hg|Hg]; [done|]);
        by apply not_elem_of_nil in Hg. }
  unfold try_finally, try_except_interrupt.
  destruct (traverse w cfg fuel mode c (ready cfg s3))
    as [[[]|e|] s4] eqn:E3;
    pose proof (traverse_stored _ _ _ _ _ _ _ _ Hready E3) as H3;
    cbn in H3.
  - intros [= <-] Hg. cbn in Hg. apply elem_of_app in Hg as [Hg|Hg].
    + by apply H3.
    + by apply list_elem_of_singleton in Hg.
  - destruct e; try done.
    destruct (flush s4) as [[[]|e|] s5] eqn:E4; try done.
    pose proof (accounted_flush _ _ _ H3 E4) as [_ H5].
    intros [= <-] Hg. cbn in Hg. apply elem_of_app in Hg as [Hg|Hg].
    + by apply H5.
    + by apply list_elem_of_singleton in Hg.
  - done.
Qed.

Lemma returned_run_stored_what_it_logged_witness :
  4 ∈ line_ids (store_lines
         (run Scenario.board (Scenario.by_date true) 10 (init_state None)).2).
Proof.
  apply (returned_run_stored_what_it_logged Scenario.board
           (Scenario.by_date true) 10 None).
  - vm_compute. reflexivity.
  - apply (bool_decide_unpack _). vm_compute. exact I.
Defined.

(** ** The requests of an id-mode run *)

Lemma post_requests_app t1 t2 :
  post_requests (t1 ++ t2) = post_requests t1 ++ post_requests t2.
Proof. apply omap_app. Qed.

Lemma steps_no_request s s' :
  steps no_post_request s s' ->
  post_requests (st_trace s') = post_requests (st_trace s).
Proof.
  intros ((evs & -> & Hp) & _). rewrite post_requests_app.
  assert (post_requests evs = []) as ->; [|by rewrite app_nil_r].
  induction Hp as [|e evs He _ IH]; [done|]. cbn.
  unfold no_post_request in He. by rewrite He.
Qed.

Lemma make_url_for_article_no ty id n u :
  make_url_for_article ty id n = Some u -> u_no u = Some n.
Proof. unfold make_url_for_article. intros H. by repeat case_match; simplify_eq. Qed.

Section Quiet.

Lemma quiet_ret {A} (a : A) : quiet (ret a).
Proof. by intros s. Qed.

Lemma quiet_raise {A} e : e <> KeyboardInterrupt -> quiet (raise (A:=A) e).
Proof. intros He s. cbn. congruence. Qed.

Lemma quiet_of_option {A} e (o : option A) :
  e <> KeyboardInterrupt -> quiet (of_option e o).
Proof. intros He. destruct o; [apply quiet_ret|by apply quiet_raise]. Qed.

Lemma quiet_bind {A B} (m : M A) (k : A -> M B) :
  quiet m -> (forall a, quiet (k a)) -> quiet (bind m k).
Proof.
  intros Hm Hk s. unfold bind. specialize (Hm s).
  destruct (m s) as [[a|e|] s1]; [apply Hk| |done].
  cbn in *. intros [= ->]. by apply Hm.
Qed.

Lemma quiet_emit e : quiet (emit e).
Proof. by intros s. Qed.

End Quiet.

Section IdModeRequests.

Variable w : world.
Variable cfg : config.

Lemma crawl_except_comment_requests no s r s' :
  crawl_except_comment w cfg no s = (r, s') ->
  post_requests (st_trace s') = post_requests (st_trace s) ++ [no]
  \/ (s' = s /\ r = Raise (ValueError InvalidGalleryType)).
Proof.
  unfold crawl_except_comment, blocking. intros H.
  destruct (make_url_for_article (gall_type cfg) (gallery_id cfg) no)
    as [u|] eqn:Eu.
  2: { right. by branches. }
  left. apply make_url_for_article_no in Eu.
  branches; cbn [st_trace]; rewrite ?post_requests_app; cbn; rewrite Eu;
    cbn; by rewrite ?app_nil_r.
Qed.

Lemma crawl_comments_requests no s r s' :
  crawl_comments w cfg no s = (r, s') ->
  post_requests (st_trace s') = post_requests (st_trace s).
Proof.
  intros H. apply steps_no_request.
  revert s r s' H. change (always (steps no_post_request)
                             (crawl_comments w cfg no)).
  by apply crawl_comments_steps.
Qed.

Lemma process_article_requests no c s r s' :
  process_article w cfg no c s = (r, s') ->
  post_requests (st_trace s') = post_requests (st_trace s) ++ [no]
  \/ (s' = s /\ r = Raise (ValueError InvalidGalleryType)).
Proof.
  unfold process_article, bind at 1.
  destruct (crawl_except_comment w cfg no s) as [[[a|]|e|] s1] eqn:E1;
    intros H; apply crawl_except_comment_requests in E1.
  2-4: unfold ret in H; simplify_eq/=;
    (destruct E1 as [E1|[-> E1]]; [by left|right]); by simplify_eq.
  destruct E1 as [E1|[_ ?]]; [|done]. left.
  destruct c.
  - unfold bind in H.
    destruct (crawl_comments w cfg no s1) as [[[cs|]|e|] s2] eqn:E2;
      apply crawl_comments_requests in E2; unfold ret in H; simplify_eq/=;
      by rewrite E2.
  - unfold ret in H. by simplify_eq/=.
Qed.


Lemma no_post_request_log l m : no_post_request (EvLog l m).
Proof. done. Qed.

Lemma id_body_tail_steps g (a : option ArticleData) :
  always (steps no_post_request)
    (match a with
     | Some a => push (Some a);; log Info (MsgCollected g)
     | None => ret tt
     end;;
     flush_if_full cfg;; set_gall_no (g + 1);; sleep w).
Proof.
  apply (always_bind (steps_trans _)).
  { destruct a as [a|]; [|apply (always_ret (steps_refl _))].
    apply (always_bind (steps_trans _)); [apply steps_push|]. intros _.
    by apply steps_emit. }
  intros _.
  apply (always_bind (steps_trans _)); [by apply flush_if_full_steps|].
  intros _.
  apply (always_bind (steps_trans _)); [apply steps_set_gall_no|].
  intros _. by apply sleep_steps.
Qed.

Lemma id_body_requests collected s r s' :
  id_body w cfg collected s = (r, s') ->
  exists l,
    post_requests (st_trace s') = post_requests (st_trace s) ++ l
    /\ l `prefix_of` (if bool_decide (st_gall_no s ∈ collected) then []
                      else [st_gall_no s])
    /\ (r = Ok tt ->
        l = (if bool_decide (st_gall_no s ∈ collected) then []
             else [st_gall_no s])).
Proof.
  unfold id_body. rewrite (bind_ok get _ s s s) by done. cbv zeta.
  destruct (bool_decide (st_gall_no s ∈ collected)).
  { intros [= <- <-]. exists []. cbn.
    rewrite post_requests_app, !app_nil_r. done. }
  unfold bind at 1. cbn [log emit].
  set (s0 := mk_state _ _ _ _ _).
  assert (Hs0 : post_requests (st_trace s0) = post_requests (st_trace s)).
  { cbn. by rewrite post_requests_app, app_nil_r. }
  unfold bind at 1.
  destruct (process_article w cfg (st_gall_no s) (is_crawl_comments cfg) s0)
    as [[a|e|] s1] eqn:E1;
    destruct (process_article_requests _ _ _ _ _ E1) as [Hp|[-> Hp]];
    try done.
  - intros H. apply id_body_tail_steps, steps_no_request in H.
    exists [st_gall_no s]. by rewrite H, Hp, Hs0.
  - intros [= <- <-]. exists [st_gall_no s]. by rewrite Hp, Hs0.
  - intros [= <- <-]. exists []. rewrite app_nil_r. split; [done|].
    split; [apply prefix_nil|done].
  - intros [= <- <-]. exists [st_gall_no s]. by rewrite Hp, Hs0.
Qed.

Lemma uncollected_empty collected first last :
  last < first -> uncollected collected first last = [].
Proof. intros H. unfold uncollected. rewrite seqZ_nil by lia. done. Qed.

Lemma uncollected_first collected first last :
  first <= last ->
  uncollected collected first last
  = (if bool_decide (first ∈ collected) then [] else [first])
    ++ uncollected collected (first + 1) last.
Proof.
  intros H. unfold uncollected. rewrite (seqZ_cons first) by lia.
  rewrite filter_cons.
  replace (Z.pred (last - first + 1)) with (last - (first + 1) + 1) by lia.
  replace (Z.succ first) with (first + 1) by lia.
  destruct (decide (first ∉ collected)) as [Hn|Hn].
  - by rewrite bool_decide_eq_false_2.
  - rewrite bool_decide_eq_true_2; [done|]. by apply dec_stable.
Qed.

Lemma id_loop_requests end_no collected fuel : forall s r s',
  id_loop w cfg fuel end_no collected s = (r, s') ->
  exists l,
    post_requests (st_trace s') = post_requests (st_trace s) ++ l
    /\ l `prefix_of` uncollected collected (st_gall_no s) end_no
    /\ (r = Ok tt -> l = uncollected collected (st_gall_no s) end_no).
Proof.
  induction fuel as [|fuel IH]; intros s r s'; cbn [id_loop];
    rewrite (bind_ok get _ s s s) by done;
    destruct (st_gall_no s <=? end_no) eqn:Ele.
  - intros [= <- <-]. exists []. rewrite app_nil_r.
    split; [done|]. split; [apply prefix_nil|done].
  - intros [= <- <-]. exists []. rewrite app_nil_r.
    rewrite uncollected_empty by lia. done.
  - rewrite uncollected_first by lia. unfold bind at 1.
    destruct (id_body w cfg collected s) as [[[]|e|] s1] eqn:Eb;
      destruct (id_body_requests _ _ _ _ Eb) as (l1 & Ht1 & Hp1 & Hok1);
      pose proof (id_body_cursor _ _ _ _ _ _ Eb) as [Hnf Hc].
    + intros Hl. destruct (IH _ _ _ Hl) as (l2 & Ht2 & Hp2 & Hok2).
      rewrite Hc in Hp2, Hok2 by done. rewrite Hok1 in Ht1 by done.
      exists ((if bool_decide (st_gall_no s ∈ collected) then []
               else [st_gall_no s]) ++ l2).
      rewrite Ht2, Ht1, <- app_assoc. split; [done|].
      split; [by apply prefix_app|]. intros Hr. by rewrite Hok2.
    + intros [= <- <-]. exists l1. split; [done|].
      split; [|done]. etrans; [exact Hp1|]. by apply prefix_app_r.
    + done.
  - intros [= <- <-]. exists []. rewrite app_nil_r.
    rewrite uncollected_empty by lia. done.
Qed.

End IdModeRequests.

(** Without a signal nothing raises [KeyboardInterrupt]. *)
Section NoSignal.

Variable w : world.
Variable cfg : config.
Hypothesis no_signal : forall t, w_signal w t = false.

Lemma quiet_blocking : quiet (blocking w).
Proof. intros s. unfold blocking. by rewrite no_signal. Qed.

Lemma quiet_sleep : quiet (sleep w).
Proof. intros s. rewrite sleep_spec. by rewrite no_signal. Qed.

Lemma quiet_crawl_except_comment no : quiet (crawl_except_comment w cfg no).
Proof.
  unfold crawl_except_comment.
  apply quiet_bind; [by apply quiet_of_option|]. intros u.
  apply quiet_bind; [apply quiet_emit|]. intros _.
  apply quiet_bind; [apply quiet_blocking|]. intros t.
  destruct (w_post w t no) as [|p].
  { apply quiet_bind; [apply quiet_emit|]. intros _. apply quiet_ret. }
  destruct (pg_date p) as [d|].
  2: { apply quiet_bind; [apply quiet_emit|]. intros _. apply quiet_ret. }
  apply quiet_bind.
  { destruct (parse_date d); [apply quiet_ret|by apply quiet_raise]. }
  intros ?. repeat (apply quiet_bind; [by apply quiet_of_option|]; intros ?).
  apply quiet_ret.
Qed.

Lemma quiet_crawl_comments no : quiet (crawl_comments w cfg no).
Proof.
  unfold crawl_comments.
  apply quiet_bind; [by apply quiet_of_option|]. intros u.
  apply quiet_bind; [apply quiet_emit|]. intros _.
  apply quiet_bind; [apply quiet_blocking|]. intros t.
  destruct (w_comments w t no).
  - by apply quiet_raise.
  - apply quiet_bind; [apply quiet_emit|]. intros _. apply quiet_ret.
  - apply quiet_ret.
  - apply quiet_bind; [apply quiet_emit|]. intros _. apply quiet_ret.
Qed.

Lemma quiet_process_article no c : quiet (process_article w cfg no c).
Proof.
  unfold process_article.
  apply quiet_bind; [apply quiet_crawl_except_comment|].
  intros [a|]; [|apply quiet_ret].
  destruct c; [|apply quiet_ret].
  apply quiet_bind; [apply quiet_crawl_comments|].
  intros [cs|]; apply quiet_ret.
Qed.

Lemma quiet_flush : quiet flush.
Proof. intros s. apply flush_never_interrupted. Qed.

Lemma quiet_flush_if_full : quiet (flush_if_full cfg).
Proof.
  intros s. unfold flush_if_full. rewrite (bind_ok get _ s s s) by done.
  destruct (_ <=? _); [apply quiet_flush|done].
Qed.

Lemma quiet_get_bind {A} (k : state -> M A) :
  (forall s0, quiet (k s0)) -> quiet (bind get k).
Proof. intros Hk s. unfold bind, get. apply Hk. Qed.

Lemma quiet_id_body collected : quiet (id_body w cfg collected).
Proof.
  unfold id_body. apply quiet_get_bind. intros s0. cbv zeta.
  destruct (bool_decide _).
  { apply quiet_bind; [apply quiet_emit|]. by intros _ s. }
  apply quiet_bind; [apply quiet_emit|]. intros _.
  apply quiet_bind; [apply quiet_process_article|]. intros a.
  apply quiet_bind.
  { destruct a; [|apply quiet_ret]. by intros s. }
  intros _. apply quiet_bind; [apply quiet_flush_if_full|]. intros _.
  apply quiet_bind; [by intros s|]. intros _. apply quiet_sleep.
Qed.

Lemma quiet_id_loop fuel end_no collected :
  quiet (id_loop w cfg fuel end_no collected).
Proof.
  induction fuel as [|fuel IH]; cbn [id_loop]; apply quiet_get_bind;
    intros s0; destruct (_ <=? _); try (by intros s).
  apply quiet_bind; [apply quiet_id_body|]. intros _. apply IH.
Qed.

End NoSignal.

(** The loader returns [loaded] of the file and writes nothing but its
    warning. *)
Lemma load_collected_gall_no_loaded s c s' :
  load_collected_gall_no s = (Ok c, s') -> c = loaded (st_store s).
Proof.
  unfold load_collected_gall_no, loaded.
  rewrite (bind_ok get _ s s s) by done.
  destruct (st_store s) as [ls|]; [|by intros [= <- <-]].
  destruct (load_lines ls ∅); by intros [= <- <-].
Qed.

Section RequestsOfChecks.

Variable w : world.
Variable cfg : config.

Lemma same_requests_refl s : same_requests s s.
Proof. done. Qed.

Lemma same_requests_trans s1 s2 s3 :
  same_requests s1 s2 -> same_requests s2 s3 -> same_requests s1 s3.
Proof. unfold same_requests. congruence. Qed.

Lemma same_requests_set_gall_no g : always same_requests (set_gall_no g).
Proof. intros st r st' [= <- <-]. reflexivity. Qed.

Lemma http_get_listing_requests : always same_requests (http_get_listing w cfg).
Proof.
  intros s r s' H.
  destruct (http_get_listing_cases _ _ _ _ _ H) as [(_ & _ & ->)|(u & _ & -> & _)];
    [done|].
  unfold same_requests. cbn. rewrite post_requests_app. cbn.
  by rewrite app_nil_r.
Qed.

Lemma check_gallery_conditions_requests :
  always same_requests (check_gallery_conditions w cfg).
Proof.
  unfold check_gallery_conditions.
  apply (always_bind same_requests_trans); [apply http_get_listing_requests|].
  intros response. destruct (_ =? _);
    [apply (always_raise same_requests_refl)
    |apply (always_ret same_requests_refl)].
Qed.

Lemma check_scrapping_conditions_requests :
  always same_requests (check_scrapping_conditions w cfg).
Proof.
  unfold check_scrapping_conditions.
  repeat match goal with
         | |- always _ (if ?b then _ else _) => destruct b
         | |- always _ (match ?x with _ => _ end) => destruct x
         end;
    repeat match goal with
      | |- always _ (bind _ _) =>
          apply (always_bind same_requests_trans); [|intros ?]
      | |- always _ (ret _) => apply (always_ret same_requests_refl)
      | |- always _ (raise _) => apply (always_raise same_requests_refl)
      | |- always _ (of_option _ _) =>
          apply (always_of_option same_requests_refl)
      | |- always _ (set_gall_no _) => apply same_requests_set_gall_no
      | |- always _ (http_get_listing _ _) => apply http_get_listing_requests
      end.
Qed.

(** With both post numbers given, the bounds check that passes has
    chosen the id mode and put the cursor on the first number. *)
Lemma check_scrapping_conditions_by_gall_no a b s mode s' :
  start_gall_no cfg = Some a -> end_gall_no cfg = Some b ->
  check_scrapping_conditions w cfg s = (Ok mode, s') ->
  mode = ByGallNo b /\ st_gall_no s' = a /\ a <= b.
Proof.
  intros Ha Hb. unfold check_scrapping_conditions, has_gall_no_range.
  rewrite Ha, Hb. intros H.
  rewrite !bool_decide_eq_true_2 in H by done. cbn [andb orb negb] in H.
  repeat match type of H with
         | (if ?c then _ else _) _ = _ => destruct c eqn:?
         end; try done.
  unfold bind, set_gall_no, ret in H. injection H as <- <-.
  cbn. repeat split. lia.
Qed.

End RequestsOfChecks.

Lemma traverse_by_gall_no_requests w cfg fuel end_no collected s r s' :
  traverse w cfg fuel (ByGallNo end_no) collected s = (r, s') ->
  exists l,
    post_requests (st_trace s') = post_requests (st_trace s) ++ l
    /\ l `prefix_of` uncollected collected (st_gall_no s) end_no
    /\ (r = Ok tt -> l = uncollected collected (st_gall_no s) end_no).
Proof.
  unfold traverse. unfold bind at 1. cbn [log emit].
  set (s0 := mk_state _ _ _ _ _).
  assert (Hs0 : post_requests (st_trace s0) = post_requests (st_trace s)).
  { cbn. by rewrite post_requests_app, app_nil_r. }
  change (st_gall_no s) with (st_gall_no s0). rewrite <- Hs0.
  unfold bind at 1.
  destruct (id_loop w cfg fuel end_no collected s0) as [[[]|e|] s1] eqn:El;
    destruct (id_loop_requests _ _ _ _ _ _ _ _ El) as (l & Ht & Hp & Hok).
  - intros Hf. exists l. split; [|by auto].
    rewrite <- Ht. apply steps_no_request.
    by apply (flush_steps no_post_request) in Hf.
  - intros [= <- <-]. by exists l.
  - intros [= <- <-]. by exists l.
Qed.

Lemma quiet_traverse_by_gall_no w cfg fuel end_no collected :
  (forall t, w_signal w t = false) ->
  quiet (traverse w cfg fuel (ByGallNo end_no) collected).
Proof.
  intros Hw. unfold traverse.
  apply quiet_bind; [apply quiet_emit|]. intros _.
  apply quiet_bind; [by apply quiet_id_loop|]. intros _. apply quiet_flush.
Qed.

(** X5. In id mode a run asks the board for the posts of the range that
    the store does not hold yet, in ascending order and each once: the
    posts requested form a prefix of that list however the run ends, and
    the whole list when the run returns without having been
    interrupted. *)
Theorem id_mode_requests_follow_the_range
    (w : world) (cfg : config) (fuel : nat) (file : option (list line))
    (a b : Z) (r : result unit) (s' : state) :
  start_gall_no cfg = Some a -> end_gall_no cfg = Some b ->
  run w cfg fuel (init_state file) = (r, s') ->
  post_requests (st_trace s') `prefix_of` uncollected (loaded file) a b
  /\ ((forall t, w_signal w t = false) -> r = Ok tt ->
      post_requests (st_trace s') = uncollected (loaded file) a b).
Proof.
  intros Ha Hb. rewrite run_unfold.
  destruct ((check_gallery_conditions w cfg;;
             check_scrapping_conditions w cfg) (init_state file))
    as [[mode|e|] s2] eqn:E1.
  2,3: intros [= <- <-];
       pose proof (always_bind same_requests_trans _ _
                     (check_gallery_conditions_requests w cfg)
                     (fun _ => check_scrapping_conditions_requests w cfg)
                     _ _ _ E1) as Hr;
       unfold same_requests in Hr; cbn in Hr; rewrite Hr;
       (split; [apply prefix_nil|done]).
  pose proof (always_bind same_requests_trans _ _
                (check_gallery_conditions_requests w cfg)
                (fun _ => check_scrapping_conditions_requests w cfg)
                _ _ _ E1) as Hr2.
  unfold same_requests in Hr2. cbn in Hr2.
  apply bind_ok_inv in E1 as ([] & s1 & Eg & Es).
  destruct (check_scrapping_conditions_by_gall_no _ _ _ _ _ _ _ Ha Hb Es)
    as (-> & Hcur & Hab).
  assert (Hfile : st_store s2 = file).
  { destruct (check_gallery_conditions_data _ _ _ _ _ Eg) as [_ H1].
    destruct (check_scrapping_conditions_data _ _ _ _ _ Es) as (_ & H2 & _).
    by rewrite H2, H1. }
  destruct (load_collected_gall_no s2) as [[c|e|] s3] eqn:E2.
  2,3: destruct (load_collected_gall_no_ok s2) as (? & ? & Hl);
       rewrite Hl in E2; discriminate.
  pose proof (load_collected_gall_no_loaded _ _ _ E2) as Hc.
  rewrite Hfile in Hc. subst c.
  assert (Hr3 : post_requests (st_trace (ready cfg s3)) = []).
  { cbn. rewrite post_requests_app. cbn. rewrite app_nil_r, <- Hr2.
    apply steps_no_request.
    by apply (load_collected_gall_no_steps no_post_request) in E2. }
  assert (Hc3 : st_gall_no (ready cfg s3) = a).
  { destruct (load_collected_gall_no_ok s2) as (? & ? & Hl).
    rewrite Hl in E2. injection E2 as _ E3. by rewrite <- E3. }
  unfold try_finally, try_except_interrupt.
  destruct (traverse w cfg fuel (ByGallNo b) (loaded file) (ready cfg s3))
    as [rt s4] eqn:Et.
  destruct (traverse_by_gall_no_requests _ _ _ _ _ _ _ _ Et)
    as (l & Ht & Hp & Hok).
  rewrite Hr3, Hc3 in *. cbn in Ht.
  assert (Hq : forall s5 r5 s6,
             post_requests (st_trace s5) = l ->
             match driver_quit s5 with
             | (Ok _, s'') => (r5, s'')
             | (Raise e, s'') => (Raise e, s'')
             | (NoFuel, s'') => (NoFuel, s'')
             end = (r, s6) ->
             post_requests (st_trace s6) = l /\ r = r5).
  { intros s5 r5 s6 H5 [= <- <-]. cbn. rewrite post_requests_app. cbn.
    by rewrite app_nil_r. }
  assert (Hflush : forall r5 s5, flush s4 = (r5, s5) ->
                                 post_requests (st_trace s5) = l).
  { intros r5 s5 Hf. rewrite <- Ht. apply steps_no_request.
    by apply (flush_steps no_post_request) in Hf. }
  destruct rt as [[]|e|].
  - intros H. destruct (Hq _ _ _ Ht H) as [-> _]. split; [done|].
    intros _ _. by apply Hok.
  - assert (Hquiet : (forall t, w_signal w t = false) ->
                     e <> KeyboardInterrupt).
    { intros Hw ->.
      pose proof (quiet_traverse_by_gall_no w cfg fuel b (loaded file) Hw
                    (ready cfg s3)) as Hn. by rewrite Et in Hn. }
    destruct e.
    + destruct (flush s4) as [[[]|e|] s5] eqn:Ef;
        pose proof (Hflush _ _ eq_refl) as H5.
      * intros H. destruct (Hq _ _ _ H5 H) as [-> _]. split; [done|].
        intros Hw _. by destruct (Hquiet Hw).
      * intros H. destruct (Hq _ _ _ H5 H) as [-> ->]. by split.
      * intros [= <- <-]. rewrite H5. by split.
    + intros H. destruct (Hq _ _ _ Ht H) as [-> ->]. by split.
    + intros H. destruct (Hq _ _ _ Ht H) as [-> ->]. by split.
    + intros H. destruct (Hq _ _ _ Ht H) as [-> ->]. by split.
    + intros H. destruct (Hq _ _ _ Ht H) as [-> ->]. by split.
    + intros H. destruct (Hq _ _ _ Ht H) as [-> ->]. by split.
    + intros H. destruct (Hq _ _ _ Ht H) as [-> ->]. by split.
  - intros [= <- <-]. rewrite Ht. by split.
Qed.

Lemma id_mode_requests_follow_the_range_witness :
  post_requests
    (st_trace (run Scenario.board (Scenario.by_id (Some 2) (Some 5)) 10
                 (init_state None)).2)
  = uncollected (loaded None) 2 5.
Proof.
  destruct (id_mode_requests_follow_the_range Scenario.board
              (Scenario.by_id (Some 2) (Some 5)) 10 None 2 5 (Ok tt)
              (run Scenario.board (Scenario.by_id (Some 2) (Some 5)) 10
                 (init_state None)).2 eq_refl eq_refl)
    as [_ H].
  - vm_compute. reflexivity.
  - apply H; reflexivity.
Defined.

(** ** An id-mode run ends *)

Lemma http_get_listing_fuel w cfg s : (http_get_listing w cfg s).1 <> NoFuel.
Proof. unfold http_get_listing, blocking. branches; done. Qed.

Lemma checks_fuel w cfg s :
  ((check_gallery_conditions w cfg;; check_scrapping_conditions w cfg) s).1
  <> NoFuel.
Proof.
  unfold bind at 1. unfold check_gallery_conditions. unfold bind at 1.
  pose proof (http_get_listing_fuel w cfg s) as H1.
  destruct (http_get_listing w cfg s) as [[resp|e|] st1]; [|done..].
  destruct (fst resp =? 404); [done|]. cbn [ret].
  unfold check_scrapping_conditions.
  repeat match goal with
         | |- ((if ?c then _ else _) _).1 <> _ => destruct c
         | |- (match ?x with _ => _ end _).1 <> _ => destruct x
         end; try done.
  unfold bind at 1.
  pose proof (http_get_listing_fuel w cfg st1) as H2.
  destruct (http_get_listing w cfg st1) as [[resp2|e|] st2]; [|done..].
  unfold bind at 1.
  by destruct (select_recent_gall_no resp2.2).
Qed.

Lemma flush_fuel s : (flush s).1 <> NoFuel.
Proof.
  rewrite flush_spec.
  destruct (save_outcome_cases (st_batch s)) as [-> | [-> | ->]]; done.
Qed.

(** X6. An id-mode run ends: with one unit of fuel for every post number
    of the range, the run returns or raises, whatever the board answers
    and whatever the store holds. *)
Theorem id_mode_run_ends
    (w : world) (cfg : config) (fuel : nat) (s : state) (a b : Z) :
  start_gall_no cfg = Some a -> end_gall_no cfg = Some b ->
  (Z.to_nat (b - a + 1) <= fuel)%nat ->
  (run w cfg fuel s).1 <> NoFuel.
Proof.
  intros Ha Hb Hfuel. rewrite run_unfold.
  pose proof (checks_fuel w cfg s) as Hc.
  destruct ((check_gallery_conditions w cfg;;
             check_scrapping_conditions w cfg) s) as [[mode|e|] s2] eqn:E1;
    [|done..].
  apply bind_ok_inv in E1 as ([] & s1 & Eg & Es).
  destruct (check_scrapping_conditions_by_gall_no _ _ _ _ _ _ _ Ha Hb Es)
    as (-> & Hcur & Hab).
  destruct (load_collected_gall_no_ok s2) as (c & l & ->).
  unfold try_finally, try_except_interrupt.
  match goal with
  | |- context [traverse w cfg fuel (ByGallNo b) c ?st] => set (s3 := st)
  end.
  assert (Ht : (traverse w cfg fuel (ByGallNo b) c s3).1 <> NoFuel).
  { unfold traverse.
    rewrite (bind_ok (log Info MsgCrawlByGallNo) _ s3 tt
               (logged s3 Info MsgCrawlByGallNo)) by done.
    pose proof (id_loop_terminates w cfg c b fuel
                  (logged s3 Info MsgCrawlByGallNo)) as Hl.
    assert (Hg : st_gall_no (logged s3 Info MsgCrawlByGallNo) = a)
      by (by unfold s3).
    rewrite Hg in Hl. specialize (Hl Hfuel). unfold bind at 1.
    destruct (id_loop w cfg fuel b c _) as [[[]|e|] s4]; [|done..].
    apply flush_fuel. }
  destruct (traverse w cfg fuel (ByGallNo b) c s3) as [[[]|e|] s4];
    [done| |done].
  destruct e; try done.
  pose proof (flush_fuel s4) as Hf.
  by destruct (flush s4) as [[[]|e|] s5].
Qed.

Lemma id_mode_run_ends_witness :
  (run Scenario.board (Scenario.by_id (Some 1) (Some 5)) 5
     (init_state None)).1 <> NoFuel.
Proof.
  apply (id_mode_run_ends Scenario.board (Scenario.by_id (Some 1) (Some 5))
           5 (init_state None) 1 5); [reflexivity|reflexivity|].
  vm_compute. lia.
Defined.

(** ** The store: what a save writes and what the loader reads *)

Lemma load_lines_unusable ls : forall acc,
  LUnusable ∈ ls -> load_lines ls acc = None.
Proof.
  induction ls as [|[a| |] ls IH]; intros acc Hin; cbn.
  - by apply not_elem_of_nil in Hin.
  - apply IH. by apply elem_of_cons in Hin as [?|?].
  - apply IH. by apply elem_of_cons in Hin as [?|?].
  - done.
Qed.

(** X7. One line whose [gall_no] cannot be read makes the loader give up
    the whole file: it logs the warning and returns the empty set, also
    for the records that precede that line. *)
Theorem unusable_line_empties_the_loaded_set (s : state) (ls : list line) :
  st_store s = Some ls -> LUnusable ∈ ls ->
  load_collected_gall_no s = (Ok ∅, logged s Warning MsgLoadFailed).
Proof.
  intros Hs Hin. unfold load_collected_gall_no.
  rewrite (bind_ok get _ s s s) by done.
  by rewrite Hs, (load_lines_unusable _ _ Hin).
Qed.

Lemma unusable_line_empties_the_loaded_set_witness :
  load_collected_gall_no
    (init_state
       (Some [LRecord (mk_stored 7 None "t" 1 "c" 0 0 []); LUnusable]))
  = (Ok ∅,
     logged (init_state
               (Some [LRecord (mk_stored 7 None "t" 1 "c" 0 0 []);
                      LUnusable]))
       Warning MsgLoadFailed).
Proof.
  apply (unusable_line_empties_the_loaded_set _
           [LRecord (mk_stored 7 None "t" 1 "c" 0 0 []); LUnusable]).
  - reflexivity.
  - apply elem_of_cons. right. apply elem_of_cons. by left.
Defined.

(** The loader on a file it can read: no log line, and the numbers of the
    records. *)
Lemma load_collected_gall_no_readable s ls :
  st_store s = Some ls -> LUnusable ∉ ls ->
  exists c, load_collected_gall_no s = (Ok c, s)
            /\ forall g, g ∈ c <-> g ∈ line_ids ls.
Proof.
  intros Hs Hok. unfold load_collected_gall_no.
  rewrite (bind_ok get _ s s s) by done. rewrite Hs.
  destruct (load_lines_elements ls ∅ Hok) as (c & -> & Hc).
  exists c. split; [done|]. intros g. rewrite Hc.
  rewrite elem_of_empty. tauto.
Qed.

(** The lines a save writes are the records of the entries before the
    first one it cannot serialise. *)
Lemma written_lines_spec b :
  exists (saved : list ArticleData) (rest : list (option ArticleData)),
    b = map Some saved ++ rest
    /\ Forall2 (fun (a : ArticleData) l =>
                  exists sa, to_stored a = Some sa /\ l = LRecord sa)
         saved (written_lines b)
    /\ match save_outcome b with
       | Ok _ => rest = []
       | Raise e =>
           exists x rest', rest = x :: rest'
             /\ match x with
                | None => e = AttributeError
                | Some a => to_stored a = None
                            /\ e = ValueError InvalidLiteral
                end
       | NoFuel => False
       end.
Proof.
  induction b as [|[a|] b (saved & rest & Hb & Hw & Ho)]; cbn.
  - by exists [], [].
  - destruct (to_stored a) as [sa|] eqn:Ea.
    + exists (a :: saved), rest. cbn. rewrite Hb at 1. split; [done|].
      split; [|done]. constructor; [by exists sa|done].
    + exists [], (Some a :: b). cbn. split; [done|]. split; [constructor|].
      by exists (Some a), b.
  - exists [], (None :: b). cbn. split; [done|]. split; [constructor|].
    by exists None, b.
Qed.



(** X9. What a save wrote the loader reads back: after a save that
    returned, on a store the loader could read before, the loader logs
    nothing and returns the numbers it would have returned before
    together with those of the saved records. *)
Theorem saved_records_are_loaded
    (b : list (option ArticleData)) (s s1 : state) :
  LUnusable ∉ store_lines s ->
  save_data_in_batch b s = (Ok tt, s1) ->
  exists c,
    load_collected_gall_no s1 = (Ok c, s1)
    /\ forall g, g ∈ c <->
         g ∈ line_ids (store_lines s)
         \/ exists a : ArticleData, Some a ∈ b /\ gall_no a = g.
Proof.
  intros Hok. rewrite save_data_in_batch_spec. intros [= Ho <-].
  destruct (written_lines_spec b) as (saved & rest & Hb & Hw & Hr).
  rewrite Ho in Hr. subst rest. rewrite app_nil_r in Hb.
  assert (Hun : LUnusable ∉ written_lines b).
  { clear -Hw. induction Hw as [|a l ? ? (sa & _ & ->) _ IH].
    - apply not_elem_of_nil.
    - intros Hin. by apply elem_of_cons in Hin as [?|?]. }
  assert (Hids : line_ids (written_lines b)
                 = map (fun a : ArticleData => gall_no a) saved).
  { clear -Hw. induction Hw as [|a l ? ? (sa & Ha & ->) _ IH]; [done|].
    cbn. unfold line_ids in IH. rewrite IH.
    by rewrite (to_stored_gall_no _ _ Ha). }
  destruct (load_collected_gall_no_readable
              (with_store s (store_lines s ++ written_lines b))
              (store_lines s ++ written_lines b) eq_refl) as (c & Hl & Hc).
  { intros Hin. apply elem_of_app in Hin as [?|?]; [by apply Hok|done]. }
  exists c. split; [done|]. intros g.
  rewrite Hc, line_ids_app, elem_of_app, Hids, Hb.
  split; (intros [?|Hg]; [by left|right]).
  - apply list_elem_of_fmap in Hg as (a & -> & Ha). exists a.
    split; [|done]. by apply list_elem_of_fmap_2.
  - destruct Hg as (a & Ha & <-).
    apply list_elem_of_fmap in Ha as (a' & [= ->] & Ha').
    by apply (list_elem_of_fmap_2 (fun a : ArticleData => gall_no a)).
Qed.

Lemma saved_records_are_loaded_witness :
  exists c,
    load_collected_gall_no
      (save_data_in_batch [Some (Scenario.fetched 4 Scenario.jun_06)]
         (init_state None)).2
    = (Ok c,
       (save_data_in_batch [Some (Scenario.fetched 4 Scenario.jun_06)]
          (init_state None)).2)
    /\ forall g, g ∈ c <->
         g ∈ line_ids (store_lines (init_state None))
         \/ exists a : ArticleData,
              Some a ∈ [Some (Scenario.fetched 4 Scenario.jun_06)]
              /\ gall_no a = g.
Proof.
  apply (saved_records_are_loaded
           [Some (Scenario.fetched 4 Scenario.jun_06)] (init_state None)).
  - apply not_elem_of_nil.
  - vm_compute. reflexivity.
Defined.

(** ** The gallery type *)

(** X10. A gallery type other than 'main', 'minor' and 'mini' ends the
    run with the [ValueError] of [make_url_for_article] before anything
    has happened: no request, no log line, and the browser stays open. *)
Theorem unknown_gallery_type_ends_run_at_once
    (w : world) (cfg : config) (fuel : nat) (s : state) :
  gall_type cfg <> "main" -> gall_type cfg <> "minor" ->
  gall_type cfg <> "mini" ->
  run w cfg fuel s = (Raise (ValueError InvalidGalleryType), s).
Proof.
  intros H1 H2 H3.
  assert (Hu : make_url_for_article (gall_type cfg) (gallery_id cfg) 1
               = None).
  { unfold make_url_for_article.
    by rewrite (bool_decide_eq_false_2 _ H1), (bool_decide_eq_false_2 _ H2),
         (bool_decide_eq_false_2 _ H3). }
  unfold run, check_gallery_conditions, http_get_listing.
  by rewrite Hu.
Qed.

Lemma unknown_gallery_type_ends_run_at_once_witness :
  run Scenario.board
    (mk_config "forthegifted" "major" (Some 1) (Some 5) None None false 10)
    10 (init_state None)
  = (Raise (ValueError InvalidGalleryType), init_state None).
Proof.
  by apply (unknown_gallery_type_ends_run_at_once Scenario.board
              (mk_config "forthegifted" "major" (Some 1) (Some 5) None None
                 false 10) 10 (init_state None)).
Defined.

(** ** The starting post of a date-mode run *)

Lemma is_digit_not_space c : PyStr.is_digit c = true -> PyStr.is_space c = false.
Proof.
  unfold PyStr.is_digit, PyStr.is_space. cbv zeta.
  generalize (nat_of_ascii c). intros n H.
  apply andb_true_iff in H as [H1 H2].
  apply Nat.leb_le in H1, H2.
  apply orb_false_iff. split; apply andb_false_iff.
  - right. apply Nat.leb_gt. lia.
  - right. apply Nat.leb_gt. lia.
Qed.

Lemma all_digits_rstrip t : PyStr.all_digits t = true -> PyStr.rstrip t = t.
Proof.
  induction t as [|c t IH]; [done|]. cbn. intros H.
  apply andb_true_iff in H as [Hc Ht].
  by rewrite IH, (is_digit_not_space _ Hc).
Qed.

Lemma all_digits_lstrip t : PyStr.all_digits t = true -> PyStr.lstrip t = t.
Proof.
  destruct t as [|c t]; [done|]. cbn. intros H.
  apply andb_true_iff in H as [Hc Ht].
  by rewrite (is_digit_not_space _ Hc).
Qed.

Lemma digit_val_range c :
  PyStr.is_digit c = true -> 0 <= PyStr.digit_val c <= 9.
Proof.
  unfold PyStr.is_digit, PyStr.digit_val. cbv zeta.
  generalize (nat_of_ascii c). intros n H.
  apply andb_true_iff in H as [H1 H2].
  apply Nat.leb_le in H1, H2. lia.
Qed.

Lemma digits_go_all_digits t : forall acc p,
  PyStr.all_digits t = true -> 0 <= acc -> (p = true \/ t <> "") ->
  exists n, PyStr.digits_go acc p t = Some n /\ 0 <= n.
Proof.
  induction t as [|c t IH]; intros acc p Hd Hacc Hp; cbn.
  - destruct Hp as [->|?]; [|done]. by exists acc.
  - cbn in Hd. apply andb_true_iff in Hd as [Hc Ht]. rewrite Hc.
    apply IH; [done| |by left].
    pose proof (digit_val_range _ Hc). lia.
Qed.

(** [int()] accepts what [isdigit()] accepts, and the value is not
    negative. *)
Lemma isdigit_py_int t :
  PyStr.isdigit t = true -> exists n, PyStr.py_int t = Some n /\ 0 <= n.
Proof.
  unfold PyStr.isdigit, PyStr.py_int, PyStr.strip. intros H.
  apply andb_true_iff in H as [Hne Hd].
  rewrite (all_digits_rstrip _ Hd), (all_digits_lstrip _ Hd).
  destruct t as [|c t]; [done|].
  assert (Hc : PyStr.is_digit c = true).
  { cbn in Hd. by apply andb_true_iff in Hd as [? _]. }
  assert (Hgo : exists n,
             PyStr.digits_go 0 false (String c t) = Some n /\ 0 <= n).
  { apply digits_go_all_digits; [done|lia|by right]. }
  destruct (decide (c = "+"%char)) as [->|Hplus]; [done|].
  destruct (decide (c = "-"%char)) as [->|Hminus]; [done|].
  revert Hgo. clear -Hplus Hminus.
  destruct c as [[] [] [] [] [] [] [] []]; try done.
Qed.


(** ** [parse_date] reads the first token *)

Lemma append_cons c a b : String c a +:+ b = String c (a +:+ b).
Proof. reflexivity. Qed.

Lemma append_snoc cur c t : (cur +:+ String c "") +:+ t = cur +:+ String c t.
Proof.
  induction cur as [|d cur IH]; [done|]. rewrite !append_cons. by f_equal.
Qed.

Lemma append_empty_r a : a +:+ "" = a.
Proof. induction a as [|d a IH]; [done|]. rewrite append_cons. by f_equal. Qed.

Lemma append_empty_inv a b : a +:+ b = "" -> a = "" /\ b = "".
Proof. by destruct a. Qed.

Lemma split_ws_go_nil s : forall cur,
  PyStr.split_ws_go cur s = [] <-> cur = "" /\ blank s = true.
Proof.
  induction s as [|c s IH]; intros cur; cbn.
  - destruct (decide (cur = "")); split; try done. by intros [? _].
  - destruct (PyStr.is_space c); cbn.
    + destruct (decide (cur = "")) as [->|Hc].
      * rewrite IH. tauto.
      * split; [done|]. by intros [? _].
    + rewrite IH. split; [|by intros [_ ?]].
      intros [H _]. apply append_empty_inv in H as [_ ?]. done.
Qed.

Lemma split_ws_go_solid tok : forall cur r,
  solid tok = true ->
  PyStr.split_ws_go cur (tok +:+ r) = PyStr.split_ws_go (cur +:+ tok) r.
Proof.
  induction tok as [|c tok IH]; intros cur r Hs.
  - by rewrite append_empty_r.
  - rewrite append_cons. cbn [PyStr.split_ws_go]. cbn in Hs. apply andb_true_iff in Hs as [Hc Ht].
    apply negb_true_iff in Hc. rewrite Hc.
    rewrite IH by done. by rewrite append_snoc.
Qed.

(** X12. [parse_date] raises the [IndexError] of [text.split()[0]]
    exactly on text that holds nothing but whitespace; on any other text
    it returns a date or [None]. *)
Theorem parse_date_index_error_iff_blank (text : string) :
  parse_date text = ParseIndexError <-> blank text = true.
Proof.
  unfold parse_date, PyStr.split_ws.
  pose proof (split_ws_go_nil text "") as H.
  destruct (PyStr.split_ws_go "" text) as [|dt l].
  - split; [|done]. intros _. by apply H.
  - split; [done|]. intros Hb. by destruct H as [_ H]; specialize (H (conj eq_refl Hb)).
Qed.

(** X13. [parse_date] looks at the first whitespace-separated token
    only: whatever follows it, the time of day of a post page for one, has
    no influence on the result. *)
Theorem parse_date_ignores_what_follows_the_date
    (tok : string) (c : ascii) (rest : string) :
  solid tok = true -> tok <> "" -> PyStr.is_space c = true ->
  parse_date (tok +:+ String c rest) = ParsedDate (strptime tok).
Proof.
  intros Hs Hne Hc. unfold parse_date, PyStr.split_ws.
  rewrite split_ws_go_solid by done. cbn [PyStr.split_ws_go]. rewrite Hc.
  change ("" +:+ tok) with tok.
  by destruct (decide (tok = "")).
Qed.

Lemma parse_date_ignores_what_follows_the_date_witness :
  parse_date "2025.05.26 12:34:56" = ParsedDate (strptime "2025.05.26").
Proof.
  by apply (parse_date_ignores_what_follows_the_date "2025.05.26" " "
              "12:34:56").
Defined.

(** ** What the bounds check has established when it returns *)

(** The mode the bounds check resolved, and the dates of the window. *)
Lemma check_scrapping_conditions_mode w cfg s mode s' :
  check_scrapping_conditions w cfg s = (Ok mode, s') ->
  match mode with
  | ByGallNo _ => has_gall_no_range cfg = true
  | ByDate sd ed =>
      exists st_txt et_txt,
        start_date cfg = Some st_txt /\ end_date cfg = Some et_txt
        /\ strptime st_txt = Some sd /\ strptime et_txt = Some ed
  end.
Proof.
  unfold check_scrapping_conditions.
  destruct (xorb (truthy_int (start_gall_no cfg))
              (truthy_int (end_gall_no cfg))); [done|].
  destruct (xorb (truthy_str (start_date cfg)) (truthy_str (end_date cfg)));
    [done|].
  destruct (has_gall_no_range cfg) eqn:Eg, (has_date_range cfg) eqn:Ed;
    cbn [orb andb negb]; try done.
  - destruct (start_gall_no cfg) as [a|], (end_gall_no cfg) as [e|];
      try done.
    destruct (e <? a); [done|]. by intros [= <- <-].
  - destruct (start_date cfg) as [st_txt|], (end_date cfg) as [et_txt|];
      try done.
    destruct (strptime st_txt) as [sd|] eqn:Es; [|done].
    destruct (strptime et_txt) as [ed|] eqn:Ee; [|done].
    destruct (dt_ltb ed sd); [done|].
    unfold bind at 1.
    destruct (http_get_listing w cfg s) as [[resp|e|] s1]; [|done..].
    unfold bind at 1.
    destruct (select_recent_gall_no resp.2) as [n|]; [|done].
    intros [= <- <-]. by exists st_txt, et_txt.
Qed.


(** X14. When [check_scrapping_conditions] returns in id mode, both post
    numbers were given, the first is not above the last, the cursor is on
    the first and no request was sent; the pair 0, 0 passes.  In date
    mode both dates parsed, the first is not after the last, and the
    cursor is on the post [select_recent_gall_no] picked from a listing
    that was requested once and whose status was not looked at. *)
Theorem accepted_bounds
    (w : world) (cfg : config) (s : state) (mode : resolved) (s' : state) :
  check_scrapping_conditions w cfg s = (Ok mode, s') ->
  match mode with
  | ByGallNo e =>
      exists a,
        start_gall_no cfg = Some a /\ end_gall_no cfg = Some e
        /\ a <= e /\ (a = 0 <-> e = 0)
        /\ has_date_range cfg = false
        /\ s' = mk_state a (st_batch s) (st_store s) (st_trace s)
                  (st_clock s)
  | ByDate sd ed =>
      exists st_txt et_txt u status rows n,
        start_date cfg = Some st_txt /\ end_date cfg = Some et_txt
        /\ strptime st_txt = Some sd /\ strptime et_txt = Some ed
        /\ dt_leb sd ed = true
        /\ has_gall_no_range cfg = false
        /\ make_url_for_article (gall_type cfg) (gallery_id cfg) 1 = Some u
        /\ w_listing w (st_clock s) = ListResp status rows
        /\ select_recent_gall_no rows = Some n
        /\ s' = mk_state n (st_batch s) (st_store s)
                  (st_trace s ++ [EvGet (listing_url u)]) (S (st_clock s))
  end.
Proof.
  unfold check_scrapping_conditions.
  destruct (xorb (truthy_int (start_gall_no cfg))
              (truthy_int (end_gall_no cfg))) eqn:Ex; [done|].
  destruct (xorb (truthy_str (start_date cfg)) (truthy_str (end_date cfg)));
    [done|].
  destruct (has_gall_no_range cfg) eqn:Eg, (has_date_range cfg) eqn:Ed;
    cbn [orb andb negb]; try done.
  - destruct (start_gall_no cfg) as [a|], (end_gall_no cfg) as [e|];
      try done.
    destruct (e <? a) eqn:Ele; [done|]. intros [= <- <-].
    exists a. repeat split; try done; try lia.
    + intros ->. cbn in Ex. by destruct (e =? 0) eqn:E0; [lia|].
    + intros ->. cbn in Ex. by destruct (a =? 0) eqn:E0; [lia|].
  - destruct (start_date cfg) as [st_txt|], (end_date cfg) as [et_txt|];
      try done.
    destruct (strptime st_txt) as [sd|] eqn:Es; [|done].
    destruct (strptime et_txt) as [ed|] eqn:Ee; [|done].
    destruct (dt_ltb ed sd) eqn:Elt; [done|].
    unfold bind at 1.
    destruct (http_get_listing w cfg s) as [[resp|e|] s1] eqn:Eh; [|done..].
    destruct (http_get_listing_cases _ _ _ _ _ Eh)
      as [(_ & ? & _)|(u & Hu & -> & Hr)]; [done|].
    destruct (w_signal w (st_clock s)); [done|].
    destruct (w_listing w (st_clock s)) as [|status rows] eqn:El; [done|].
    injection Hr as ->. cbn [snd].
    unfold bind at 1.
    destruct (select_recent_gall_no rows) as [n|] eqn:En; [|done].
    intros [= <- <-].
    exists st_txt, et_txt, u, status, rows, n. repeat split; try done.
    unfold dt_leb. by rewrite Elt.
Qed.

Lemma accepted_bounds_witness :
  exists a,
    start_gall_no (Scenario.by_id (Some 0) (Some 0)) = Some a
    /\ end_gall_no (Scenario.by_id (Some 0) (Some 0)) = Some 0
    /\ a <= 0 /\ (a = 0 <-> 0 = 0)
    /\ has_date_range (Scenario.by_id (Some 0) (Some 0)) = false
    /\ mk_state 0 [] None [] 0
       = mk_state a (st_batch (init_state None)) (st_store (init_state None))
           (st_trace (init_state None)) (st_clock (init_state None)).
Proof.
  by apply (accepted_bounds Scenario.board (Scenario.by_id (Some 0) (Some 0))
              (init_state None) (ByGallNo 0) (mk_state 0 [] None [] 0)).
Defined.

(** ** The browser *)

(** X15. A crawler built with [is_crawl_comments=False] never asks the
    browser for a page, in either mode and however the run ends. *)
Theorem browser_unused_without_comments
    (w : world) (cfg : config) (fuel : nat) (s : state)
    (r : result unit) (s' : state) :
  is_crawl_comments cfg = false ->
  run w cfg fuel s = (r, s') ->
  exists evs, st_trace s' = st_trace s ++ evs /\ Forall not_driver_get evs.
Proof.
  intros Hc Hrun.
  assert (always (steps not_driver_get) (run w cfg fuel)) as H.
  { unfold run.
    apply (run_before_try_steps not_driver_get); try done.
    - intros mode c.
      apply (always_try_finally (steps_trans _)).
      + apply run_steps_before_quit; try done. intros Ht. congruence.
      + by apply steps_emit.
    - intros s1 s2 s3. apply steps_trans. }
  by destruct (H _ _ _ Hrun) as (? & _).
Qed.

Lemma browser_unused_without_comments_witness :
  exists evs,
    st_trace (run Scenario.board (Scenario.by_date false) 10
                (init_state None)).2
    = st_trace (init_state None) ++ evs
    /\ Forall not_driver_get evs.
Proof.
  exact (browser_unused_without_comments Scenario.board
           (Scenario.by_date false) 10 (init_state None) _ _ eq_refl
           (surjective_pairing _)).
Defined.

(** ** The threshold of the batch *)

Section EnsuresRules.

Context {Stop Exc : state -> Prop}.

Lemma ensures_ret {A} (P Q : state -> Prop) (a : A) :
  (forall s, P s -> Q s) -> ensures P Q Stop Exc (ret a).
Proof. intros H s r s' Hp [= <- <-]. by apply H. Qed.

Lemma ensures_raise {A} (P Q : state -> Prop) e :
  e <> KeyboardInterrupt -> (forall s, P s -> Exc s) ->
  ensures P Q Stop Exc (raise (A:=A) e).
Proof. intros He H s r s' Hp [= <- <-]. destruct e; try done; by apply H. Qed.

Lemma ensures_of_option {A} (P Q : state -> Prop) e (o : option A) :
  e <> KeyboardInterrupt -> (forall s, P s -> Q s) ->
  (forall s, P s -> Exc s) ->
  ensures P Q Stop Exc (of_option e o).
Proof.
  intros He H1 H2. destruct o; [by apply ensures_ret|by apply ensures_raise].
Qed.

Lemma ensures_out_of_fuel {A} (P Q : state -> Prop) :
  (forall s, P s -> Stop s) -> ensures P Q Stop Exc (out_of_fuel (A:=A)).
Proof. intros H s r s' Hp [= <- <-]. by apply H. Qed.

Lemma ensures_bind {A B} (P Q R : state -> Prop) (m : M A) (k : A -> M B) :
  ensures P Q Stop Exc m -> (forall a, ensures Q R Stop Exc (k a)) ->
  ensures P R Stop Exc (bind m k).
Proof.
  intros Hm Hk s r s' Hp. unfold bind.
  destruct (m s) as [[a|e|] s1] eqn:E; specialize (Hm _ _ _ Hp E);
    cbn in Hm.
  - intros H. exact (Hk a s1 r s' Hm H).
  - intros [= <- <-]. by destruct e.
  - intros [= <- <-]. exact Hm.
Qed.

Lemma ensures_get_bind {A} (P Q : state -> Prop) (k : state -> M A) :
  (forall s0, ensures P Q Stop Exc (k s0)) ->
  ensures P Q Stop Exc (bind get k).
Proof. intros Hk s r s' Hp. unfold bind, get. by apply Hk. Qed.

End EnsuresRules.

Lemma saved_counts_app t1 t2 :
  saved_counts (t1 ++ t2) = saved_counts t1 ++ saved_counts t2.
Proof. apply omap_app. Qed.

Lemma steps_no_saved s s' :
  steps no_saved_log s s' ->
  saved_counts (st_trace s') = saved_counts (st_trace s).
Proof.
  intros ((evs & -> & Hp) & _). rewrite saved_counts_app.
  assert (saved_counts evs = []) as ->; [|by rewrite app_nil_r].
  induction Hp as [|e evs He _ IH]; [done|]. cbn.
  unfold no_saved_log in He. by rewrite He.
Qed.

Lemma no_saved_log_plain l m : plain_msg m -> no_saved_log (EvLog l m).
Proof. intros Hm. by destruct l, m. Qed.

Section Threshold.

Variable w : world.
Variable cfg : config.

Hypothesis threshold_pos : 1 <= maximum_batch_size cfg.

Local Notation "'K'" := (below_threshold cfg).
Local Notation "'J'" := (full_saves cfg).
Local Notation "'Mid'" := (at_most_threshold cfg).

Lemma below_full s : K s -> J s.
Proof. by intros [_ ?]. Qed.

Lemma below_at_most s : K s -> Mid s.
Proof. intros [? ?]. split; [lia|done]. Qed.

(** Code that leaves the batch alone and logs no save. *)
Lemma ensures_unsaved {A} (I : state -> Prop) (m : M A) :
  (forall s s', st_batch s' = st_batch s ->
                saved_counts (st_trace s') = saved_counts (st_trace s) ->
                I s -> I s') ->
  (forall s, I s -> J s) ->
  always (steps no_saved_log) m ->
  always (fun s s' => st_batch s' = st_batch s) m ->
  ensures I I I J m.
Proof.
  intros HI HIJ Hs Hb s r s' Hi E.
  assert (I s').
  { apply (HI s); [by eapply Hb|by eapply steps_no_saved, Hs|done]. }
  destruct r as [a|[]|]; try done; by apply HIJ.
Qed.

Lemma below_unsaved s s' :
  st_batch s' = st_batch s ->
  saved_counts (st_trace s') = saved_counts (st_trace s) -> K s -> K s'.
Proof. unfold below_threshold, full_saves. by intros -> ->. Qed.

Lemma at_most_unsaved s s' :
  st_batch s' = st_batch s ->
  saved_counts (st_trace s') = saved_counts (st_trace s) -> Mid s -> Mid s'.
Proof. unfold at_most_threshold, full_saves. by intros -> ->. Qed.

Lemma ensures_below_emit e : no_saved_log e -> ensures K K K J (emit e).
Proof.
  intros He. apply ensures_unsaved;
    [apply below_unsaved|apply below_full|by apply steps_emit|].
  by intros s r s' [= <- <-].
Qed.

Lemma ensures_at_most_emit e : no_saved_log e -> ensures Mid Mid K J (emit e).
Proof.
  intros He s r s' Hm [= <- <-]. apply (at_most_unsaved s); try done.
  cbn. rewrite saved_counts_app. cbn. unfold no_saved_log in He.
  by rewrite He, app_nil_r.
Qed.

Lemma ensures_below_process_article no c :
  ensures K K K J (process_article w cfg no c).
Proof.
  apply ensures_unsaved; [apply below_unsaved|apply below_full| |].
  - apply process_article_steps; try done. apply no_saved_log_plain.
  - intros s r s' E. by destruct (process_article_frame _ _ _ _ _ _ _ E).
Qed.

Lemma ensures_below_sleep : ensures K K K J (sleep w).
Proof.
  apply ensures_unsaved; [apply below_unsaved|apply below_full| |].
  - by apply sleep_steps.
  - intros s r s'. rewrite sleep_spec. by intros [= <- <-].
Qed.

Lemma ensures_below_set_gall_no g : ensures K K K J (set_gall_no g).
Proof. by intros s r s' Hk [= <- <-]. Qed.

Lemma ensures_push x : ensures K Mid K J (push x).
Proof.
  intros s r s' [Hlen Hj] [= <- <-]. split; [|done]. cbn.
  rewrite length_app. cbn. lia.
Qed.

(** The threshold test: a batch that has reached the threshold is saved
    whole, a shorter one is left alone. *)
Lemma ensures_flush_if_full : ensures Mid K K J (flush_if_full cfg).
Proof.
  intros s r s' [Hlen (j & Hj)]. unfold flush_if_full.
  rewrite (bind_ok get _ s s s) by done.
  destruct (_ <=? _) eqn:Ele.
  - apply Z.leb_le in Ele. rewrite flush_spec.
    destruct (save_outcome (st_batch s)) as [[]|e|] eqn:Eo;
      intros [= <- <-].
    + split; [cbn; lia|]. exists (S j). cbn.
      rewrite saved_counts_app, Hj. cbn.
      replace (length (st_batch s))
        with (Z.to_nat (maximum_batch_size cfg)) by lia.
      by rewrite <- replicate_S_end.
    + destruct (save_outcome_cases (st_batch s)) as [H|[H|H]];
        rewrite Eo in H; [discriminate|injection H as ->..]; by exists j.
    + destruct (save_outcome_cases (st_batch s)) as [?|[?|?]]; congruence.
  - apply Z.leb_gt in Ele. intros [= <- <-]. split; [lia|by exists j].
Qed.

Lemma ensures_below_id_body collected :
  ensures K K K J (id_body w cfg collected).
Proof.
  unfold id_body. apply ensures_get_bind. intros s0. cbv zeta.
  destruct (bool_decide _).
  { eapply ensures_bind; [by apply ensures_below_emit|].
    intros _. apply ensures_below_set_gall_no. }
  eapply ensures_bind; [by apply ensures_below_emit|]. intros _.
  eapply ensures_bind; [apply ensures_below_process_article|]. intros a.
  eapply (ensures_bind _ Mid).
  { destruct a as [a|]; [|apply ensures_ret, below_at_most].
    eapply ensures_bind; [apply ensures_push|]. intros _.
    by apply ensures_at_most_emit. }
  intros _. eapply ensures_bind; [apply ensures_flush_if_full|]. intros _.
  eapply ensures_bind; [apply ensures_below_set_gall_no|]. intros _.
  apply ensures_below_sleep.
Qed.

Lemma ensures_below_id_loop fuel end_no collected :
  ensures K K K J (id_loop w cfg fuel end_no collected).
Proof.
  induction fuel as [|fuel IH]; cbn [id_loop]; apply ensures_get_bind;
    intros s0; destruct (_ <=? _);
    try (by apply ensures_out_of_fuel); try (by apply ensures_ret).
  eapply ensures_bind; [apply ensures_below_id_body|]. intros _. apply IH.
Qed.

Lemma ensures_below_date_body start_d end_d collected :
  ensures K K K J (date_body w cfg start_d end_d collected).
Proof.
  unfold date_body. apply ensures_get_bind. intros s0. cbv zeta.
  eapply ensures_bind; [apply ensures_below_process_article|].
  intros [a|].
  2: { eapply ensures_bind; [apply ensures_below_set_gall_no|].
       intros _. by apply ensures_ret. }
  eapply ensures_bind;
    [apply ensures_of_option; [done|done|apply below_full]|]. intros d.
  eapply ensures_bind.
  - destruct (_ && _).
    + eapply ensures_bind; [|intros _; by apply ensures_ret].
      destruct (bool_decide _); [by apply ensures_below_emit|].
      eapply ensures_bind; [by apply ensures_below_emit|]. intros _.
      eapply (ensures_bind _ Mid).
      { destruct (is_crawl_comments cfg); [|apply ensures_push].
        eapply ensures_bind; [apply ensures_below_process_article|].
        intros x. apply ensures_push. }
      intros _. eapply ensures_bind; [by apply ensures_at_most_emit|].
      intros _. apply ensures_flush_if_full.
    + destruct (dt_ltb end_d d).
      { eapply ensures_bind; [by apply ensures_below_emit|].
        intros _. by apply ensures_ret. }
      destruct (dt_ltb d start_d); [|by apply ensures_ret].
      eapply ensures_bind; [by apply ensures_below_emit|].
      intros _. by apply ensures_ret.
  - intros [|]; [|by apply ensures_ret].
    eapply ensures_bind; [apply ensures_below_set_gall_no|]. intros _.
    eapply ensures_bind; [apply ensures_below_sleep|]. intros _.
    by apply ensures_ret.
Qed.

Lemma ensures_below_date_loop fuel start_d end_d collected :
  ensures K K K J (date_loop w cfg fuel start_d end_d collected).
Proof.
  induction fuel as [|fuel IH]; cbn [date_loop];
    [by apply ensures_out_of_fuel|].
  eapply ensures_bind; [apply ensures_below_date_body|].
  intros [|]; [apply IH|by apply ensures_ret].
Qed.


(** The save that ends the traversal, or handles its interruption. *)
Lemma ensures_last_flush : ensures K (last_save_short cfg) K J flush.
Proof.
  intros s r s' [Hlen (j & Hj)]. rewrite flush_spec.
  destruct (save_outcome (st_batch s)) as [[]|e|] eqn:Eo; intros [= <- <-].
  - exists j, (length (st_batch s)). split; [|done]. cbn.
    by rewrite saved_counts_app, Hj.
  - destruct (save_outcome_cases (st_batch s)) as [H|[H|H]];
      rewrite Eo in H; [discriminate|injection H as ->..]; by exists j.
  - destruct (save_outcome_cases (st_batch s)) as [?|[?|?]]; congruence.
Qed.

Lemma ensures_traverse fuel mode collected :
  ensures K (last_save_short cfg) K J (traverse w cfg fuel mode collected).
Proof.
  unfold traverse. destruct mode.
  - eapply ensures_bind; [by apply ensures_below_emit|]. intros _.
    eapply ensures_bind; [apply ensures_below_id_loop|]. intros _.
    apply ensures_last_flush.
  - eapply ensures_bind; [by apply ensures_below_emit|]. intros _.
    eapply ensures_bind; [apply ensures_below_date_loop|]. intros _.
    apply ensures_last_flush.
Qed.

End Threshold.



Example saves_of_a_run_with_threshold_two :
  saved_counts
    (st_trace
       (run Scenario.board
          (mk_config "forthegifted" "minor" (Some 1) (Some 5) None None
             false 2) 10 (init_state None)).2)
  = [2; 2; 1]%nat.
Proof. vm_compute. reflexivity. Qed.

(** ** The requests of a date-mode run *)

Lemma ensures_get_bind_at {A} (P Q Stop Exc : state -> Prop)
    (k : state -> M A) :
  (forall s0, ensures (fun s => P s /\ s = s0) Q Stop Exc (k s0)) ->
  ensures P Q Stop Exc (bind get k).
Proof. intros Hk s r s' Hp. unfold bind, get. by apply Hk. Qed.

Lemma ensures_weaken {A} (P P' Q Q' Stop Exc : state -> Prop) (m : M A) :
  (forall s, P' s -> P s) -> (forall s, Q s -> Q' s) ->
  ensures P Q Stop Exc m -> ensures P' Q' Stop Exc m.
Proof.
  intros HP HQ Hm s r s' Hp E. specialize (Hm s r s' (HP _ Hp) E).
  destruct r as [a|e|]; [by apply HQ|done|done].
Qed.

Lemma descends_nil : descends [].
Proof. by intros i g h. Qed.

Lemma descends_snoc l x :
  descends l ->
  (forall g, last l = Some g -> g = x \/ g = x + 1) ->
  descends (l ++ [x]).
Proof.
  intros Hl Hlast i g h Hg Hh.
  destruct (decide (S i < length l)%nat) as [Hlt|Hge].
  - rewrite lookup_app_l in Hg by lia. rewrite lookup_app_l in Hh by lia.
    by eapply Hl.
  - assert (S i = length l) as Hi.
    { apply lookup_lt_Some in Hh. rewrite length_app in Hh. cbn in Hh. lia. }
    rewrite lookup_app_l in Hg by lia.
    rewrite lookup_app_r in Hh by lia.
    replace (S i - length l)%nat with 0%nat in Hh by lia.
    cbn in Hh. injection Hh as <-.
    assert (last l = Some g) as Hlg.
    { rewrite last_lookup. by replace (Nat.pred (length l)) with i by lia. }
    destruct (Hlast g Hlg); lia.
Qed.

Lemma just_fetched_walking g s : just_fetched g s -> walking_down s.
Proof.
  intros (Hc & Hd & Hl). split; [done|]. intros g' Hg'.
  rewrite Hl in Hg'. injection Hg' as <-. by left.
Qed.

Section WalkingDown.

Variable w : world.
Variable cfg : config.

Local Notation "'W'" := walking_down.

(** Code that sends no request for a post and leaves the cursor alone. *)
Lemma ensures_no_request {A} (I : state -> Prop) (m : M A) :
  (forall s s', st_gall_no s' = st_gall_no s ->
                post_requests (st_trace s') = post_requests (st_trace s) ->
                I s -> I s') ->
  (forall s, I s -> W s) ->
  always (steps no_post_request) m ->
  always (fun s s' => st_gall_no s' = st_gall_no s) m ->
  ensures I I W W m.
Proof.
  intros HI HIW Hs Hg s r s' Hi E.
  assert (I s').
  { apply (HI s); [by eapply Hg|by eapply steps_no_request, Hs|done]. }
  destruct r as [a|[]|]; try done; by apply HIW.
Qed.

Lemma walking_frame s s' :
  st_gall_no s' = st_gall_no s ->
  post_requests (st_trace s') = post_requests (st_trace s) -> W s -> W s'.
Proof. unfold walking_down. by intros -> ->. Qed.

Lemma just_fetched_frame g s s' :
  st_gall_no s' = st_gall_no s ->
  post_requests (st_trace s') = post_requests (st_trace s) ->
  just_fetched g s -> just_fetched g s'.
Proof. unfold just_fetched. by intros -> ->. Qed.

Lemma ensures_fetched_emit g e :
  no_post_request e -> ensures (just_fetched g) (just_fetched g) W W (emit e).
Proof.
  intros He. apply ensures_no_request;
    [apply just_fetched_frame|apply just_fetched_walking
    |by apply steps_emit|].
  by intros s r s' [= <- <-].
Qed.

Lemma ensures_walking_emit e : no_post_request e -> ensures W W W W (emit e).
Proof.
  intros He. apply ensures_no_request;
    [apply walking_frame|done|by apply steps_emit|].
  by intros s r s' [= <- <-].
Qed.

Lemma ensures_fetched_push g x :
  ensures (just_fetched g) (just_fetched g) W W (push x).
Proof.
  apply ensures_no_request;
    [apply just_fetched_frame|apply just_fetched_walking
    |apply steps_push|].
  by intros s r s' [= <- <-].
Qed.

Lemma ensures_fetched_flush_if_full g :
  ensures (just_fetched g) (just_fetched g) W W (flush_if_full cfg).
Proof.
  apply ensures_no_request;
    [apply just_fetched_frame|apply just_fetched_walking
    |by apply flush_if_full_steps|].
  intros s r s'. apply flush_if_full_gall_no.
Qed.

Lemma ensures_walking_sleep : ensures W W W W (sleep w).
Proof.
  apply ensures_no_request; [apply walking_frame|done|by apply sleep_steps|].
  intros s r s'. rewrite sleep_spec. by intros [= <- <-].
Qed.

Lemma ensures_walking_flush : ensures W W W W flush.
Proof.
  apply ensures_no_request; [apply walking_frame|done|by apply flush_steps|].
  intros s r s'. rewrite flush_spec.
  destruct (save_outcome (st_batch s)); by intros [= <- <-].
Qed.

(** A fetch of the post at the cursor. *)
Lemma ensures_fetch g c :
  ensures (about_to_fetch g) (just_fetched g) W W (process_article w cfg g c).
Proof.
  intros s r s' [Hc [Hd Hl]] E.
  pose proof (process_article_frame _ _ _ _ _ _ _ E) as [Hg _ _ _].
  destruct (process_article_requests _ _ _ _ _ _ _ E) as [Hp|[-> ->]].
  - assert (just_fetched g s') as Hjf.
    { split; [congruence|]. rewrite Hp. split.
      - apply descends_snoc; [done|]. intros g' Hg'.
        destruct (Hl g' Hg'); lia.
      - by rewrite last_snoc. }
    destruct r as [a|[]|]; try done; by apply (just_fetched_walking g).
  - done.
Qed.

Lemma ensures_step_down g :
  ensures (just_fetched g) W W W (set_gall_no (g - 1)).
Proof.
  intros s r s' (Hc & Hd & Hl) [= <- <-]. split; [done|].
  cbn [st_trace st_gall_no]. intros g' Hg'. rewrite Hl in Hg'. injection Hg' as <-. right. lia.
Qed.

Lemma ensures_walking_date_body start_d end_d collected :
  ensures W W W W (date_body w cfg start_d end_d collected).
Proof.
  unfold date_body. apply ensures_get_bind_at. intros s0. cbv zeta.
  set (g := st_gall_no s0).
  eapply (ensures_bind _ (just_fetched g)).
  { eapply ensures_weaken; [| |apply (ensures_fetch g false)]; [|done].
    intros s [Hw ->]. by split. }
  intros [a|].
  2: { eapply ensures_bind; [apply ensures_step_down|].
       intros _. by apply ensures_ret. }
  eapply (ensures_bind _ (just_fetched g)).
  { apply ensures_of_option; [done|done|exact (just_fetched_walking g)]. }
  intros d.
  eapply (ensures_bind _ (just_fetched g)).
  - destruct (_ && _).
    + eapply ensures_bind; [|intros _; by apply ensures_ret].
      destruct (bool_decide _); [by apply ensures_fetched_emit|].
      eapply ensures_bind; [by apply ensures_fetched_emit|]. intros _.
      eapply (ensures_bind _ (just_fetched g)).
      { destruct (is_crawl_comments cfg); [|apply ensures_fetched_push].
        eapply ensures_bind; [|intros x; apply ensures_fetched_push].
        eapply ensures_weaken; [| |apply (ensures_fetch g true)]; [|done].
        intros s Hjf. split; [by destruct Hjf|].
        by apply just_fetched_walking in Hjf. }
      intros _. eapply ensures_bind; [by apply ensures_fetched_emit|].
      intros _. apply ensures_fetched_flush_if_full.
    + destruct (dt_ltb end_d d).
      { eapply ensures_bind; [by apply ensures_fetched_emit|].
        intros _. by apply ensures_ret. }
      destruct (dt_ltb d start_d); [|by apply ensures_ret].
      eapply ensures_bind; [by apply ensures_fetched_emit|].
      intros _. by apply ensures_ret.
  - intros [|]; [|apply ensures_ret; exact (just_fetched_walking g)].
    eapply ensures_bind; [apply ensures_step_down|]. intros _.
    eapply ensures_bind; [apply ensures_walking_sleep|]. intros _.
    by apply ensures_ret.
Qed.

Lemma ensures_walking_date_loop fuel start_d end_d collected :
  ensures W W W W (date_loop w cfg fuel start_d end_d collected).
Proof.
  induction fuel as [|fuel IH]; cbn [date_loop];
    [by apply ensures_out_of_fuel|].
  eapply ensures_bind; [apply ensures_walking_date_body|].
  intros [|]; [apply IH|by apply ensures_ret].
Qed.

End WalkingDown.

(** X17. In date mode the run walks down the post numbers one by one:
    every post it asks for is the one it asked for just before (the
    second fetch, with comments) or the one below it.  It never skips a
    number and never goes back up, however the run ends. *)
Theorem date_mode_requests_walk_down
    (w : world) (cfg : config) (fuel : nat) (file : option (list line))
    (r : result unit) (s' : state) :
  has_gall_no_range cfg = false ->
  run w cfg fuel (init_state file) = (r, s') ->
  descends (post_requests (st_trace s')).
Proof.
  intros Hmode. rewrite run_unfold.
  destruct ((check_gallery_conditions w cfg;;
             check_scrapping_conditions w cfg) (init_state file))
    as [[mode|e|] s2] eqn:E1.
  2,3: intros [= <- <-];
       pose proof (always_bind same_requests_trans _ _
                     (check_gallery_conditions_requests w cfg)
                     (fun _ => check_scrapping_conditions_requests w cfg)
                     _ _ _ E1) as Hr;
       unfold same_requests in Hr; cbn in Hr; rewrite Hr;
       apply descends_nil.
  pose proof (always_bind same_requests_trans _ _
                (check_gallery_conditions_requests w cfg)
                (fun _ => check_scrapping_conditions_requests w cfg)
                _ _ _ E1) as Hr2.
  unfold same_requests in Hr2. cbn in Hr2.
  apply bind_ok_inv in E1 as ([] & s1 & Eg & Es).
  pose proof (check_scrapping_conditions_mode _ _ _ _ _ Es) as Hacc.
  destruct mode as [e|sd ed]; [congruence|].
  destruct (load_collected_gall_no s2) as [[c|e|] s3] eqn:E2.
  2,3: destruct (load_collected_gall_no_ok s2) as (? & ? & Hl);
       rewrite Hl in E2; discriminate.
  assert (Hready : walking_down (ready cfg s3)).
  { assert (post_requests (st_trace (ready cfg s3)) = []) as Hr3.
    { cbn. rewrite post_requests_app. cbn. rewrite app_nil_r, <- Hr2.
      apply steps_no_request.
      by apply (load_collected_gall_no_steps no_post_request) in E2. }
    split; rewrite Hr3; [apply descends_nil|done]. }
  assert (Htr : ensures walking_down walking_down walking_down walking_down
                  (traverse w cfg fuel (ByDate sd ed) c)).
  { unfold traverse.
    eapply ensures_bind; [by apply ensures_walking_emit|]. intros _.
    eapply ensures_bind; [apply ensures_walking_date_loop|]. intros _.
    apply ensures_walking_flush. }
  assert (Hquit : forall s, walking_down s ->
            descends (post_requests (st_trace s ++ [EvQuit]))).
  { intros s [Hd _]. by rewrite post_requests_app, app_nil_r. }
  unfold try_finally, try_except_interrupt.
  destruct (traverse w cfg fuel (ByDate sd ed) c (ready cfg s3))
    as [[[]|e|] s4] eqn:E3;
    pose proof (Htr _ _ _ Hready E3) as H3; cbn in H3.
  - intros [= <- <-]. by apply Hquit.
  - assert (Hw4 : walking_down s4) by (by destruct e).
    assert (Hother : (Raise e, mk_state (st_gall_no s4) (st_batch s4)
                                 (st_store s4) (st_trace s4 ++ [EvQuit])
                                 (st_clock s4)) = (r, s') ->
                     descends (post_requests (st_trace s'))).
    { intros [= <- <-]. by apply Hquit. }
    destruct e; try exact Hother.
    destruct (flush s4) as [[[]|e|] s5] eqn:E4;
      pose proof (ensures_walking_flush _ _ _ Hw4 E4) as H5; cbn in H5.
    + intros [= <- <-]. by apply Hquit.
    + intros [= <- <-]. apply Hquit. by destruct e.
    + intros [= <- <-]. by destruct H5.
  - intros [= <- <-]. by destruct H3.
Qed.

Lemma date_mode_requests_walk_down_witness :
  descends
    (post_requests
       (st_trace (run Scenario.board (Scenario.by_date true) 10
                    (init_state None)).2)).
Proof.
  exact (date_mode_requests_walk_down Scenario.board (Scenario.by_date true)
           10 None _ _ eq_refl (surjective_pairing _)).
Defined.

Example requests_of_a_date_mode_run :
  post_requests
    (st_trace (run Scenario.board (Scenario.by_date true) 10
                 (init_state None)).2)
  = [5; 4; 4; 3; 3; 2].
Proof. vm_compute. reflexivity. Qed.

(** ** The store of a date-mode run has no repeated post number *)

Section EnsuresWithRules.

Context {Stop Exc : state -> Prop}.

Lemma ensures_with_ret {A} (P : state -> Prop) (Q : A -> state -> Prop) a :
  (forall s, P s -> Q a s) -> ensures_with P Q Stop Exc (ret a).
Proof. intros H s r s' Hp [= <- <-]. by apply H. Qed.

Lemma ensures_with_raise {A} (P : state -> Prop) (Q : A -> state -> Prop) e :
  e <> KeyboardInterrupt -> (forall s, P s -> Exc s) ->
  ensures_with P Q Stop Exc (raise e).
Proof. intros He H s r s' Hp [= <- <-]. destruct e; try done; by apply H. Qed.

Lemma ensures_with_of_option {A} (P : state -> Prop)
    (Q : A -> state -> Prop) e (o : option A) :
  e <> KeyboardInterrupt -> (forall a s, P s -> Q a s) ->
  (forall s, P s -> Exc s) ->
  ensures_with P Q Stop Exc (of_option e o).
Proof.
  intros He H1 H2. destruct o as [a|];
    [apply ensures_with_ret, H1|by apply ensures_with_raise].
Qed.

Lemma ensures_with_out_of_fuel {A} (P : state -> Prop)
    (Q : A -> state -> Prop) :
  (forall s, P s -> Stop s) -> ensures_with P Q Stop Exc out_of_fuel.
Proof. intros H s r s' Hp [= <- <-]. by apply H. Qed.

Lemma ensures_with_bind {A B} (P : state -> Prop) (Q : A -> state -> Prop)
    (R : B -> state -> Prop) (m : M A) (k : A -> M B) :
  ensures_with P Q Stop Exc m ->
  (forall a, ensures_with (Q a) R Stop Exc (k a)) ->
  ensures_with P R Stop Exc (bind m k).
Proof.
  intros Hm Hk s r s' Hp. unfold bind.
  destruct (m s) as [[a|e|] s1] eqn:E; specialize (Hm _ _ _ Hp E);
    cbn in Hm.
  - intros H. exact (Hk a s1 r s' Hm H).
  - intros [= <- <-]. by destruct e.
  - intros [= <- <-]. exact Hm.
Qed.

Lemma ensures_with_get_bind_at {A} (P : state -> Prop)
    (Q : A -> state -> Prop) (k : state -> M A) :
  (forall s0, ensures_with (fun s => P s /\ s = s0) Q Stop Exc (k s0)) ->
  ensures_with P Q Stop Exc (bind get k).
Proof. intros Hk s r s' Hp. unfold bind, get. by apply Hk. Qed.

Lemma ensures_with_weaken {A} (P P' : state -> Prop)
    (Q Q' : A -> state -> Prop) (m : M A) :
  (forall s, P' s -> P s) -> (forall a s, Q a s -> Q' a s) ->
  ensures_with P Q Stop Exc m -> ensures_with P' Q' Stop Exc m.
Proof.
  intros HP HQ Hm s r s' Hp E. specialize (Hm s r s' (HP _ Hp) E).
  destruct r as [a|e|]; [by apply HQ|done|done].
Qed.

(** Code that leaves the cursor, the batch and the store alone. *)
Lemma ensures_with_framed {A} (I : state -> Prop) (m : M A) :
  (forall s s', st_gall_no s' = st_gall_no s -> st_batch s' = st_batch s ->
                st_store s' = st_store s -> I s -> I s') ->
  (forall s, I s -> Stop s) -> (forall s, I s -> Exc s) ->
  always (fun s s' => st_gall_no s' = st_gall_no s
                      /\ st_batch s' = st_batch s
                      /\ st_store s' = st_store s) m ->
  ensures_with I (fun _ => I) Stop Exc m.
Proof.
  intros HI HS HE Hm s r s' Hi E.
  destruct (Hm _ _ _ E) as (Hg & Hb & Hs).
  assert (I s') by (by apply (HI s)).
  destruct r as [a|[]|]; auto.
Qed.

End EnsuresWithRules.

Lemma batch_ids_app b1 b2 : batch_ids (b1 ++ b2) = batch_ids b1 ++ batch_ids b2.
Proof. apply omap_app. Qed.

Lemma batch_ids_records (l : list ArticleData) :
  batch_ids (map Some l) = map (fun a : ArticleData => gall_no a) l.
Proof. induction l as [|a l IH]; [done|]. cbn. by rewrite <- IH. Qed.

(** The numbers a save writes are those of a prefix of the batch, of all
    of it when the save returns. *)
Lemma written_ids_prefix b :
  (LUnusable ∉ written_lines b)
  /\ (exists more, batch_ids b = line_ids (written_lines b) ++ more
                   /\ (save_outcome b = Ok tt -> more = [])).
Proof.
  destruct (written_lines_spec b) as (saved & rest & Hb & Hw & Ho).
  assert (Hun : LUnusable ∉ written_lines b).
  { clear -Hw. induction Hw as [|a l ? ? (sa & _ & ->) _ IH].
    - apply not_elem_of_nil.
    - intros Hin. by apply elem_of_cons in Hin as [?|?]. }
  assert (Hids : line_ids (written_lines b)
                 = map (fun a : ArticleData => gall_no a) saved).
  { clear -Hw. induction Hw as [|a l ? ? (sa & Ha & ->) _ IH]; [done|].
    cbn. unfold line_ids in IH. rewrite IH.
    by rewrite (to_stored_gall_no _ _ Ha). }
  split; [done|]. exists (batch_ids rest).
  rewrite Hids, Hb at 1. rewrite batch_ids_app, batch_ids_records.
  split; [done|]. intros Hok. rewrite Hok in Ho. by subst rest.
Qed.

Section DateModeStore.

Variable w : world.
Variable cfg : config.
Variable S0 : list line.
Variable collected : gset Z.
Hypothesis collected_sup : forall g, g ∈ line_ids S0 -> g ∈ collected.

Local Notation "'Any'" := (above_some S0).
Local Notation "'Exc'" := (inv_store S0).

Lemma above_store k s : above S0 k s -> inv_store S0 s.
Proof.
  intros (W & Hs & Hun & Hnd & _). exists W. repeat split; try done.
  rewrite app_assoc in Hnd. by apply NoDup_app in Hnd as [? _].
Qed.

Lemma above_mono k k' s : k' <= k -> above S0 k s -> above S0 k' s.
Proof.
  intros Hk (W & ? & ? & ? & Hlt). exists W. repeat split; try done.
  eapply Forall_impl; [exact Hlt|]. cbn. lia.
Qed.

Lemma above_frame k s s' :
  st_batch s' = st_batch s -> st_store s' = st_store s ->
  above S0 k s -> above S0 k s'.
Proof.
  intros Hb Hs (W & ? & ? & ? & ?). exists W. unfold store_lines in *.
  rewrite Hb, Hs. by repeat split.
Qed.

Lemma before_push_frame g s s' :
  st_gall_no s' = st_gall_no s -> st_batch s' = st_batch s ->
  st_store s' = st_store s -> before_push S0 g s -> before_push S0 g s'.
Proof.
  intros Hg Hb Hs [Hc Ha]. split; [congruence|by eapply above_frame].
Qed.

Lemma after_push_frame g s s' :
  st_gall_no s' = st_gall_no s -> st_batch s' = st_batch s ->
  st_store s' = st_store s -> after_push S0 g s -> after_push S0 g s'.
Proof.
  intros Hg Hb Hs [Hc Ha]. split; [congruence|by eapply above_frame].
Qed.

Lemma above_cursor_frame s s' :
  st_gall_no s' = st_gall_no s -> st_batch s' = st_batch s ->
  st_store s' = st_store s -> above_cursor S0 s -> above_cursor S0 s'.
Proof.
  unfold above_cursor. intros -> Hb Hs. by apply above_frame.
Qed.

Lemma before_push_any g s : before_push S0 g s -> Any s.
Proof. intros [_ ?]. by exists g. Qed.

Lemma before_push_exc g s : before_push S0 g s -> Exc s.
Proof. intros [_ ?]. by eapply above_store. Qed.

Lemma after_push_any g s : after_push S0 g s -> Any s.
Proof. intros [_ ?]. by exists (g - 1). Qed.

Lemma after_push_exc g s : after_push S0 g s -> Exc s.
Proof. intros [_ ?]. by eapply above_store. Qed.

Lemma above_cursor_any s : above_cursor S0 s -> Any s.
Proof. intros ?. by exists (st_gall_no s). Qed.

Lemma above_cursor_exc s : above_cursor S0 s -> Exc s.
Proof. apply above_store. Qed.

Lemma before_after g s : before_push S0 g s -> after_push S0 g s.
Proof. intros [? ?]. split; [done|]. apply (above_mono g); [lia|done]. Qed.

Lemma emit_frame e :
  always (fun s s' => st_gall_no s' = st_gall_no s
                      /\ st_batch s' = st_batch s
                      /\ st_store s' = st_store s) (emit e).
Proof. by intros s r s' [= <- <-]. Qed.

Lemma sleep_frame :
  always (fun s s' => st_gall_no s' = st_gall_no s
                      /\ st_batch s' = st_batch s
                      /\ st_store s' = st_store s) (sleep w).
Proof. intros s r s'. rewrite sleep_spec. by intros [= <- <-]. Qed.

(** A fetch of the post at the cursor: nothing is stored, and the record
    carries the number of the cursor. *)
Lemma ensures_with_fetch g c :
  ensures_with (before_push S0 g)
    (fun x s => before_push S0 g s
                /\ forall a : ArticleData, x = Some a -> gall_no a = g)
    Any Exc (process_article w cfg g c).
Proof.
  intros s r s' Hb E.
  pose proof (process_article_frame _ _ _ _ _ _ _ E) as [Hg Hbt Hs _].
  assert (before_push S0 g s') as Hb' by (by apply (before_push_frame g s)).
  destruct r as [x|[]|]; try (by eapply before_push_any);
    try (by eapply before_push_exc).
  split; [done|]. intros a ->. by eapply process_article_gall_no.
Qed.

(** Appending what was fetched for a post that was not collected. *)
Lemma ensures_with_push g x :
  g ∉ collected ->
  (forall a : ArticleData, x = Some a -> gall_no a = g) ->
  ensures_with (before_push S0 g) (fun _ => after_push S0 g) Any Exc
    (push x).
Proof.
  intros Hnc Hx s r s' [Hc (W & Hs & Hun & Hnd & Hlt)] [= <- <-].
  split; [done|]. exists W. cbn. split; [done|]. split; [done|].
  rewrite batch_ids_app.
  destruct x as [a|]; cbn.
  2: { rewrite app_nil_r. split; [done|].
       eapply Forall_impl; [exact Hlt|]. cbn. lia. }
  rewrite (Hx a eq_refl). split.
  - rewrite !app_assoc. apply NoDup_app.
    split; [by rewrite <- app_assoc|].
    split; [|apply NoDup_singleton].
    intros i Hi Hg. apply list_elem_of_singleton in Hg as ->.
    rewrite <- app_assoc in Hi. apply elem_of_app in Hi as [Hi|Hi].
    + by apply Hnc, collected_sup.
    + rewrite Forall_forall in Hlt. apply Hlt in Hi. lia.
  - rewrite app_assoc. apply Forall_app. split.
    + eapply Forall_impl; [exact Hlt|]. cbn. lia.
    + repeat constructor. lia.
Qed.

Lemma flush_above k s r s' :
  above S0 k s -> flush s = (r, s') ->
  st_gall_no s' = st_gall_no s
  /\ match r with
     | Ok _ => above S0 k s'
     | Raise e => e <> KeyboardInterrupt /\ inv_store S0 s'
     | NoFuel => False
     end.
Proof.
  intros (W & Hs & Hun & Hnd & Hlt). rewrite flush_spec.
  destruct (written_ids_prefix (st_batch s)) as (Hwun & more & Hids & Hall).
  assert (Hun' : LUnusable ∉ W ++ written_lines (st_batch s)).
  { intros Hin. apply elem_of_app in Hin as [?|?]; [by apply Hun|done]. }
  destruct (save_outcome (st_batch s)) as [[]|e|] eqn:Eo; intros [= <- <-].
  - split; [done|]. exists (W ++ written_lines (st_batch s)). cbn.
    rewrite Hs, <- app_assoc. split; [done|]. split; [done|].
    rewrite (Hall eq_refl), app_nil_r in Hids.
    rewrite line_ids_app, <- Hids, !app_nil_r. by split.
  - split; [done|]. split.
    { destruct (save_outcome_cases (st_batch s)) as [?|[?|?]]; congruence. }
    exists (W ++ written_lines (st_batch s)). cbn.
    rewrite Hs, <- app_assoc. split; [done|]. split; [done|].
    rewrite line_ids_app. rewrite Hids in Hnd.
    rewrite !app_assoc in Hnd. apply NoDup_app in Hnd as [Hnd _].
    by rewrite <- !app_assoc in Hnd.
  - destruct (save_outcome_cases (st_batch s)) as [?|[?|?]]; congruence.
Qed.

Lemma ensures_with_flush_if_full g :
  ensures_with (after_push S0 g) (fun _ => after_push S0 g) Any Exc
    (flush_if_full cfg).
Proof.
  intros s r s' [Hc Ha]. unfold flush_if_full.
  rewrite (bind_ok get _ s s s) by done.
  destruct (_ <=? _).
  - intros Hf. destruct (flush_above _ _ _ _ Ha Hf) as [Hg Hr].
    destruct r as [[]|e|]; [|destruct Hr as [? ?]; by destruct e|done].
    split; [congruence|done].
  - by intros [= <- <-].
Qed.

Lemma ensures_with_last_flush :
  ensures_with Any (fun _ => Exc) Any Exc flush.
Proof.
  intros s r s' [k Ha] Hf. destruct (flush_above _ _ _ _ Ha Hf) as [_ Hr].
  destruct r as [[]|e|]; [by eapply above_store| |done].
  destruct Hr as [? ?]. by destruct e.
Qed.

Lemma ensures_with_step_down g :
  ensures_with (after_push S0 g) (fun _ => above_cursor S0) Any Exc
    (set_gall_no (g - 1)).
Proof.
  intros s r s' [Hc Ha] [= <- <-]. unfold above_cursor. cbn.
  by eapply above_frame; [| |exact Ha].
Qed.

Lemma ensures_with_date_body start_d end_d :
  ensures_with (above_cursor S0)
    (fun c s => match c with
                | Next => above_cursor S0 s
                | Break => Any s
                end)
    Any Exc (date_body w cfg start_d end_d collected).
Proof.
  unfold date_body. apply ensures_with_get_bind_at. intros s0. cbv zeta.
  set (g := st_gall_no s0).
  eapply ensures_with_bind.
  { eapply ensures_with_weaken; [| |apply (ensures_with_fetch g false)].
    - intros s [Hw ->]. by split.
    - intros a s H. exact H. }
  intros [a|].
  2: { eapply (ensures_with_bind _ (fun _ => above_cursor S0));
         [|intros ?; apply ensures_with_ret; by intros s H].
       eapply ensures_with_weaken; [| |apply (ensures_with_step_down g)].
       - intros s [Hb _]. by apply before_after.
       - by intros ? s H. }
  eapply (ensures_with_bind _
            (fun _ s => before_push S0 g s /\ gall_no a = g)).
  { apply ensures_with_of_option; [done| |].
    - intros ? s [Hb Ha]. split; [done|]. by apply Ha.
    - intros s [Hb _]. by eapply before_push_exc. }
  intros d.
  eapply (ensures_with_bind _
            (fun c s => match c with
                        | Next => after_push S0 g s
                        | Break => before_push S0 g s
                        end)).
  - destruct (_ && _).
    + eapply (ensures_with_bind _ (fun _ => after_push S0 g));
        [|intros ?; apply ensures_with_ret; by intros s H].
      destruct (bool_decide (g ∈ collected)) eqn:Ec.
      { eapply ensures_with_weaken;
          [| |apply (ensures_with_framed (before_push S0 g))].
        - by intros s [Hb _].
        - intros ? s Hb. by apply before_after.
        - apply before_push_frame.
        - apply before_push_any.
        - apply before_push_exc.
        - apply emit_frame. }
      apply bool_decide_eq_false in Ec.
      eapply (ensures_with_bind _
                (fun _ s => before_push S0 g s /\ gall_no a = g)).
      { apply (ensures_with_framed
                 (fun s => before_push S0 g s /\ gall_no a = g)).
        - intros s s' Hg Hb Hs [H1 H2]. split; [|done].
          by apply (before_push_frame g s).
        - intros s [H _]. by eapply before_push_any.
        - intros s [H _]. by eapply before_push_exc.
        - apply emit_frame. }
      intros ?.
      eapply (ensures_with_bind _ (fun _ => after_push S0 g)).
      { destruct (is_crawl_comments cfg).
        - eapply ensures_with_bind.
          + eapply ensures_with_weaken;
              [| |apply (ensures_with_fetch g true)].
            * by intros s [Hb _].
            * intros x s H. exact H.
          + intros x. cbn beta.
            intros s r s' [Hb Hx]. by apply ensures_with_push.
        - intros s r s' [Hb Ha]. apply ensures_with_push; try done.
          by intros a' [= <-]. }
      intros ?.
      eapply ensures_with_bind.
      { apply (ensures_with_framed (after_push S0 g));
          [apply after_push_frame|apply after_push_any
          |apply after_push_exc|apply emit_frame]. }
      intros ?. apply ensures_with_flush_if_full.
    + assert (Hlog : forall l m (c : ctl),
                ensures_with
                  (fun s => before_push S0 g s /\ gall_no a = g)
                  (fun c s => match c with
                              | Next => after_push S0 g s
                              | Break => before_push S0 g s
                              end)
                  Any Exc (log l m;; ret c)).
      { intros l m c.
        eapply (ensures_with_bind _ (fun _ => before_push S0 g)).
        - eapply ensures_with_weaken;
            [| |apply (ensures_with_framed (before_push S0 g))].
          + by intros s [Hb _].
          + by intros ? s Hb.
          + apply before_push_frame.
          + apply before_push_any.
          + apply before_push_exc.
          + apply emit_frame.
        - intros ?. apply ensures_with_ret. intros s Hb.
          destruct c; [by apply before_after|done]. }
      destruct (dt_ltb end_d d); [apply Hlog|].
      destruct (dt_ltb d start_d); [apply Hlog|].
      apply ensures_with_ret. intros s [Hb _]. by apply before_after.
  - intros [|].
    + eapply ensures_with_bind; [apply ensures_with_step_down|]. intros ?.
      eapply (ensures_with_bind _ (fun _ => above_cursor S0));
        [|intros ?; apply ensures_with_ret; by intros s H].
      apply (ensures_with_framed (above_cursor S0));
        [apply above_cursor_frame|apply above_cursor_any
        |apply above_cursor_exc|apply sleep_frame].
    + apply ensures_with_ret. intros s Hb. by eapply before_push_any.
Qed.

Lemma ensures_with_date_loop fuel start_d end_d :
  ensures_with (above_cursor S0) (fun _ => Any) Any Exc
    (date_loop w cfg fuel start_d end_d collected).
Proof.
  induction fuel as [|fuel IH]; cbn [date_loop].
  { apply ensures_with_out_of_fuel, above_cursor_any. }
  eapply ensures_with_bind; [apply ensures_with_date_body|].
  intros [|]; [apply IH|apply ensures_with_ret; by intros s H].
Qed.

Lemma ensures_with_traverse_by_date fuel start_d end_d :
  ensures_with (above_cursor S0) (fun _ => Exc) Any Exc
    (traverse w cfg fuel (ByDate start_d end_d) collected).
Proof.
  unfold traverse.
  eapply (ensures_with_bind _ (fun _ => above_cursor S0)).
  { apply (ensures_with_framed (above_cursor S0));
      [apply above_cursor_frame|apply above_cursor_any
      |apply above_cursor_exc|apply emit_frame]. }
  intros ?. eapply ensures_with_bind; [apply ensures_with_date_loop|].
  intros ?. apply ensures_with_last_flush.
Qed.

End DateModeStore.



(** ** What a date-mode run without comments stores is dated inside the
    window *)

Section WindowOnly.

Variable w : world.
Variable cfg : config.
Variable S0 : list line.
Variables start_d end_d : datetime.
Hypothesis no_comments : is_crawl_comments cfg = false.

Local Notation "'R'" := (keeps_window S0 start_d end_d).

Lemma keeps_window_refl s : R s s.
Proof. by intros H. Qed.

Lemma keeps_window_trans s1 s2 s3 : R s1 s2 -> R s2 s3 -> R s1 s3.
Proof. unfold keeps_window. auto. Qed.

Lemma keeps_window_framed {A} (m : M A) :
  always (fun s s' => st_batch s' = st_batch s /\ st_store s' = st_store s) m ->
  always R m.
Proof.
  intros Hm s r s' E (W & Hs & Hw & Hb).
  destruct (Hm _ _ _ E) as [Eb Es]. exists W. unfold store_lines in *.
  by rewrite Eb, Es.
Qed.

Lemma keeps_window_emit e : always R (emit e).
Proof. apply keeps_window_framed. by intros s r s' [= <- <-]. Qed.

Lemma keeps_window_set_gall_no g : always R (set_gall_no g).
Proof. apply keeps_window_framed. by intros s r s' [= <- <-]. Qed.

Lemma keeps_window_sleep : always R (sleep w).
Proof.
  apply keeps_window_framed. intros s r s'. rewrite sleep_spec.
  by intros [= <- <-].
Qed.

Lemma keeps_window_process_article no c : always R (process_article w cfg no c).
Proof.
  apply keeps_window_framed. intros s r s' E.
  by destruct (process_article_frame _ _ _ _ _ _ _ E).
Qed.

Lemma keeps_window_push x :
  window_entry start_d end_d x -> always R (push x).
Proof.
  intros Hx s r s' [= <- <-] (W & Hs & Hw & Hb). exists W. cbn.
  split; [done|]. split; [done|]. apply Forall_app. split; [done|].
  by constructor.
Qed.

Lemma to_stored_date a sa : to_stored a = Some sa -> s_date sa = date a.
Proof.
  unfold to_stored. intros H.
  destruct (PyStr.py_int (view_count a)); [|done].
  destruct (PyStr.py_int (recommend_count a)); [|done].
  destruct (PyStr.py_int (nonrecommend_count a)); [|done].
  cbn in H. by injection H as <-.
Qed.

Lemma keeps_window_flush : always R flush.
Proof.
  intros s r s' E (W & Hs & Hw & Hb).
  assert (Hwr : Forall (window_line start_d end_d)
                  (written_lines (st_batch s))).
  { destruct (written_lines_spec (st_batch s))
      as (saved & rest & Hsaved & Hf2 & _).
    rewrite Hsaved in Hb. apply Forall_app in Hb as [Hb _].
    clear -Hf2 Hb. induction Hf2 as [|a l ? ? (sa & Ha & ->) _ IH];
      [done|].
    cbn in Hb. apply Forall_cons in Hb as [(a' & d & [= <-] & Hd & Hin) Hb].
    constructor; [|by apply IH].
    exists sa, d. split; [done|]. split; [|done].
    by rewrite (to_stored_date _ _ Ha). }
  rewrite flush_spec in E.
  destruct (save_outcome (st_batch s)) as [[]|e|]; injection E as <- <-;
    exists (W ++ written_lines (st_batch s)); cbn;
    rewrite Hs, <- app_assoc; (split; [done|]);
    (split; [by apply Forall_app|done]).
Qed.

Lemma keeps_window_flush_if_full : always R (flush_if_full cfg).
Proof.
  unfold flush_if_full. apply always_get_bind. intros s.
  destruct (_ <=? _); [apply keeps_window_flush|].
  apply (always_ret keeps_window_refl).
Qed.

Lemma keeps_window_date_body collected :
  always R (date_body w cfg start_d end_d collected).
Proof.
  unfold date_body, log. apply always_get_bind. intros s. cbv zeta.
  apply (always_bind keeps_window_trans);
    [apply keeps_window_process_article|].
  intros [a|].
  2: { apply (always_bind keeps_window_trans);
         [apply keeps_window_set_gall_no|].
       intros _. apply (always_ret keeps_window_refl). }
  destruct (date a) as [d|] eqn:Ed.
  2: { intros s1 r s'. unfold bind, of_option, raise.
       intros [= <- <-]. apply keeps_window_refl. }
  cbn [of_option].
  assert (Hret : forall (k : datetime -> M ctl),
            always R (k d) -> always R (bind (ret d) k)).
  { intros k Hk s1 r s'. unfold bind, ret. apply Hk. }
  apply Hret.
  apply (always_bind keeps_window_trans).
  - destruct (dt_leb start_d d && dt_leb d end_d) eqn:Ew.
    + apply andb_true_iff in Ew as [Ew1 Ew2].
      apply (always_bind keeps_window_trans);
        [|intros _; apply (always_ret keeps_window_refl)].
      destruct (bool_decide _); [apply keeps_window_emit|].
      apply (always_bind keeps_window_trans); [apply keeps_window_emit|].
      intros _.
      apply (always_bind keeps_window_trans).
      { rewrite no_comments. apply keeps_window_push.
        by exists a, d. }
      intros _.
      apply (always_bind keeps_window_trans); [apply keeps_window_emit|].
      intros _. apply keeps_window_flush_if_full.
    + destruct (dt_ltb end_d d).
      { apply (always_bind keeps_window_trans); [apply keeps_window_emit|].
        intros _. apply (always_ret keeps_window_refl). }
      destruct (dt_ltb d start_d); [|apply (always_ret keeps_window_refl)].
      apply (always_bind keeps_window_trans); [apply keeps_window_emit|].
      intros _. apply (always_ret keeps_window_refl).
  - intros [|]; [|apply (always_ret keeps_window_refl)].
    apply (always_bind keeps_window_trans);
      [apply keeps_window_set_gall_no|]. intros _.
    apply (always_bind keeps_window_trans); [apply keeps_window_sleep|].
    intros _. apply (always_ret keeps_window_refl).
Qed.

Lemma keeps_window_date_loop fuel collected :
  always R (date_loop w cfg fuel start_d end_d collected).
Proof.
  induction fuel as [|fuel IH]; cbn [date_loop];
    [apply (always_out_of_fuel keeps_window_refl)|].
  apply (always_bind keeps_window_trans); [apply keeps_window_date_body|].
  intros [|]; [apply IH|apply (always_ret keeps_window_refl)].
Qed.

Lemma keeps_window_try_block fuel collected :
  always R
    (try_finally
       (try_except_interrupt
          (traverse w cfg fuel (ByDate start_d end_d) collected) flush)
       driver_quit).
Proof.
  apply (always_try_finally keeps_window_trans);
    [|apply keeps_window_emit].
  apply (always_try_except_interrupt keeps_window_trans);
    [|apply keeps_window_flush].
  unfold traverse.
  apply (always_bind keeps_window_trans); [apply keeps_window_emit|].
  intros _.
  apply (always_bind keeps_window_trans); [apply keeps_window_date_loop|].
  intros _. apply keeps_window_flush.
Qed.

End WindowOnly.

(** X19. Without comments, everything a date-mode run adds to the store
    is a record dated inside the window, bounds included, however the
    run ends.  (With comments the record stored is the one the second
    fetch returned, whose date is not looked at.) *)
Theorem date_mode_stores_only_the_window
    (w : world) (cfg : config) (fuel : nat) (file : option (list line))
    (st_txt et_txt : string) (sd ed : datetime)
    (r : result unit) (s' : state) :
  is_crawl_comments cfg = false ->
  has_gall_no_range cfg = false ->
  start_date cfg = Some st_txt -> end_date cfg = Some et_txt ->
  strptime st_txt = Some sd -> strptime et_txt = Some ed ->
  run w cfg fuel (init_state file) = (r, s') ->
  exists added,
    store_lines s' = default [] file ++ added
    /\ Forall (window_line sd ed) added.
Proof.
  intros Hcc Hmode Hst Het Hsd Hed.
  set (S0 := default [] file).
  assert (Hend : forall s, window_only S0 sd ed s ->
            exists added, store_lines s = S0 ++ added
                          /\ Forall (window_line sd ed) added).
  { intros s (W & Hs & Hw & _). by exists W. }
  assert (Hsame : forall s, st_store s = file -> st_batch s = [] ->
                            window_only S0 sd ed s).
  { intros s Hs Hb. exists []. unfold store_lines. rewrite Hs, Hb.
    fold S0. by rewrite app_nil_r. }
  rewrite run_unfold. unfold bind at 1.
  destruct (check_gallery_conditions w cfg (init_state file))
    as [[[]|e|] s1] eqn:Eg;
    destruct (check_gallery_conditions_data _ _ _ _ _ Eg) as [Hb1 Hs1].
  2,3: intros [= <- <-]; by apply Hend, Hsame.
  destruct (check_scrapping_conditions w cfg s1) as [[mode|e|] s2] eqn:Es;
    destruct (check_scrapping_conditions_data _ _ _ _ _ Es)
      as (Hb2 & Hs2 & _).
  2,3: intros [= <- <-]; apply Hend, Hsame;
       [by rewrite Hs2, Hs1|by rewrite Hb2, Hb1].
  pose proof (check_scrapping_conditions_mode _ _ _ _ _ Es) as Hacc.
  destruct mode as [e|sd' ed']; [congruence|].
  destruct Hacc as (st' & et' & Hst' & Het' & Hsd' & Hed').
  assert (sd' = sd) as -> by congruence.
  assert (ed' = ed) as -> by congruence.
  destruct (load_collected_gall_no_ok s2) as (c & l & ->).
  match goal with
  | |- context [ready cfg ?st] => set (s3 := st)
  end.
  assert (Hready : window_only S0 sd ed (ready cfg s3)).
  { apply Hsame; [|done]. cbn. by rewrite Hs2, Hs1. }
  intros Hrun. apply Hend.
  by apply (keeps_window_try_block w cfg S0 sd ed Hcc fuel c _ _ _ Hrun).
Qed.

Lemma date_mode_stores_only_the_window_witness :
  exists added,
    store_lines
      (run Scenario.board (Scenario.by_date false) 10 (init_state None)).2
    = default [] None ++ added
    /\ Forall (window_line Scenario.may_26 Scenario.jun_06) added.
Proof.
  exact (date_mode_stores_only_the_window Scenario.board
           (Scenario.by_date false) 10 None "2025.05.26" "2025.06.06"
           Scenario.may_26 Scenario.jun_06 _ _ eq_refl eq_refl eq_refl
           eq_refl eq_refl eq_refl (surjective_pairing _)).
Defined.

(** ** An id-mode run rests between two requests *)

Lemma marks_app t1 t2 : marks (t1 ++ t2) = marks t1 ++ marks t2.
Proof. apply omap_app. Qed.

Lemma steps_unmarked s s' :
  steps unmarked s s' -> marks (st_trace s') = marks (st_trace s).
Proof.
  intros ((evs & -> & Hp) & _). rewrite marks_app.
  assert (marks evs = []) as ->; [|by rewrite app_nil_r].
  induction Hp as [|e evs He _ IH]; [done|]. cbn.
  unfold unmarked in He. by rewrite He.
Qed.

Lemma unmarked_log l m : unmarked (EvLog l m).
Proof. done. Qed.

Lemma rests_between_snoc_rest l :
  rests_between l -> rests_between (l ++ [Rest]).
Proof.
  intros Hl i Hi Hsi.
  destruct (decide (S i < length l)%nat) as [Hlt|Hge].
  - rewrite lookup_app_l in Hi by lia. rewrite lookup_app_l in Hsi by lia.
    exact (Hl i Hi Hsi).
  - assert (S i = length l) as Hlen.
    { apply lookup_lt_Some in Hsi. rewrite length_app in Hsi. cbn in Hsi.
      lia. }
    rewrite lookup_app_r in Hsi by lia.
    replace (S i - length l)%nat with 0%nat in Hsi by lia. done.
Qed.

Lemma rests_between_snoc_req l :
  rests_between l -> last l <> Some Req -> rests_between (l ++ [Req]).
Proof.
  intros Hl Hlast i Hi Hsi.
  destruct (decide (S i < length l)%nat) as [Hlt|Hge].
  - rewrite lookup_app_l in Hi by lia. rewrite lookup_app_l in Hsi by lia.
    exact (Hl i Hi Hsi).
  - assert (S i = length l) as Hlen.
    { apply lookup_lt_Some in Hsi. rewrite length_app in Hsi. cbn in Hsi.
      lia. }
    rewrite lookup_app_l in Hi by lia. apply Hlast.
    rewrite last_lookup. by replace (Nat.pred (length l)) with i by lia.
Qed.

Section RestsBetween.

Variable w : world.
Variable cfg : config.

Lemma rested_asked s : rested s -> asked s.
Proof. by intros [? _]. Qed.

(** Code that neither asks for a post nor sleeps. *)
Lemma ensures_unmarked {A} (I : state -> Prop) (m : M A) :
  (forall s s', marks (st_trace s') = marks (st_trace s) -> I s -> I s') ->
  (forall s, I s -> asked s) ->
  always (steps unmarked) m ->
  ensures I I asked asked m.
Proof.
  intros HI HIA Hs s r s' Hi E.
  assert (I s') by (apply (HI s); [by eapply steps_unmarked, Hs|done]).
  destruct r as [a|[]|]; try done; by apply HIA.
Qed.

Lemma asked_frame s s' :
  marks (st_trace s') = marks (st_trace s) -> asked s -> asked s'.
Proof. unfold asked. by intros ->. Qed.

Lemma rested_frame s s' :
  marks (st_trace s') = marks (st_trace s) -> rested s -> rested s'.
Proof. unfold rested. by intros ->. Qed.

Lemma ensures_rested_emit e :
  unmarked e -> ensures rested rested asked asked (emit e).
Proof.
  intros He. apply ensures_unmarked;
    [apply rested_frame|apply rested_asked|by apply steps_emit].
Qed.

Lemma ensures_asked {A} (m : M A) :
  always (steps unmarked) m -> ensures asked asked asked asked m.
Proof. intros Hm. by apply ensures_unmarked; [apply asked_frame| |]. Qed.

Lemma ensures_rested_set_gall_no g :
  ensures rested rested asked asked (set_gall_no g).
Proof. by intros s r s' Hr [= <- <-]. Qed.

(** The events of a fetch hold one request for a post, or none, and no
    sleep. *)
Lemma process_article_marks no c s r s' :
  process_article w cfg no c s = (r, s') ->
  marks (st_trace s') = marks (st_trace s) ++ [Req]
  \/ marks (st_trace s') = marks (st_trace s).
Proof.
  intros E.
  pose proof (process_article_frame _ _ _ _ _ _ _ E)
    as [_ _ _ (evs & Ht & Hns)].
  assert (Hm : marks evs = replicate (length (post_requests evs)) Req).
  { clear -Hns. unfold marks, post_requests.
    induction Hns as [|e evs He _ IH]; [done|].
    destruct e as [u| | | |]; cbn; try done.
    destruct (u_no u); cbn; [by f_equal|done]. }
  destruct (process_article_requests _ _ _ _ _ _ _ E) as [Hp|[-> _]];
    [|by right].
  rewrite Ht, post_requests_app in Hp. apply app_inv_head in Hp.
  rewrite Ht, marks_app, Hm, Hp. by left.
Qed.

Lemma ensures_rested_fetch no c :
  ensures rested asked asked asked (process_article w cfg no c).
Proof.
  intros s r s' [Ha Hl] E.
  assert (asked s') as Hs'.
  { unfold asked.
    destruct (process_article_marks _ _ _ _ _ E) as [-> | ->]; [|done].
    by apply rests_between_snoc_req. }
  by destruct r as [a|[]|].
Qed.

Lemma ensures_asked_sleep : ensures asked rested asked asked (sleep w).
Proof.
  intros s r s' Ha. rewrite sleep_spec. intros [= <- <-].
  assert (rested (mk_state (st_gall_no s) (st_batch s) (st_store s)
                    (st_trace s ++ [EvSleep]) (S (st_clock s)))) as Hr.
  { split; cbn [st_trace]; rewrite marks_app;
      change (marks [EvSleep]) with [Rest].
    - by apply rests_between_snoc_rest.
    - rewrite last_snoc. discriminate. }
  destruct (w_signal w (st_clock s)); [by apply rested_asked|done].
Qed.

Lemma ensures_rested_id_body collected :
  ensures rested rested asked asked (id_body w cfg collected).
Proof.
  unfold id_body. apply ensures_get_bind. intros s0. cbv zeta.
  destruct (bool_decide _).
  { eapply ensures_bind; [by apply ensures_rested_emit|].
    intros _. apply ensures_rested_set_gall_no. }
  eapply ensures_bind; [by apply ensures_rested_emit|]. intros _.
  eapply ensures_bind; [apply ensures_rested_fetch|]. intros a.
  eapply (ensures_bind _ asked).
  { apply ensures_asked.
    destruct a as [a|]; [|apply (always_ret (steps_refl _))].
    apply (always_bind (steps_trans _)); [apply steps_push|]. intros _.
    by apply steps_emit. }
  intros _. eapply (ensures_bind _ asked).
  { apply ensures_asked. by apply flush_if_full_steps. }
  intros _. eapply (ensures_bind _ asked).
  { apply ensures_asked. apply steps_set_gall_no. }
  intros _. apply ensures_asked_sleep.
Qed.

Lemma ensures_rested_id_loop fuel end_no collected :
  ensures rested rested asked asked (id_loop w cfg fuel end_no collected).
Proof.
  induction fuel as [|fuel IH]; cbn [id_loop]; apply ensures_get_bind;
    intros s0; destruct (_ <=? _);
    try (apply ensures_out_of_fuel, rested_asked);
    try (by apply ensures_ret).
  eapply ensures_bind; [apply ensures_rested_id_body|]. intros _. apply IH.
Qed.

Lemma ensures_rested_traverse fuel end_no collected :
  ensures rested asked asked asked
    (traverse w cfg fuel (ByGallNo end_no) collected).
Proof.
  unfold traverse.
  eapply ensures_bind; [by apply ensures_rested_emit|]. intros _.
  eapply (ensures_bind _ asked).
  { eapply ensures_weaken; [| |apply ensures_rested_id_loop]; [done|].
    apply rested_asked. }
  intros _. apply ensures_asked. by apply flush_steps.
Qed.

End RestsBetween.

(** X20. An id-mode run rests between two requests for posts: in its
    trace no two such requests follow each other without a sleep in
    between, however the run ends.  (In date mode a fetch that found no
    post, and the second fetch of a post with its comments, follow the
    request before them at once.) *)
Theorem id_mode_rests_between_requests
    (w : world) (cfg : config) (fuel : nat) (file : option (list line))
    (a b : Z) (r : result unit) (s' : state) :
  start_gall_no cfg = Some a -> end_gall_no cfg = Some b ->
  run w cfg fuel (init_state file) = (r, s') ->
  rests_between (marks (st_trace s')).
Proof.
  intros Ha Hb. rewrite run_unfold.
  assert (Hlist : forall s1 r1 s2,
            (check_gallery_conditions w cfg;;
             check_scrapping_conditions w cfg) s1 = (r1, s2) ->
            marks (st_trace s2) = marks (st_trace s1)).
  { intros s1 r1 s2 E.
    assert (Hh : always (fun s s' => marks (st_trace s')
                                     = marks (st_trace s))
                   (http_get_listing w cfg)).
    { intros s r0 s0 H.
      destruct (http_get_listing_cases _ _ _ _ _ H)
        as [(_ & _ & ->)|(u & _ & -> & _)]; [done|].
      cbn. rewrite marks_app. cbn. by rewrite app_nil_r. }
    assert (Htr : forall s3 s4 s5 : state,
              marks (st_trace s4) = marks (st_trace s3) ->
              marks (st_trace s5) = marks (st_trace s4) ->
              marks (st_trace s5) = marks (st_trace s3)) by congruence.
    revert E. apply (always_bind Htr).
    - unfold check_gallery_conditions. apply (always_bind Htr); [done|].
      intros resp. by destruct (_ =? _); intros ? ? ? [= <- <-].
    - intros _. unfold check_scrapping_conditions.
      repeat match goal with
             | |- always _ (if ?c then _ else _) => destruct c
             | |- always _ (match ?x with _ => _ end) => destruct x
             end;
        try (by intros ? ? ? [= <- <-]).
      apply (always_bind Htr); [done|]. intros resp.
      apply (always_bind Htr).
      { destruct (select_recent_gall_no _); by intros ? ? ? [= <- <-]. }
      intros n. by intros ? ? ? [= <- <-]. }
  destruct ((check_gallery_conditions w cfg;;
             check_scrapping_conditions w cfg) (init_state file))
    as [[mode|e|] s2] eqn:E1;
    pose proof (Hlist _ _ _ E1) as Hm2; cbn in Hm2.
  2,3: intros [= <- <-]; by rewrite Hm2.
  apply bind_ok_inv in E1 as ([] & s1 & Eg & Es).
  destruct (check_scrapping_conditions_by_gall_no _ _ _ _ _ _ _ Ha Hb Es)
    as (-> & Hcur & Hab).
  destruct (load_collected_gall_no s2) as [[c|e|] s3] eqn:E2.
  2,3: destruct (load_collected_gall_no_ok s2) as (? & ? & Hl);
       rewrite Hl in E2; discriminate.
  assert (Hready : rested (ready cfg s3)).
  { assert (marks (st_trace (ready cfg s3)) = []) as Hr3.
    { cbn. rewrite marks_app.
      assert (marks (st_trace s3) = []) as ->.
      { rewrite <- Hm2. apply steps_unmarked.
        by apply (load_collected_gall_no_steps unmarked) in E2. }
      by destruct (bool_decide _). }
    split; by rewrite Hr3. }
  assert (Hquit : forall s, asked s ->
            rests_between (marks (st_trace s ++ [EvQuit]))).
  { intros s Hs. by rewrite marks_app, app_nil_r. }
  unfold try_finally, try_except_interrupt.
  destruct (traverse w cfg fuel (ByGallNo b) c (ready cfg s3))
    as [[[]|e|] s4] eqn:E3;
    pose proof (ensures_rested_traverse w cfg fuel b c _ _ _ Hready E3)
      as H3; cbn in H3.
  - intros [= <- <-]. by apply Hquit.
  - assert (Hs4 : asked s4) by (by destruct e).
    destruct e; try (intros [= <- <-]; by apply Hquit).
    destruct (flush s4) as [[[]|e|] s5] eqn:E4;
      assert (Hs5 : asked s5)
        by (apply (asked_frame s4); [|done]; apply steps_unmarked;
            by apply (flush_steps unmarked) in E4).
    + intros [= <- <-]. by apply Hquit.
    + intros [= <- <-]. by apply Hquit.
    + by intros [= <- <-].
  - by intros [= <- <-].
Qed.

Lemma id_mode_rests_between_requests_witness :
  rests_between
    (marks
       (st_trace (run Scenario.board (Scenario.by_id (Some 1) (Some 5)) 10
                    (init_state None)).2)).
Proof.
  exact (id_mode_rests_between_requests Scenario.board
           (Scenario.by_id (Some 1) (Some 5)) 10 None 1 5 _ _ eq_refl
           eq_refl (surjective_pairing _)).
Defined.

Example marks_of_an_id_mode_run :
  marks
    (st_trace (run Scenario.board (Scenario.by_id (Some 4) (Some 5)) 10
                 (init_state None)).2)
  = [Req; Rest; Req; Rest].
Proof. vm_compute. reflexivity. Qed.
